(** * CaseFlow: the client-side CSV import pipeline

    A shallow embedding of the import store ([state/store.ts]), the
    validation helpers ([lib/validations.ts]), the validator of the import
    page, the quick-fix toolbar and the batch submitter, followed by the
    properties the specification states about them.

    Conventions.
    - A JavaScript string is the list of its UTF-16 code units.
    - A CSV row is a JavaScript object: a finite map from property names to
      values; a value is a number or a string, an absent key reads as
      [undefined].
    - Third-party code (the ECMAScript runtime's case mapping and date
      parsing, zod's built-in messages and e-mail pattern, libphonenumber-js)
      is a parameter of the development, bundled in the class [Platform]. *)

From Stdlib Require Import ZArith NArith Ascii String DecimalString Sorted.
From Stdlib Require DecimalN DecimalPos.
From stdpp Require Import gmap strings list fin_maps sorting.

Local Open Scope Z_scope.

(* ===================================================================== *)
(** ** JavaScript values and strings *)
(* ===================================================================== *)

Module JS.

(** A string value: its UTF-16 code units. *)
Abbreviation jsstring := (list N).

(** A string literal of the source, as code units (ASCII literals only). *)
Definition u (s : string) : jsstring :=
  fmap N_of_ascii (list_ascii_of_string s).

(** [String(n)] for a non-negative integer. *)
Definition decimal (n : N) : jsstring :=
  u (NilZero.string_of_uint (N.to_uint n)).

(** The values a row property holds ([string | number]). *)
Inductive jsval :=
| JNum (z : Z)
| JStr (s : jsstring).

#[global] Instance jsval_eq_dec : EqDecision jsval.
Proof. solve_decision. Defined.

#[global] Instance jsval_countable : Countable jsval.
Proof.
  apply (inj_countable'
           (λ v, match v with JNum z => inl z | JStr s => inr s end)
           (λ x, match x with inl z => JNum z | inr s => JStr s end)).
  by intros [].
Defined.

(** Truthiness of a possibly undefined value: [undefined], the empty string and [0]
    are falsy. *)
Definition truthy (v : option jsval) : bool :=
  match v with
  | None => false
  | Some (JNum z) => negb (z =? 0)
  | Some (JStr s) => negb (bool_decide (s = []))
  end.

(** [a || b]. *)
Definition js_or (a b : option jsval) : option jsval :=
  if truthy a then a else b.

(** ECMAScript [WhiteSpace] and [LineTerminator] code units: the set
    stripped by [String.prototype.trim] and matched by [\s]. *)
Definition is_ws (c : N) : bool :=
  ((9 <=? c) && (c <=? 13) || (c =? 32) || (c =? 160) || (c =? 5760)
   || (8192 <=? c) && (c <=? 8202) || (c =? 8232) || (c =? 8233)
   || (c =? 8239) || (c =? 8287) || (c =? 12288) || (c =? 65279))%N.

Fixpoint trimStart (s : jsstring) : jsstring :=
  match s with
  | [] => []
  | c :: s' => if is_ws c then trimStart s' else s
  end.

Definition trimEnd (s : jsstring) : jsstring :=
  reverse (trimStart (reverse s)).

(** [s.trim()]. *)
Definition trim (s : jsstring) : jsstring := trimEnd (trimStart s).

(** [s.split(/\s+/)]: [cur] is the piece being read (reversed), [in_ws]
    tells that the previous code unit belonged to a separator. *)
Fixpoint split_ws_from (cur : jsstring) (in_ws : bool) (s : jsstring)
  : list jsstring :=
  match s with
  | [] => [reverse cur]
  | c :: s' =>
      if is_ws c then
        if in_ws then split_ws_from cur true s'
        else reverse cur :: split_ws_from [] true s'
      else split_ws_from (c :: cur) false s'
  end.

Definition split_ws (s : jsstring) : list jsstring :=
  split_ws_from [] false s.

(** [parts.join(sep)]. *)
Fixpoint join (sep : jsstring) (parts : list jsstring) : jsstring :=
  match parts with
  | [] => []
  | [p] => p
  | p :: ps => p ++ sep ++ join sep ps
  end.

(** [s.charAt(0)] and [s.slice(1)]. *)
Definition charAt0 (s : jsstring) : jsstring := take 1 s.
Definition slice1 (s : jsstring) : jsstring := drop 1 s.

End JS.
Export JS.

(** A row of the grid: a JavaScript object. *)
Abbreviation CSVRow := (gmap string jsval).

(** [row._rowIndex === v]; [None] is [undefined]. *)
Definition has_index (v : option jsval) (row : CSVRow) : Prop :=
  row !! "_rowIndex" = v.

#[global] Instance has_index_dec v row : Decision (has_index v row).
Proof. unfold has_index. apply _. Defined.

(* ===================================================================== *)
(** ** Third-party code *)
(* ===================================================================== *)

(** What the pipeline takes from the ECMAScript runtime, from zod and from
    libphonenumber-js.  A library call that throws is [None]. *)
Class Platform := {
  (** [String.prototype.toUpperCase] and [toLowerCase]. *)
  toUpperCase : jsstring → jsstring;
  toLowerCase : jsstring → jsstring;
  (** [new Date(s).getTime()], in milliseconds since the epoch; [None] is
      the invalid date, whose time value is [NaN]. *)
  dateParse : jsstring → option Z;
  (** zod: the pattern behind [z.string().email()] and the messages zod
      writes itself for an input of the wrong type, a value outside an
      enumeration and an input no member of a union accepts.  When the
      e-mail union rejects a string that is not an address, zod reports one
      issue whose message is the schema's own or zod's, depending on the
      release: [msg_email_rejected] is that message. *)
  isEmail : jsstring → bool;
  msg_invalid_type : option jsval → jsstring;
  msg_invalid_enum : list jsstring → option jsval → jsstring;
  msg_invalid_union : jsstring;
  msg_email_rejected : jsstring;
  (** libphonenumber-js: [isValidPhoneNumber(text, country?)],
      [parsePhoneNumber(text, country?)] and [number.format("E.164")]. *)
  PhoneNumber : Type;
  isValidPhoneNumber : jsstring → option jsstring → option bool;
  parsePhoneNumber : jsstring → option jsstring → option PhoneNumber;
  formatE164 : PhoneNumber → option jsstring;
}.

(* ===================================================================== *)
(** ** lib/validations.ts *)
(* ===================================================================== *)

Module Validations.
Section Helpers.
Context `{Platform}.

(** The body of the [try] block of [normalizePhone]: [None] when a library
    call throws, [Some r] when the block runs to its end or returns. *)
Definition normalizePhone_try (cleaned : jsstring) : option (option jsstring) :=
  validIN ← isValidPhoneNumber cleaned (Some (u "IN"));
  if validIN : bool then
    parsed ← parsePhoneNumber cleaned (Some (u "IN"));
    e164 ← formatE164 parsed;
    Some (Some e164)
  else
    validIntl ← isValidPhoneNumber cleaned None;
    if validIntl : bool then
      parsed ← parsePhoneNumber cleaned None;
      e164 ← formatE164 parsed;
      Some (Some e164)
    else Some None.

(** [normalizePhone(phone)]; the result [None] is [null]. *)
Definition normalizePhone (phone : jsstring) : option jsstring :=
  if bool_decide (phone = []) || bool_decide (trim phone = []) then None
  else
    let cleaned := trim phone in
    match normalizePhone_try cleaned with
    | Some r => r
    | None => None
    end.

(** [titleCase(name)]. *)
Definition titleCase (name : jsstring) : jsstring :=
  join (u " ")
    (fmap (λ word, toUpperCase (charAt0 word) ++ toLowerCase (slice1 word))
       (split_ws (trim name))).

End Helpers.

(** [ValidationError]. *)
Record ValidationError := {
  ve_row : nat;
  ve_field : string;
  ve_value : option jsval;
  ve_message : jsstring;
}.

#[global] Instance ValidationError_eq_dec : EqDecision ValidationError.
Proof. solve_decision. Defined.

End Validations.
Export Validations.

(* ===================================================================== *)
(** ** state/store.ts *)
(* ===================================================================== *)

Module Store.

Record ColumnMapping := { csvColumn : string; schemaField : string }.

Record ImportProgress := {
  total : nat;
  processed : nat;
  success : nat;
  failed : nat;
  currentBatch : nat;
  totalBatches : nat;
}.

Record BatchResult := {
  br_success : bool;
  br_caseId : option jsval;
  br_error : option jsstring;
  br_id : option jsstring;
}.

#[global] Instance BatchResult_eq_dec : EqDecision BatchResult.
Proof. solve_decision. Defined.

Record ImportState := {
  rawData : list CSVRow;
  headers : list string;
  columnMappings : list ColumnMapping;
  filename : option jsstring;
  validationErrors : list ValidationError;
  isValidating : bool;
  importId : option jsstring;
  progress : option ImportProgress;
  batchResults : list BatchResult;
  isSubmitting : bool;
}.

Definition initialState : ImportState :=
  {| rawData := []; headers := []; columnMappings := []; filename := None;
     validationErrors := []; isValidating := false; importId := None;
     progress := None; batchResults := []; isSubmitting := false |}.

(** zustand's [set(partial)]: the setters below replace the named slices
    and keep the others. *)
Definition with_rawData (d : list CSVRow) (s : ImportState) : ImportState :=
  {| rawData := d; headers := headers s; columnMappings := columnMappings s;
     filename := filename s; validationErrors := validationErrors s;
     isValidating := isValidating s; importId := importId s;
     progress := progress s; batchResults := batchResults s;
     isSubmitting := isSubmitting s |}.

(** One edit of a bulk update. *)
Record Update := {
  rowIndex : option jsval;
  field : string;
  value : jsstring;
}.

(** [{ ...row, [field]: value }]. *)
Definition assign (field : string) (value : jsstring) (row : CSVRow) : CSVRow :=
  <[field := JStr value]> row.

Definition setRawData (data : list CSVRow) (hs : list string)
  (name : jsstring) (s : ImportState) : ImportState :=
  {| rawData := imap (λ index row, <["_rowIndex" := JNum (Z.of_nat index)]> row) data;
     headers := hs; columnMappings := columnMappings s;
     filename := Some name; validationErrors := [];
     isValidating := isValidating s; importId := importId s;
     progress := None; batchResults := []; isSubmitting := isSubmitting s |}.

Definition updateRow (rowIndex : option jsval) (field : string) (value : jsstring)
  (s : ImportState) : ImportState :=
  with_rawData
    (fmap (λ row, if decide (has_index rowIndex row)
                 then assign field value row else row) (rawData s)) s.

(** One turn of the loop of [updateMultipleRows]; [findIndex] returning
    [-1] is [None]. *)
Definition applyUpdate (newData : list CSVRow) (update : Update) : list CSVRow :=
  match list_find (has_index (rowIndex update)) newData with
  | Some (index, row) =>
      <[index := assign (field update) (value update) row]> newData
  | None => newData
  end.

Definition updateMultipleRows (updates : list Update) (s : ImportState)
  : ImportState :=
  with_rawData (foldl applyUpdate (rawData s) updates) s.

Definition setValidationErrors (errors : list ValidationError)
  (s : ImportState) : ImportState :=
  {| rawData := rawData s; headers := headers s;
     columnMappings := columnMappings s; filename := filename s;
     validationErrors := errors; isValidating := isValidating s;
     importId := importId s; progress := progress s;
     batchResults := batchResults s; isSubmitting := isSubmitting s |}.

Definition setImportId (id : jsstring) (s : ImportState) : ImportState :=
  {| rawData := rawData s; headers := headers s;
     columnMappings := columnMappings s; filename := filename s;
     validationErrors := validationErrors s; isValidating := isValidating s;
     importId := Some id; progress := progress s;
     batchResults := batchResults s; isSubmitting := isSubmitting s |}.

Definition setProgress (p : option ImportProgress) (s : ImportState)
  : ImportState :=
  {| rawData := rawData s; headers := headers s;
     columnMappings := columnMappings s; filename := filename s;
     validationErrors := validationErrors s; isValidating := isValidating s;
     importId := importId s; progress := p;
     batchResults := batchResults s; isSubmitting := isSubmitting s |}.

Definition addBatchResults (results : list BatchResult) (s : ImportState)
  : ImportState :=
  {| rawData := rawData s; headers := headers s;
     columnMappings := columnMappings s; filename := filename s;
     validationErrors := validationErrors s; isValidating := isValidating s;
     importId := importId s; progress := progress s;
     batchResults := batchResults s ++ results;
     isSubmitting := isSubmitting s |}.

Definition setIsSubmitting (b : bool) (s : ImportState) : ImportState :=
  {| rawData := rawData s; headers := headers s;
     columnMappings := columnMappings s; filename := filename s;
     validationErrors := validationErrors s; isValidating := isValidating s;
     importId := importId s; progress := progress s;
     batchResults := batchResults s; isSubmitting := b |}.

Definition clearImport (s : ImportState) : ImportState := initialState.

End Store.
Export Store.

(* ===================================================================== *)
(** ** lib/validations.ts: the case schema *)
(* ===================================================================== *)

Module Schema.
Section CaseSchema.
Context `{Platform}.

Definition CategoryEnum : list jsstring := [u "TAX"; u "LICENSE"; u "PERMIT"].
Definition PriorityEnum : list jsstring := [u "LOW"; u "MEDIUM"; u "HIGH"].

(** The object handed to [CaseSchema.safeParse]; [None] is [undefined]. *)
Record CaseInput := {
  in_caseId : option jsval;
  in_applicantName : option jsval;
  in_dob : option jsval;
  in_email : option jsval;
  in_phone : option jsval;
  in_category : option jsval;
  in_priority : option jsval;
}.

(** [z.string()] followed by checks or refinements, each with its message:
    an input that is not a string yields zod's type issue and no check
    runs; on a string every check runs and every failing one reports. *)
Definition z_string (checks : list ((jsstring → bool) * jsstring))
  (v : option jsval) : list jsstring :=
  match v with
  | Some (JStr s) =>
      omap (λ '(ok, msg), if ok s : bool then None else Some msg) checks
  | _ => [msg_invalid_type v]
  end.

(** [z.enum(values)]. *)
Definition enum_ok (values : list jsstring) (v : option jsval) : bool :=
  match v with
  | Some (JStr s) => bool_decide (s ∈ values)
  | _ => false
  end.

Definition z_enum (values : list jsstring) (v : option jsval) : list jsstring :=
  if enum_ok values v then [] else [msg_invalid_enum values v].

(** [/^[A-Za-z0-9-]+$/.test(s)]. *)
Definition caseId_char (c : N) : bool :=
  ((65 <=? c) && (c <=? 90) || (97 <=? c) && (c <=? 122)
   || (48 <=? c) && (c <=? 57) || (c =? 45))%N.

Definition caseId_regex (s : jsstring) : bool :=
  negb (bool_decide (s = [])) && forallb caseId_char s.

Definition min_length (n : nat) (s : jsstring) : bool := (n <=? length s)%nat.
Definition max_length (n : nat) (s : jsstring) : bool := (length s <=? n)%nat.

(** The two refinements of [dob]; [now] is the reading of [new Date()]. *)
Definition dob_is_date (val : jsstring) : bool :=
  match dateParse val with Some _ => true | None => false end.

Definition dob_in_range (now : Z) (val : jsstring) : bool :=
  match dateParse val, dateParse (u "1900-01-01") with
  | Some date, Some minDate => (minDate <=? date) && (date <=? now)
  | _, _ => false
  end.

(** [z.string().email("Invalid email format").optional().nullable()
    .or(z.literal(''))]: one issue when no member accepts the input. *)
Definition email_issues (v : option jsval) : list jsstring :=
  match v with
  | None => []
  | Some (JStr s) =>
      if bool_decide (s = []) then []
      else if isEmail s then [] else [msg_email_rejected]
  | Some (JNum _) => [msg_invalid_union]
  end.

(** [z.string().optional().nullable().or(z.literal('')).transform(...)]:
    the transform reports no issue, whatever [normalizePhone] returns. *)
Definition phone_issues (v : option jsval) : list jsstring :=
  match v with
  | None | Some (JStr _) => []
  | Some (JNum _) => [msg_invalid_union]
  end.

(** [PriorityEnum.optional().default("LOW")]. *)
Definition priority_issues (v : option jsval) : list jsstring :=
  match v with
  | None => []
  | Some _ => z_enum PriorityEnum v
  end.

(** The issues of [CaseSchema.safeParse(o)], as (path, message), in the
    order of the keys of the schema. *)
Definition CaseSchema_issues (now : Z) (o : CaseInput)
  : list (string * jsstring) :=
  fmap (pair "caseId")
    (z_string [(min_length 1, u "Case ID is required");
               (caseId_regex, u "Case ID must be alphanumeric with hyphens")]
       (in_caseId o))
  ++ fmap (pair "applicantName")
    (z_string [(min_length 1, u "Applicant name is required");
               (max_length 255,
                u "Applicant name must be less than 255 characters")]
       (in_applicantName o))
  ++ fmap (pair "dob")
    (z_string [(dob_is_date, u "Invalid date format");
               (dob_in_range now,
                u "Date of birth must be between 1900 and today")]
       (in_dob o))
  ++ fmap (pair "email") (email_issues (in_email o))
  ++ fmap (pair "phone") (phone_issues (in_phone o))
  ++ fmap (pair "category") (z_enum CategoryEnum (in_category o))
  ++ fmap (pair "priority") (priority_issues (in_priority o)).

End CaseSchema.
End Schema.
Export Schema.

(* ===================================================================== *)
(** ** app/(dashboard)/import/page.tsx: the validator *)
(* ===================================================================== *)

Module ImportPage.
Section Validator.
Context `{Platform}.

(** [a || undefined]. *)
Definition or_undefined (a : option jsval) : option jsval := js_or a None.

(** [{ caseId: "case_id", applicantName: "applicant_name" }[field] || field]. *)
Definition mappedField (field : string) : string :=
  if String.eqb field "caseId" then "case_id"
  else if String.eqb field "applicantName" then "applicant_name"
  else field.

Definition duplicate_message (first : nat) : jsstring :=
  u "Duplicate case ID (first seen at row "
  ++ decimal (N.of_nat (first + 1)) ++ u ")".

(** The duplicate check of one row: the [Map] after it and the error it
    pushes. *)
Definition duplicateCheck (seenIds : gmap jsval nat) (index : nat)
  (row : CSVRow) : gmap jsval nat * list ValidationError :=
  match row !! "case_id" with
  | Some caseId =>
      if truthy (Some caseId) then
        match seenIds !! caseId with
        | Some first =>
            (seenIds,
             [{| ve_row := index; ve_field := "case_id";
                 ve_value := Some caseId;
                 ve_message := duplicate_message first |}])
        | None => (<[caseId := index]> seenIds, [])
        end
      else (seenIds, [])
  | None => (seenIds, [])
  end.

(** The errors of one row that come from the schema. *)
Definition schemaErrors (now : Z) (index : nat) (row : CSVRow)
  : list ValidationError :=
  fmap (λ '(path, message),
         {| ve_row := index; ve_field := mappedField path;
            ve_value := row !! mappedField path; ve_message := message |})
    (CaseSchema_issues now
       {| in_caseId := row !! "case_id";
          in_applicantName := row !! "applicant_name";
          in_dob := row !! "dob";
          in_email := or_undefined (row !! "email");
          in_phone := or_undefined (row !! "phone");
          in_category := row !! "category";
          in_priority := or_undefined (row !! "priority") |}).

(** The two additional checks. *)
Definition categoryError (index : nat) (row : CSVRow) : list ValidationError :=
  if truthy (row !! "category") && negb (enum_ok CategoryEnum (row !! "category"))
  then [{| ve_row := index; ve_field := "category";
           ve_value := row !! "category";
           ve_message := u "Category must be TAX, LICENSE, or PERMIT" |}]
  else [].

Definition priorityError (index : nat) (row : CSVRow) : list ValidationError :=
  if truthy (row !! "priority") && negb (enum_ok PriorityEnum (row !! "priority"))
  then [{| ve_row := index; ve_field := "priority";
           ve_value := row !! "priority";
           ve_message := u "Priority must be LOW, MEDIUM, or HIGH" |}]
  else [].

(** What the body of the [forEach] pushes for one row after the duplicate
    check. *)
Definition fieldErrors (now : Z) (index : nat) (row : CSVRow)
  : list ValidationError :=
  schemaErrors now index row ++ categoryError index row
  ++ priorityError index row.

(** [rawData.forEach((row, index) => ...)], from position [index] on;
    [clock i] is the reading of [new Date()] while row [i] is checked. *)
Fixpoint validateFrom (clock : nat → Z) (index : nat)
  (seenIds : gmap jsval nat) (errors : list ValidationError)
  (rows : list CSVRow) : list ValidationError :=
  match rows with
  | [] => errors
  | row :: rest =>
      let '(seenIds', dup) := duplicateCheck seenIds index row in
      validateFrom clock (S index) seenIds'
        (errors ++ dup ++ fieldErrors (clock index) index row) rest
  end.

(** The error list [validateData] computes from the rows. *)
Definition validationErrorsOf (clock : nat → Z) (rows : list CSVRow)
  : list ValidationError :=
  validateFrom clock 0 ∅ [] rows.

(** [validateData()]: it reads [rawData] and stores the error list. *)
Definition validateData (clock : nat → Z) (s : ImportState) : ImportState :=
  setValidationErrors (validationErrorsOf clock (rawData s)) s.

End Validator.
End ImportPage.
Export ImportPage.

(* ===================================================================== *)
(** ** components/import/FixAllToolbar.tsx *)
(* ===================================================================== *)

Module Toolbar.

(** A callback acting on the store: it returns a value or throws, and
    what it wrote to the store before throwing stays written. *)
Definition Action (A : Type) : Type := ImportState → option A * ImportState.

#[global] Instance Action_ret : MRet Action := λ A a s, (Some a, s).
#[global] Instance Action_bind : MBind Action := λ A B k m s,
  match m s with
  | (Some a, s') => k a s'
  | (None, s') => (None, s')
  end.

(** A callback of a component that has just rendered: it closes over the
    [rawData] the store holds at that moment. *)
Definition rendered {A} (callback : list CSVRow → Action A) : Action A :=
  λ s, callback (rawData s) s.

Definition throw {A} : Action A := λ s, (None, s).
Definition commit (f : ImportState → ImportState) : Action () :=
  λ s, (Some (), f s).

Section Fixes.
Context `{Platform}.

Definition trimmedFields : list string :=
  ["case_id"; "applicant_name"; "email"; "phone"].

(** The body of each operation's [rawData.forEach((row) => ...)]: the edits
    it pushes for one row. *)
Definition trimWhitespace_row (row : CSVRow) : list Update :=
  field ← trimmedFields;
  match row !! field with
  | Some (JStr value) =>
      if bool_decide (value ≠ trim value)
      then [{| rowIndex := row !! "_rowIndex"; field := field;
               value := trim value |}]
      else []
  | _ => []
  end.

Definition titleCaseNames_row (row : CSVRow) : list Update :=
  match row !! "applicant_name" with
  | Some (JStr name) =>
      if bool_decide (trim name ≠ []) && bool_decide (titleCase name ≠ name)
      then [{| rowIndex := row !! "_rowIndex"; field := "applicant_name";
               value := titleCase name |}]
      else []
  | _ => []
  end.

Definition normalizePhones_row (row : CSVRow) : list Update :=
  match row !! "phone" with
  | Some (JStr phone) =>
      if bool_decide (trim phone ≠ []) then
        match normalizePhone phone with
        | Some normalized =>
            if bool_decide (normalized ≠ []) && bool_decide (normalized ≠ phone)
            then [{| rowIndex := row !! "_rowIndex"; field := "phone";
                     value := normalized |}]
            else []
        | None => []
        end
      else []
  | _ => []
  end.

(** [!priority || priority.trim() === '']; a number other than 0 has no
    [trim] method and the call throws ([None]). *)
Definition priority_blank (priority : option jsval) : option bool :=
  if negb (truthy priority) then Some true
  else match priority with
       | Some (JStr p) => Some (bool_decide (trim p = []))
       | _ => None
       end.

Definition setDefaultPriority_row (row : CSVRow) : option (list Update) :=
  blank ← priority_blank (row !! "priority");
  Some (if blank : bool
        then [{| rowIndex := row !! "_rowIndex"; field := "priority";
                 value := u "LOW" |}]
        else []).

(** The edits each operation collects from [rawData], the row set the
    component rendered with. *)
Definition trimWhitespace_updates (rawData : list CSVRow) : list Update :=
  row ← rawData; trimWhitespace_row row.

Definition titleCaseNames_updates (rawData : list CSVRow) : list Update :=
  row ← rawData; titleCaseNames_row row.

Definition normalizePhones_updates (rawData : list CSVRow) : list Update :=
  row ← rawData; normalizePhones_row row.

Fixpoint setDefaultPriority_updates (rawData : list CSVRow)
  : option (list Update) :=
  match rawData with
  | [] => Some []
  | row :: rest =>
      edits ← setDefaultPriority_row row;
      updates ← setDefaultPriority_updates rest;
      Some (edits ++ updates)
  end.

(** [if (updates.length > 0) updateMultipleRows(updates); return updates.length]. *)
Definition commitUpdates (updates : list Update) : Action nat :=
  (if bool_decide (0 < length updates)%nat
   then commit (updateMultipleRows updates) else mret ());;
  mret (length updates).

(** The four callbacks; [rawData] is the value the hook returned when the
    component rendered, which the callbacks close over. *)
Definition trimWhitespace (rawData : list CSVRow) : Action nat :=
  commitUpdates (trimWhitespace_updates rawData).

Definition titleCaseNames (rawData : list CSVRow) : Action nat :=
  commitUpdates (titleCaseNames_updates rawData).

Definition normalizePhones (rawData : list CSVRow) : Action nat :=
  commitUpdates (normalizePhones_updates rawData).

Definition setDefaultPriority (rawData : list CSVRow) : Action nat :=
  match setDefaultPriority_updates rawData with
  | Some updates => commitUpdates updates
  | None => throw
  end.

Definition fixAll (rawData : list CSVRow) : Action nat :=
  trimmed ← trimWhitespace rawData;
  titled ← titleCaseNames rawData;
  normalized ← normalizePhones rawData;
  defaulted ← setDefaultPriority rawData;
  mret (trimmed + titled + normalized + defaulted)%nat.

(** A click on "Fix All Issues": the handler of the current render runs,
    whose [rawData] is the store's. *)
Definition clickFixAll : Action nat := rendered fixAll.

End Fixes.
End Toolbar.
Export Toolbar.

(* ===================================================================== *)
(** ** components/import/BatchSubmit.tsx *)
(* ===================================================================== *)

Module BatchSubmit.

Definition BATCH_SIZE : nat := 100.

(** One element of the [cases] array of a batch request; [None] is [null]
    or [undefined]. *)
Record CasePayload := {
  caseId : option jsval;
  applicantName : option jsval;
  dob : option jsval;
  email : option jsval;
  phone : option jsval;
  category : option jsval;
  priority : option jsval;
}.

Inductive ImportStatus := COMPLETED | FAILED.

(** The requests the component sends, in the order it sends them. *)
Inductive Request :=
| CreateImport (filename : jsstring) (totalRows : nat)
| PostBatch (importId : jsstring) (cases : list CasePayload)
| PatchImport (importId : jsstring) (status : ImportStatus)
    (successCount failureCount : nat).

(** The component and what surrounds it: the store, the component's own
    [isCancelled] state and the requests sent so far. *)
Record World := {
  store : ImportState;
  isCancelled : bool;
  sent : list Request;
}.

(** What answers the component during one run of [startSubmission]:
    - [createImport]: the import record's identifier, [None] when the
      request fails, the response is not ok or its body cannot be read;
    - [postBatch i cases]: the [results] of the response to the request of
      batch [i], [None] when the request fails, the response is not ok or
      its body cannot be read;
    - [cancelClicked i]: the operator presses Cancel while the request of
      batch [i] is in flight. *)
Record Environment := {
  createImport : jsstring → nat → option jsstring;
  postBatch : nat → list CasePayload → option (list BatchResult);
  cancelClicked : nat → bool;
}.

Definition onStore (f : ImportState → ImportState) (w : World) : World :=
  {| store := f (store w); isCancelled := isCancelled w; sent := sent w |}.

Definition setIsCancelled (b : bool) (w : World) : World :=
  {| store := store w; isCancelled := b; sent := sent w |}.

Definition send (r : Request) (w : World) : World :=
  {| store := store w; isCancelled := isCancelled w; sent := sent w ++ [r] |}.

(** What the callbacks of one render close over: the values the hooks
    returned when the component rendered. *)
Record Render := {
  r_rawData : list CSVRow;
  r_validationErrors : list ValidationError;
  r_batchResults : list BatchResult;
  r_filename : option jsstring;
  r_isCancelled : bool;
}.

Definition render (w : World) : Render :=
  {| r_rawData := rawData (store w);
     r_validationErrors := validationErrors (store w);
     r_batchResults := batchResults (store w);
     r_filename := filename (store w);
     r_isCancelled := isCancelled w |}.

(** [validationErrors.some((e) => e.row === row._rowIndex)]. *)
Definition hasError (errors : list ValidationError) (row : CSVRow) : bool :=
  existsb (λ e, bool_decide (has_index (Some (JNum (Z.of_nat (ve_row e)))) row))
    errors.

Definition validRows (r : Render) : list CSVRow :=
  filter (λ row, hasError (r_validationErrors r) row = false) (r_rawData r).

Definition toCase (row : CSVRow) : CasePayload :=
  {| caseId := row !! "case_id";
     applicantName := row !! "applicant_name";
     dob := row !! "dob";
     email := js_or (row !! "email") None;
     phone := js_or (row !! "phone") None;
     category := row !! "category";
     priority := js_or (row !! "priority") (Some (JStr (u "LOW"))) |}.

(** The result recorded for a row of a batch whose request failed. *)
Definition networkFailure (row : CSVRow) : BatchResult :=
  {| br_success := false; br_caseId := row !! "case_id";
     br_error := Some (u "Network error - please retry"); br_id := None |}.

(** [Math.ceil(n / BATCH_SIZE)]. *)
Definition ceilDiv (n size : nat) : nat := ((n + (size - 1)) / size)%nat.
#[global] Arguments ceilDiv : simpl never.

(** [rows.slice(start, end)] for [start <= end]. *)
Definition slice (start stop : nat) (rows : list CSVRow) : list CSVRow :=
  take (stop - start) (drop start rows).

Definition filenameOrDefault (name : option jsstring) : jsstring :=
  match name with
  | Some n => if bool_decide (n = []) then u "import.csv" else n
  | None => u "import.csv"
  end.

Section Submission.
Variable r : Render.
Variable env : Environment.

(** The local counters of [startSubmission]. *)
Record Counters := { successCount : nat; failedCount : nat }.

(** One turn of the batch loop, after the cancellation test. *)
Definition submitBatch (importRecordId : jsstring) (totalBatches i : nat)
  (c : Counters) (w : World) : Counters * World :=
  let rows := validRows r in
  let start := (i * BATCH_SIZE)%nat in
  let stop := Nat.min (start + BATCH_SIZE) (length rows) in
  let batch := slice start stop rows in
  let cases := fmap toCase batch in
  let w := send (PostBatch importRecordId cases) w in
  (* the request is in flight: the operator may press Cancel *)
  let w := if cancelClicked env i then setIsCancelled true w else w in
  let '(results, c') :=
    match postBatch env i cases with
    | Some results =>
        (results,
         {| successCount :=
              successCount c + length (filter (λ x, br_success x = true) results);
            failedCount :=
              failedCount c + length (filter (λ x, br_success x = false) results) |})
    | None =>
        (fmap networkFailure batch,
         {| successCount := successCount c;
            failedCount := failedCount c + length batch |})
    end in
  let w := onStore (addBatchResults results) w in
  let w := onStore (setProgress (Some
             {| total := length rows; processed := stop;
                success := successCount c'; failed := failedCount c';
                currentBatch := i + 1; totalBatches := totalBatches |})) w in
  (c', w).

(** [for (let i = ...; i < totalBatches; i++) { if (isCancelled) break; ... }]
    over the remaining values of [i]; [isCancelled] is the constant the
    callback closed over. *)
Fixpoint batchLoop (importRecordId : jsstring) (totalBatches : nat)
  (remaining : list nat) (c : Counters) (w : World) : Counters * World :=
  match remaining with
  | [] => (c, w)
  | i :: rest =>
      if r_isCancelled r then (c, w)
      else
        let '(c', w') := submitBatch importRecordId totalBatches i c w in
        batchLoop importRecordId totalBatches rest c' w'
  end.

Definition startSubmission (w : World) : World :=
  let rows := validRows r in
  if bool_decide (length rows = 0%nat) then w
  else
    let w := onStore (setIsSubmitting true) w in
    let w := setIsCancelled false w in
    let name := filenameOrDefault (r_filename r) in
    let w := send (CreateImport name (length rows)) w in
    let w :=
      match createImport env name (length rows) with
      | None => w
      | Some importRecordId =>
          let w := onStore (setImportId importRecordId) w in
          let totalBatches := ceilDiv (length rows) BATCH_SIZE in
          let w := onStore (setProgress (Some
                     {| total := length rows; processed := 0; success := 0;
                        failed := 0; currentBatch := 0;
                        totalBatches := totalBatches |})) w in
          let '(c, w) :=
            batchLoop importRecordId totalBatches (seq 0 totalBatches)
              {| successCount := 0; failedCount := 0 |} w in
          send (PatchImport importRecordId
                  (if r_isCancelled r then FAILED else COMPLETED)
                  (successCount c) (failedCount c)) w
      end in
    onStore (setIsSubmitting false) w.

Definition cancelSubmission (w : World) : World := setIsCancelled true w.

(** The rows [retryFailed] selects. *)
Definition rowsToRetry : list CSVRow :=
  let failedCaseIds :=
    fmap br_caseId (filter (λ x, br_success x = false) (r_batchResults r)) in
  filter (λ row, row !! "case_id" ∈ failedCaseIds) (r_rawData r).

Definition retryFailed (w : World) : World :=
  if bool_decide (length rowsToRetry = 0%nat) then w
  else startSubmission w.

End Submission.

(** A click runs the callback of the current render. *)
Definition clickSubmit (env : Environment) (w : World) : World :=
  startSubmission (render w) env w.

Definition clickRetryFailed (env : Environment) (w : World) : World :=
  retryFailed (render w) env w.

(** The [cases] of the batch requests among the requests sent. *)
Definition postedBatches (requests : list Request) : list (list CasePayload) :=
  omap (λ q, match q with PostBatch _ cases => Some cases | _ => None end)
    requests.

End BatchSubmit.
Export BatchSubmit.

(* ===================================================================== *)
(** ** components/import/BatchSubmit.tsx: the report of failed rows *)
(* ===================================================================== *)

Module ErrorReport.

(** [String(val)] on a cell: [undefined] prints as its name, an integer in
    decimal (the notation JavaScript uses below 10^21), a string as
    itself. *)
Definition toString (v : option jsval) : jsstring :=
  match v with
  | None => u "undefined"
  | Some (JNum z) =>
      if z <? 0 then u "-" ++ decimal (Z.abs_N z) else decimal (Z.abs_N z)
  | Some (JStr s) => s
  end.

(** The double quote, and the [replace] that writes every double quote of
    [s] twice. *)
Definition dquote : N := 34.

Definition escapeQuotes (s : jsstring) : jsstring :=
  c ← s; if (c =? dquote)%N then [dquote; dquote] else [c].

(** One cell of the report: the value between double quotes. *)
Definition quoted (val : option jsval) : jsstring :=
  [dquote] ++ escapeQuotes (toString val) ++ [dquote].

Definition reportHeaders : list jsstring :=
  u <$> ["case_id"; "applicant_name"; "dob"; "email"; "phone"; "category";
         "priority"; "error"].

(** [a || ''] on a cell. *)
Definition or_empty (a : option jsval) : option jsval :=
  js_or a (Some (JStr [])).

(** [result?.error || "Unknown error"], where [result] is the first
    element of [batchResults] with the row's [case_id]. *)
Definition reportedError (batchResults : list BatchResult) (row : CSVRow)
  : jsstring :=
  match list_find (λ x, br_caseId x = row !! "case_id") batchResults with
  | Some (_, result) =>
      match br_error result with
      | Some (c :: message) => c :: message
      | _ => u "Unknown error"
      end
  | None => u "Unknown error"
  end.

(** The eight values of a row of the report, before they are printed. *)
Definition reportValues (batchResults : list BatchResult) (row : CSVRow)
  : list (option jsval) :=
  [row !! "case_id"; row !! "applicant_name"; row !! "dob";
   or_empty (row !! "email"); or_empty (row !! "phone"); row !! "category";
   or_empty (row !! "priority");
   Some (JStr (reportedError batchResults row))].

Definition failedRows (r : Render) : list CSVRow :=
  let failedCaseIds :=
    fmap br_caseId (filter (λ x, br_success x = false) (r_batchResults r)) in
  filter (λ row, row !! "case_id" ∈ failedCaseIds) (r_rawData r).

(** [downloadErrorsCSV()]: the text handed to the browser as the content
    of the file, [None] when the callback returns without a download. *)
Definition downloadErrorsCSV (r : Render) : option jsstring :=
  if bool_decide (length (failedRows r) = 0%nat) then None
  else
    let csvRows :=
      fmap (λ row, join (u ",") (quoted <$> reportValues (r_batchResults r) row))
        (failedRows r) in
    Some (join [10%N] (join (u ",") reportHeaders :: csvRows)).

End ErrorReport.
Export ErrorReport.

(* ===================================================================== *)
(** ** components/import/CSVDropzone.tsx *)
(* ===================================================================== *)

Module Dropzone.

(** A record as the CSV parser delivers it with [header: true]: the cells
    of one line under the names of the header line. *)
Abbreviation ParsedRow := (gmap string jsstring).

Record File := { file_name : jsstring; file_size : N }.

(** How the parse of a file ends: with its header and records, or with an
    error. *)
Inductive ParseOutcome :=
| Complete (fields : list string) (results : list ParsedRow)
| ParseError (message : jsstring).

(** [a || b || ... || ''] on cells; an absent cell is [undefined]. *)
Fixpoint firstNonEmpty (cells : list (option jsstring)) : jsstring :=
  match cells with
  | [] => []
  | Some (c :: s) :: _ => c :: s
  | _ :: rest => firstNonEmpty rest
  end.

(** The object literal of the conversion.  Its last member spreads the
    parsed record, whose own columns therefore replace the members written
    before it. *)
Definition toCSVRow (index : nat) (row : ParsedRow) : CSVRow :=
  (JStr <$> row) ∪
  (<["_rowIndex" := JNum (Z.of_nat index)]>
  (<["case_id" := JStr (firstNonEmpty [row !! "case_id"; row !! "caseId"])]>
  (<["applicant_name" :=
       JStr (firstNonEmpty [row !! "applicant_name"; row !! "applicantName"])]>
  (<["dob" := JStr (firstNonEmpty [row !! "dob"; row !! "dateOfBirth"])]>
  (<["email" := JStr (firstNonEmpty [row !! "email"])]>
  (<["phone" := JStr (firstNonEmpty [row !! "phone"; row !! "phoneNumber"])]>
  (<["category" := JStr (firstNonEmpty [row !! "category"])]>
  (<["priority" := JStr (firstNonEmpty [row !! "priority"])]> ∅)))))))).

(** [parseFile(file)]: the error the component shows, if any, and the
    store afterwards. *)
Definition parseFile (file : File) (parsed : ParseOutcome) (s : ImportState)
  : option jsstring * ImportState :=
  if negb (bool_decide (u ".csv" `suffix_of` file_name file))
  then (Some (u "Please upload a CSV file"), s)
  else if (50 * 1024 * 1024 <? file_size file)%N
  then (Some (u "File size must be less than 50MB"), s)
  else
    match parsed with
    | Complete fields results =>
        (None, setRawData (imap toCSVRow results) fields (file_name file) s)
    | ParseError message => (Some (u "Failed to parse CSV: " ++ message), s)
    end.

End Dropzone.
Export Dropzone.

(* ===================================================================== *)
(** ** components/import/DataGrid.tsx *)
(* ===================================================================== *)

Module Grid.

(** The key of a cell in the error map: the row number, a hyphen and the
    field. *)
Definition cellKey (row : nat) (field : string) : jsstring :=
  decimal (N.of_nat row) ++ u "-" ++ u field.

(** One turn of the [forEach] that fills the map. *)
Definition addError (map : gmap jsstring (list ValidationError))
  (error : ValidationError) : gmap jsstring (list ValidationError) :=
  let key := cellKey (ve_row error) (ve_field error) in
  <[key := default [] (map !! key) ++ [error]]> map.

Definition errorMap (validationErrors : list ValidationError)
  : gmap jsstring (list ValidationError) :=
  foldl addError ∅ validationErrors.

(** [errorMap.get(key) || []]. *)
Definition getCellErrors (validationErrors : list ValidationError)
  (rowIndex : nat) (field : string) : list ValidationError :=
  default [] (errorMap validationErrors !! cellKey rowIndex field).

(** [handleCellChange] of a grid without an [onCellEdit] listener, as the
    import page mounts it. *)
Definition handleCellChange (rowIndex : option jsval) (field : string)
  (value : jsstring) (s : ImportState) : ImportState :=
  updateRow rowIndex field value s.

(** The options the two select cells offer. *)
Definition categoryOptions : list jsstring := [u "TAX"; u "LICENSE"; u "PERMIT"].
Definition priorityOptions : list jsstring := [u "LOW"; u "MEDIUM"; u "HIGH"].

End Grid.
Export Grid.

(* ===================================================================== *)
(** ** components/import/ValidationPanel.tsx *)
(* ===================================================================== *)

Module Panel.

(** [haystack.includes(needle)]. *)
Fixpoint includes (needle haystack : jsstring) : bool :=
  bool_decide (needle `prefix_of` haystack)
  || match haystack with
     | [] => false
     | _ :: rest => includes needle rest
     end.

(** [grouped[key] = (grouped[key] || 0) + 1] on an object used as a table
    of counters, for a key that is not a property every object inherits. *)
Definition count (grouped : gmap string nat) (key : string) : gmap string nat :=
  <[key := (default 0 (grouped !! key) + 1)%nat]> grouped.

Definition errorsByField (validationErrors : list ValidationError)
  : gmap string nat :=
  foldl (λ grouped error, count grouped (ve_field error)) ∅ validationErrors.

Definition errorType (message : jsstring) : string :=
  if includes (u "required") message then "Missing Required"
  else if includes (u "Invalid") message then "Invalid Format"
  else "Validation Error".

Definition errorsByType (validationErrors : list ValidationError)
  : gmap string nat :=
  foldl (λ grouped error, count grouped (errorType (ve_message error))) ∅
    validationErrors.

(** [new Set(validationErrors.map((e) => e.row)).size]. *)
Definition affectedRows (validationErrors : list ValidationError) : nat :=
  size (list_to_set (ve_row <$> validationErrors) : gset nat).

(** [rawData.length - affectedRows]. *)
Definition validRowCount (s : ImportState) : Z :=
  Z.of_nat (length (rawData s)) - Z.of_nat (affectedRows (validationErrors s)).

End Panel.
Export Panel.

(* ===================================================================== *)
(** ** app/(auth)/register/page.tsx and the register schema *)
(* ===================================================================== *)

Module RegisterPage.

Record FormData := {
  fd_name : jsstring;
  fd_email : jsstring;
  fd_password : jsstring;
  fd_confirmPassword : jsstring;
}.

(** The code units [.] does not match. *)
Definition is_line_terminator (c : N) : bool :=
  ((c =? 10) || (c =? 13) || (c =? 8232) || (c =? 8233))%N.

Definition is_lower (c : N) : bool := ((97 <=? c) && (c <=? 122))%N.
Definition is_upper (c : N) : bool := ((65 <=? c) && (c <=? 90))%N.
Definition is_decimal_digit (c : N) : bool := ((48 <=? c) && (c <=? 57))%N.

(** The lookahead [(?=.*[class])] at the start of [s]. *)
Fixpoint ahead (class : N → bool) (s : jsstring) : bool :=
  match s with
  | [] => false
  | c :: rest => class c || negb (is_line_terminator c) && ahead class rest
  end.

(** [(?=.*[a-z])(?=.*[A-Z])(?=.*\d)] at the start of [s]. *)
Definition strong_here (s : jsstring) : bool :=
  ahead is_lower s && ahead is_upper s && ahead is_decimal_digit s.

(** [re.test(s)] for a pattern without anchor: a match at some position. *)
Fixpoint somewhere (matches_here : jsstring → bool) (s : jsstring) : bool :=
  matches_here s
  || match s with
     | [] => false
     | _ :: rest => somewhere matches_here rest
     end.

(** [\S+] at the start of [s]: the lengths it can take are 1 to the length
    of the run of non-blank code units [s] starts with. *)
Definition nonblank_run (s : jsstring) : jsstring :=
  take (default (length s) (fst <$> list_find (λ c, is_ws c = true) s)) s.

(** [\S+@\S+\.\S+] at the start of [s]. *)
Definition email_here (s : jsstring) : bool :=
  existsb (λ n,
      bool_decide (s !! n = Some 64%N)
      && let run := nonblank_run (drop (S n) s) in
         existsb (λ m, bool_decide (run !! m = Some 46%N)
                       && bool_decide (S m < length run)%nat)
           (seq 1 (length run)))
    (seq 1 (length (nonblank_run s))).

(** [validateForm()]: the errors it sets; the form is submitted when there
    is none. *)
Definition validateForm (formData : FormData) : gmap string jsstring :=
  let newErrors : gmap string jsstring := ∅ in
  let newErrors :=
    if bool_decide (trim (fd_name formData) = [])
    then <["name" := u "Name is required"]> newErrors else newErrors in
  let newErrors :=
    if bool_decide (trim (fd_email formData) = [])
    then <["email" := u "Email is required"]> newErrors
    else if negb (somewhere email_here (fd_email formData))
    then <["email" := u "Invalid email format"]> newErrors
    else newErrors in
  let newErrors :=
    if bool_decide (fd_password formData = [])
    then <["password" := u "Password is required"]> newErrors
    else if (length (fd_password formData) <? 8)%nat
    then <["password" := u "Password must be at least 8 characters"]> newErrors
    else if negb (somewhere strong_here (fd_password formData))
    then <["password" :=
             u "Password must contain uppercase, lowercase, and a number"]>
           newErrors
    else newErrors in
  if bool_decide (fd_password formData ≠ fd_confirmPassword formData)
  then <["confirmPassword" := u "Passwords do not match"]> newErrors
  else newErrors.

(** The [password] member of [RegisterSchema]:
    [z.string().min(8, ...).regex(/^(?=.*[a-z])(?=.*[A-Z])(?=.*\d)/, ...)]. *)
Definition password_issues `{Platform} (v : option jsval) : list jsstring :=
  z_string [(min_length 8, u "Password must be at least 8 characters");
            (strong_here,
             u "Password must contain uppercase, lowercase, and number")] v.

End RegisterPage.
Export RegisterPage.

(* ===================================================================== *)
(** ** app/api/cases/batch/route.ts *)
(* ===================================================================== *)

Module BatchRoute.

(** A case as the parse of the request body yields it: the strings of the
    required fields, an e-mail and a phone that may be [null] or absent
    ([None]), the priority with its default filled in. *)
Record ParsedCase := {
  pc_caseId : jsstring;
  pc_applicantName : jsstring;
  pc_dob : jsstring;
  pc_email : option jsstring;
  pc_phone : option jsstring;
  pc_category : jsstring;
  pc_priority : jsstring;
}.

(** The [data] of [prisma.case.create]. *)
Record NewCase := {
  nc_caseId : jsstring;
  nc_applicantName : jsstring;
  nc_dob : option Z;
  nc_email : option jsstring;
  nc_phone : option jsstring;
  nc_category : jsstring;
  nc_priority : jsstring;
  nc_createdById : jsstring;
  nc_importId : option jsstring;
}.

(** The [metadata] of the audit log entry, and the entity it names. *)
Record AuditEntry := {
  ae_entityId : jsstring;
  ae_userId : jsstring;
  ae_total : nat;
  ae_successCount : nat;
  ae_failureCount : nat;
  ae_createdCaseIds : list jsstring;
}.

(** How an awaited call ends: with a value, or with an exception, of which
    the handler reads the message ("Unknown error" when what was thrown
    is not an [Error]). *)
Inductive Outcome (A : Type) :=
| Returned (a : A)
| Threw (message : jsstring).
Arguments Returned {A} a.
Arguments Threw {A} message.

(** The database behind the Prisma client: its states and the calls the
    handler makes, each with its outcome and the state it leaves.
    [case_findUnique] tells whether a record was found; [case_create]
    returns the [id] of the new record. *)
Record Prisma := {
  Db : Type;
  case_findUnique : jsstring → Db → Outcome bool * Db;
  case_create : NewCase → Db → Outcome jsstring * Db;
  caseHistory_create : jsstring → jsstring → Db → Outcome () * Db;
  import_update : jsstring → nat → nat → Db → Outcome () * Db;
  auditLog_create : AuditEntry → Db → Outcome () * Db;
}.

(** How reading and parsing the body ends: [request.json()] throws, the
    batch schema rejects the body, or it yields the cases and the import
    identifier ([None] when absent). *)
Inductive Body :=
| BodyUnreadable
| BodyInvalid
| BodyValid (cases : list ParsedCase) (importId : option jsstring).

Inductive Response :=
| Unauthorized
| ValidationFailed
| InternalServerError
| Batch (results : list BatchResult) (total success failed : nat).

Section Handler.
Context `{Platform}.
Variable P : Prisma.

(** [a || null] on a string that may be absent. *)
Definition or_null (a : option jsstring) : option jsstring :=
  match a with
  | Some (c :: s) => Some (c :: s)
  | _ => None
  end.

Definition asInput (caseData : ParsedCase) : CaseInput :=
  {| in_caseId := Some (JStr (pc_caseId caseData));
     in_applicantName := Some (JStr (pc_applicantName caseData));
     in_dob := Some (JStr (pc_dob caseData));
     in_email := JStr <$> pc_email caseData;
     in_phone := JStr <$> pc_phone caseData;
     in_category := Some (JStr (pc_category caseData));
     in_priority := Some (JStr (pc_priority caseData)) |}.

(** The phone of [caseResult.data]: the schema's transform. *)
Definition transformedPhone (phone : option jsstring) : option jsstring :=
  match phone with
  | Some (c :: s) => normalizePhone (c :: s)
  | _ => None
  end.

Definition newCase (userId : jsstring) (importId : option jsstring)
  (caseData : ParsedCase) : NewCase :=
  {| nc_caseId := pc_caseId caseData;
     nc_applicantName := pc_applicantName caseData;
     nc_dob := dateParse (pc_dob caseData);
     nc_email := or_null (pc_email caseData);
     nc_phone := transformedPhone (pc_phone caseData);
     nc_category := pc_category caseData;
     nc_priority := match pc_priority caseData with
                    | [] => u "LOW"
                    | p => p
                    end;
     nc_createdById := userId;
     nc_importId := or_null importId |}.

Definition failure (caseData : ParsedCase) (error : jsstring) : BatchResult :=
  {| br_success := false; br_caseId := Some (JStr (pc_caseId caseData));
     br_error := Some error; br_id := None |}.

Definition created (caseData : ParsedCase) (id : jsstring) : BatchResult :=
  {| br_success := true; br_caseId := Some (JStr (pc_caseId caseData));
     br_error := None; br_id := Some id |}.

(** The body of the loop for one case: the result it pushes, the
    identifiers it pushes to [createdCaseIds], the database afterwards. *)
Definition processCase (userId : jsstring) (importId : option jsstring)
  (now : Z) (caseData : ParsedCase) (db : Db P)
  : BatchResult * list jsstring * Db P :=
  let issues := CaseSchema_issues now (asInput caseData) in
  if negb (bool_decide (issues = []))
  then (failure caseData (join (u ", ") (snd <$> issues)), [], db)
  else
    match case_findUnique P (pc_caseId caseData) db with
    | (Threw message, db) => (failure caseData message, [], db)
    | (Returned true, db) =>
        (failure caseData
           (u "Case with ID " ++ pc_caseId caseData ++ u " already exists"),
         [], db)
    | (Returned false, db) =>
        match case_create P (newCase userId importId caseData) db with
        | (Threw message, db) => (failure caseData message, [], db)
        | (Returned id, db) =>
            match caseHistory_create P id userId db with
            | (Threw message, db) => (failure caseData message, [], db)
            | (Returned _, db) => (created caseData id, [id], db)
            end
        end
    end.

(** [for (const caseData of cases) { ... }], from the case at position
    [index] on; [clock i] is the reading of [new Date()] while case [i] is
    validated. *)
Fixpoint processCases (userId : jsstring) (importId : option jsstring)
  (clock : nat → Z) (index : nat) (cases : list ParsedCase)
  (results : list BatchResult) (createdCaseIds : list jsstring) (db : Db P)
  : list BatchResult * list jsstring * Db P :=
  match cases with
  | [] => (results, createdCaseIds, db)
  | caseData :: rest =>
      let '(result, ids, db) :=
        processCase userId importId (clock index) caseData db in
      processCases userId importId clock (S index) rest
        (results ++ [result]) (createdCaseIds ++ ids) db
  end.

(** [POST(request)] for a session with the user [session] ([None]: no
    user). *)
Definition POST (session : option jsstring) (body : Body) (clock : nat → Z)
  (db : Db P) : Response * Db P :=
  match session with
  | None => (Unauthorized, db)
  | Some userId =>
      match body with
      | BodyUnreadable => (InternalServerError, db)
      | BodyInvalid => (ValidationFailed, db)
      | BodyValid cases importId =>
          let '(results, createdCaseIds, db) :=
            processCases userId importId clock 0 cases [] [] db in
          let successCount :=
            length (filter (λ x, br_success x = true) results) in
          let failureCount :=
            length (filter (λ x, br_success x = false) results) in
          let '(updated, db) :=
            match or_null importId with
            | Some id => import_update P id successCount failureCount db
            | None => (Returned (), db)
            end in
          match updated with
          | Threw _ => (InternalServerError, db)
          | Returned _ =>
              match auditLog_create P
                      {| ae_entityId := default (u "direct-batch")
                                          (or_null importId);
                         ae_userId := userId; ae_total := length cases;
                         ae_successCount := successCount;
                         ae_failureCount := failureCount;
                         ae_createdCaseIds := createdCaseIds |} db with
              | (Threw _, db) => (InternalServerError, db)
              | (Returned _, db) =>
                  (Batch results (length cases) successCount failureCount, db)
              end
          end
      end
  end.

End Handler.

End BatchRoute.
Export BatchRoute.

(* ===================================================================== *)
(** ** A reference platform for the worked examples *)
(* ===================================================================== *)

(** The examples below are evaluated on an instance of [Platform] that
    agrees with the real libraries on the inputs the examples use: ASCII
    case mapping, ISO calendar dates, zod 3's messages, a plain e-mail
    shape and Indian mobile numbers. *)
Module Reference.

Definition is_digit (c : N) : bool := ((48 <=? c) && (c <=? 57))%N.

Definition ascii_upper (c : N) : N :=
  if ((97 <=? c) && (c <=? 122))%N then (c - 32)%N else c.
Definition ascii_lower (c : N) : N :=
  if ((65 <=? c) && (c <=? 90))%N then (c + 32)%N else c.

(** Decimal digits to a number. *)
Definition number_of (ds : jsstring) : Z :=
  foldl (λ acc d, 10 * acc + (Z.of_N d - 48)) 0 ds.

Definition days_in_month (y m : Z) : Z :=
  if (m =? 2) then
    if ((y mod 4 =? 0) && negb (y mod 100 =? 0) || (y mod 400 =? 0)) then 29 else 28
  else if (m =? 4) || (m =? 6) || (m =? 9) || (m =? 11) then 30 else 31.

(** Days from 1970-01-01 to the civil date [y-m-d]. *)
Definition days_from_civil (y m d : Z) : Z :=
  let y' := if m <=? 2 then y - 1 else y in
  let era := y' / 400 in
  let yoe := y' - era * 400 in
  let doy := (153 * (if 2 <? m then m - 3 else m + 9) + 2) / 5 + d - 1 in
  let doe := yoe * 365 + yoe / 4 - yoe / 100 + doy in
  era * 146097 + doe - 719468.

(** [new Date("YYYY-MM-DD").getTime()]: midnight UTC of that day. *)
Definition iso_date (s : jsstring) : option Z :=
  match s with
  | [y1; y2; y3; y4; 45%N; m1; m2; 45%N; d1; d2] =>
      if forallb is_digit [y1; y2; y3; y4; m1; m2; d1; d2] then
        let y := number_of [y1; y2; y3; y4] in
        let m := number_of [m1; m2] in
        let d := number_of [d1; d2] in
        if (1 <=? m) && (m <=? 12) && (1 <=? d) && (d <=? days_in_month y m)
        then Some (days_from_civil y m d * 86400000)
        else None
      else None
  | _ => None
  end.

(** [local@domain.tld] without white space. *)
Definition plain_email (s : jsstring) : bool :=
  match list_find (λ c, c = 64%N) s with
  | Some (i, _) =>
      let local := take i s in
      let domain := drop (S i) s in
      negb (bool_decide (local = []))
      && forallb (λ c, negb (is_ws c) && negb (c =? 64)%N) (local ++ domain)
      && match list_find (λ c, c = 46%N) (reverse domain) with
         | Some (j, _) => (0 <? j)%nat && (S j <? length domain)%nat
         | None => false
         end
  | None => false
  end.

Definition quoted_values (values : list jsstring) : jsstring :=
  join (u " | ") (fmap (λ v, u "'" ++ v ++ u "'") values).

Definition zod3_invalid_type (v : option jsval) : jsstring :=
  match v with
  | None => u "Required"
  | Some (JNum _) => u "Expected string, received number"
  | Some (JStr _) => u "Expected string, received string"
  end.

Definition zod3_invalid_enum (values : list jsstring) (v : option jsval)
  : jsstring :=
  match v with
  | None => u "Required"
  | Some (JNum _) =>
      u "Expected " ++ quoted_values values ++ u ", received number"
  | Some (JStr s) =>
      u "Invalid enum value. Expected " ++ quoted_values values
      ++ u ", received '" ++ s ++ u "'"
  end.

(** Ten digits, the first of them 6 to 9. *)
Definition indian_mobile (s : jsstring) : bool :=
  bool_decide (length s = 10%nat) && forallb is_digit s
  && match s with c :: _ => (54 <=? c)%N | [] => false end.

(** The national number of [s] read with default country India, and of
    [s] read as an international number. *)
Definition national_IN (s : jsstring) : option jsstring :=
  if indian_mobile s then Some s
  else if bool_decide (take 3 s = u "+91") && indian_mobile (drop 3 s)
       then Some (drop 3 s) else None.

Definition national_intl (s : jsstring) : option jsstring :=
  if bool_decide (take 3 s = u "+91") && indian_mobile (drop 3 s)
  then Some (drop 3 s) else None.

Definition national (s : jsstring) (country : option jsstring)
  : option jsstring :=
  match country with
  | Some _ => national_IN s
  | None => national_intl s
  end.

Definition refPlatform : Platform :=
  {| toUpperCase := fmap ascii_upper;
     toLowerCase := fmap ascii_lower;
     dateParse := iso_date;
     isEmail := plain_email;
     msg_invalid_type := zod3_invalid_type;
     msg_invalid_enum := zod3_invalid_enum;
     msg_invalid_union := u "Invalid input";
     msg_email_rejected := u "Invalid email format";
     PhoneNumber := jsstring;
     isValidPhoneNumber := λ s country, Some (bool_decide (is_Some (national s country)));
     parsePhoneNumber := national;
     formatE164 := λ n, Some (u "+91" ++ n) |}.

(** A row with the seven data fields, as the dropzone builds it. *)
Definition mkRow (case_id applicant_name dob email phone category priority : string)
  : CSVRow :=
  <["case_id" := JStr (u case_id)]>
  (<["applicant_name" := JStr (u applicant_name)]>
  (<["dob" := JStr (u dob)]>
  (<["email" := JStr (u email)]>
  (<["phone" := JStr (u phone)]>
  (<["category" := JStr (u category)]>
  (<["priority" := JStr (u priority)]> ∅)))))).

(** An empty cell. *)
Definition noValue : string := EmptyString.

(** Two rows as loaded from a file, and the store holding them. *)
Definition sampleRows : list CSVRow :=
  [mkRow "C-1" " asha rao" "1990-03-14" noValue noValue "TAX" noValue;
   mkRow "C-2" "Ravi Iyer" "1985-07-02" noValue noValue "PERMIT" noValue].

Definition sampleStore : ImportState :=
  setRawData sampleRows ["case_id"] (u "cases.csv") initialState.

(** A row whose category and priority are both outside their
    enumerations, a row born on 2 November 2026, and three rows of which
    the first and the last share a case identifier. *)
Definition unorderedRow : CSVRow :=
  mkRow "C-1" "Asha Rao" "1990-03-14" noValue noValue "X" "Y".

Definition tomorrowRow : CSVRow :=
  mkRow "C-1" "Asha Rao" "2026-11-02" noValue noValue "TAX" noValue.

Definition duplicatedRows : list CSVRow :=
  [mkRow "C-1" "Asha Rao" "1990-03-14" noValue noValue "TAX" noValue;
   mkRow "C-2" "Ravi Iyer" "1985-07-02" noValue noValue "PERMIT" noValue;
   mkRow "C-1" "Meera Nair" "1979-11-23" noValue noValue "LICENSE" "HIGH"].

(** A clock that reads the same instant at every row: midnight UTC of
    1 November 2026 and of the day after. *)
Definition clock_2026_11_01 : nat → Z := λ _, 1793491200000.
Definition clock_2026_11_02 : nat → Z := λ _, 1793577600000.

(** Error-free rows numbered from 0, the store after loading [n] of them
    and a component that has just rendered it. *)
Definition numberedRow (i : nat) : CSVRow :=
  <["case_id" := JStr (u "C-" ++ decimal (N.of_nat i))]>
    (mkRow noValue "Asha Rao" "1990-03-14" noValue noValue "TAX" noValue).

Definition loadedStore (n : nat) : ImportState :=
  setRawData (numberedRow <$> seq 0 n) ["case_id"] (u "cases.csv") initialState.

Definition idleWorld (n : nat) : World :=
  {| store := loadedStore n; isCancelled := false; sent := [] |}.

(** A server that creates the import record and accepts every case. *)
Definition accepted (c : CasePayload) : BatchResult :=
  {| br_success := true; br_caseId := caseId c; br_error := None;
     br_id := Some (u "case") |}.

Definition rejected (c : CasePayload) : BatchResult :=
  {| br_success := false; br_caseId := caseId c;
     br_error := Some (u "Case already exists"); br_id := None |}.

Definition acceptingServer : Environment :=
  {| createImport := λ _ _, Some (u "imp-1");
     postBatch := λ _ cases, Some (accepted <$> cases);
     cancelClicked := λ _, false |}.

(** The same server with an operator who presses Cancel while the first
    batch is in flight. *)
Definition cancelDuringFirstBatch : Environment :=
  {| createImport := λ _ _, Some (u "imp-1");
     postBatch := λ _ cases, Some (accepted <$> cases);
     cancelClicked := λ i, bool_decide (i = 0%nat) |}.

(** The same server behind a network that drops the second request. *)
Definition secondBatchLost : Environment :=
  {| createImport := λ _ _, Some (u "imp-1");
     postBatch := λ i cases,
       if bool_decide (i = 1%nat) then None else Some (accepted <$> cases);
     cancelClicked := λ _, false |}.

(** Two rows after a first run in which the server created C-0 and
    rejected C-1. *)
Definition afterFirstRun : World :=
  {| store := addBatchResults
                [accepted (toCase (numberedRow 0));
                 rejected (toCase (numberedRow 1))] (loadedStore 2);
     isCancelled := false; sent := [] |}.

(** One row whose name is title-cased already but padded with spaces. *)
Definition paddedStore : ImportState :=
  setRawData [mkRow "C-1" " Asha Rao " "1990-03-14" noValue noValue "TAX" "LOW"]
    ["case_id"] (u "cases.csv") initialState.

Definition edit (i : Z) (f : string) (v : string) : Update :=
  {| rowIndex := Some (JNum i); field := f; value := u v |}.

End Reference.
Export Reference.

(* ===================================================================== *)
(** ** Vocabulary of the properties *)
(* ===================================================================== *)

Module Session.

(** What can happen to the store between two loads of a file. *)
Inductive StoreAction :=
| UpdateRow (rowIndex : option jsval) (field : string) (value : jsstring)
| UpdateMultipleRows (updates : list Update)
| SetValidationErrors (errors : list ValidationError)
| SetImportId (id : jsstring)
| SetProgress (p : option ImportProgress)
| AddBatchResults (results : list BatchResult)
| SetIsSubmitting (b : bool).

Definition perform (s : ImportState) (a : StoreAction) : ImportState :=
  match a with
  | UpdateRow rowIndex field value => updateRow rowIndex field value s
  | UpdateMultipleRows updates => updateMultipleRows updates s
  | SetValidationErrors errors => setValidationErrors errors s
  | SetImportId id => setImportId id s
  | SetProgress p => setProgress p s
  | AddBatchResults results => addBatchResults results s
  | SetIsSubmitting b => setIsSubmitting b s
  end.

(** The fields an action writes. *)
Definition writtenFields (a : StoreAction) : list string :=
  match a with
  | UpdateRow _ field _ => [field]
  | UpdateMultipleRows updates => field <$> updates
  | _ => []
  end.

(** The [_rowIndex] of every row, in grid order. *)
Definition indices (rows : list CSVRow) : list (option jsval) :=
  (λ row, row !! "_rowIndex") <$> rows.

(** The position at which [findIndex] resolves an edit. *)
Definition target (rows : list CSVRow) (e : Update) : option nat :=
  fst <$> list_find (has_index (rowIndex e)) rows.

(** The value of a cell. *)
Definition cell (rows : list CSVRow) (i : nat) (f : string) : option jsval :=
  row ← rows !! i; row !! f.

(** The rows of batch [i] of a run, and what the run records for them:
    the results of the response, or a failure per row when the request
    failed. *)
Definition batchRows (r : Render) (i : nat) : list CSVRow :=
  slice (i * BATCH_SIZE)
    (Nat.min (i * BATCH_SIZE + BATCH_SIZE) (length (validRows r)))
    (validRows r).

Definition batchOutcome (r : Render) (env : Environment) (i : nat)
  : list BatchResult :=
  match postBatch env i (toCase <$> batchRows r i) with
  | Some results => results
  | None => networkFailure <$> batchRows r i
  end.

(** The same environment with an operator who never presses Cancel. *)
Definition withoutCancel (env : Environment) : Environment :=
  {| createImport := createImport env; postBatch := postBatch env;
     cancelClicked := λ _, false |}.

(** The number of rows in each posted batch. *)
Definition batchSizes (requests : list Request) : list nat :=
  length <$> postedBatches requests.

(** The edits of a list applied to one row, in list order, and the edits
    of a list that are addressed to a row. *)
Definition applyEdits (edits : list Update) (row : CSVRow) : CSVRow :=
  foldl (λ r e, assign (field e) (value e) r) row edits.

Definition addressedTo (row : CSVRow) (edits : list Update) : list Update :=
  filter (λ e, has_index (rowIndex e) row) edits.

(** Every edit an operation pushes for a row carries that row's index and
    names a data field. *)
Definition edits_of (row : CSVRow) (edits : list Update) : Prop :=
  Forall (λ e, rowIndex e = row !! "_rowIndex" ∧ field e ≠ "_rowIndex") edits.

(** What the four operations push for one row, in the order of fix-all;
    the last operation is taken on a row it does not throw on. *)
Definition defaultPriority_edits (row : CSVRow) : list Update :=
  default [] (setDefaultPriority_row row).

Definition fixes `{Platform} (row : CSVRow) : list Update :=
  trimWhitespace_row row ++ titleCaseNames_row row
  ++ normalizePhones_row row ++ defaultPriority_edits row.

(** Following the spec's words: "later operations in the sequence observe
    the effects of earlier ones", that is, each operation collects its
    edits from the rows the previous one left in the store. *)
Definition fixAll_as_specified `{Platform} : Action nat :=
  trimmed ← rendered trimWhitespace;
  titled ← rendered titleCaseNames;
  normalized ← rendered normalizePhones;
  defaulted ← rendered setDefaultPriority;
  mret (trimmed + titled + normalized + defaulted)%nat.

(** A priority as the row type declares it: a string, or absent (the
    number 0, being falsy, is harmless too). *)
Definition priority_typed (row : CSVRow) : Prop :=
  match row !! "priority" with
  | Some (JNum z) => z = 0
  | _ => True
  end.

#[global] Instance priority_typed_dec row : Decision (priority_typed row).
Proof.
  unfold priority_typed. destruct (row !! "priority") as [[z|p]|]; apply _.
Defined.

(** The position of the first row whose [case_id] is [c]. *)
Definition firstIndexOf (rows : list CSVRow) (c : jsval) : option nat :=
  fst <$> list_find (λ row, row !! "case_id" = Some c) rows.

Definition duplicateError (index : nat) (c : jsval) (first : nat)
  : ValidationError :=
  {| ve_row := index; ve_field := "case_id"; ve_value := Some c;
     ve_message := duplicate_message first |}.

(** The duplicate errors of the row at position [index], read off the
    whole row set: a row with a non-empty [case_id] that an earlier row
    already carries is reported once, with the position of the first such
    row. *)
Definition duplicateErrorsAt (rows : list CSVRow) (index : nat)
  (row : CSVRow) : list ValidationError :=
  match row !! "case_id" with
  | Some c =>
      if truthy (Some c) then
        match firstIndexOf rows c with
        | Some first =>
            if (first <? index)%nat then [duplicateError index c first] else []
        | None => []
        end
      else []
  | None => []
  end.

(** What the [Map] holds once the rows of [prefix] are checked: for every
    non-empty case identifier, the position of its first row. *)
Definition seen_after (prefix : list CSVRow) (seenIds : gmap jsval nat) : Prop :=
  ∀ c, seenIds !! c = if truthy (Some c) then firstIndexOf prefix c else None.

(** The errors of the rows [rest], which sit at positions [k], [k + 1],
    ... of the row set [all]. *)
Definition errorsFrom `{Platform} (clock : nat → Z) (all : list CSVRow)
  (k : nat) (rest : list CSVRow) : list ValidationError :=
  mjoin (imap (λ i row, duplicateErrorsAt all (k + i) row
                        ++ fieldErrors (clock (k + i)%nat) (k + i) row) rest).

Definition is_duplicate_error (e : ValidationError) : Prop :=
  ve_field e = "case_id" ∧ ∃ first, ve_message e = duplicate_message first.

(** The rank of a field in the declaration order of the row type and of
    the schema. *)
Definition fieldRank (f : string) : nat :=
  default 7%nat
    (fst <$> list_find (λ g, g = f)
       ["case_id"; "applicant_name"; "dob"; "email"; "phone"; "category";
        "priority"]).

(** Row index ascending, then field-declaration order. *)
Definition errorOrder (e1 e2 : ValidationError) : Prop :=
  (ve_row e1 < ve_row e2)%nat
  ∨ (ve_row e1 = ve_row e2
     ∧ (fieldRank (ve_field e1) ≤ fieldRank (ve_field e2))%nat).

Definition fieldOrder (e1 e2 : ValidationError) : Prop :=
  (fieldRank (ve_field e1) ≤ fieldRank (ve_field e2))%nat.

(** The errors of one row. *)
Definition errorsOfRow (i : nat) (errors : list ValidationError)
  : list ValidationError :=
  filter (λ e, ve_row e = i) errors.

End Session.
Export Session.

(* ===================================================================== *)
(** ** Vocabulary of the properties of the toolbar operations *)
(* ===================================================================== *)

Module Effects.

(** The edits an operation pushes for a row when it visits the fields
    [fields] in order and writes [h row f] to the cells it decides to
    change. *)
Definition fieldwise (fields : list string)
  (h : CSVRow → string → option jsstring) (row : CSVRow) : list Update :=
  f ← fields;
  match h row f with
  | Some v => [{| rowIndex := row !! "_rowIndex"; field := f; value := v |}]
  | None => []
  end.

(** What each operation writes to a cell, if it writes. *)
Definition trimmedValue (row : CSVRow) (f : string) : option jsstring :=
  match row !! f with
  | Some (JStr v) => if bool_decide (v ≠ trim v) then Some (trim v) else None
  | _ => None
  end.

Definition titledValue `{Platform} (row : CSVRow) (f : string)
  : option jsstring :=
  match row !! f with
  | Some (JStr name) =>
      if bool_decide (trim name ≠ []) && bool_decide (titleCase name ≠ name)
      then Some (titleCase name) else None
  | _ => None
  end.

Definition normalizedValue `{Platform} (row : CSVRow) (f : string)
  : option jsstring :=
  match row !! f with
  | Some (JStr phone) =>
      match normalizePhone phone with
      | Some normalized =>
          if bool_decide (normalized ≠ []) && bool_decide (normalized ≠ phone)
          then Some normalized else None
      | None => None
      end
  | _ => None
  end.

Definition defaultedValue (row : CSVRow) (f : string) : option jsstring :=
  match priority_blank (row !! f) with
  | Some true => Some (u "LOW")
  | _ => None
  end.

(** The cells [(i, f)], [f] among [fields], whose value differs between
    two row sets. *)
Definition changedCells (fields : list string) (before after : list CSVRow)
  : list (nat * string) :=
  i ← seq 0 (length before);
  f ← fields;
  if decide (cell after i f = cell before i f) then [] else [(i, f)].

(** A row some operation cannot read: its priority is a number other
    than 0. *)
Definition priority_untyped (row : CSVRow) : Prop := ¬ priority_typed row.

End Effects.
Export Effects.

(** Rows in need of every fix, and a row whose priority is a number. *)
Module Samples.

Definition untidyStore : ImportState :=
  setRawData
    [mkRow " C-1 " "asha  rao" "1990-03-14" "a@b.co " "9876543210" "TAX" noValue;
     mkRow "C-2" "Ravi Iyer" "1985-07-02" noValue "12345" "PERMIT" "HIGH"]
    ["case_id"] (u "cases.csv") initialState.

Definition numericPriorityStore : ImportState :=
  setRawData
    [<["priority" := JNum 3]>
       (mkRow " C-1 " "Asha Rao" "1990-03-14" noValue noValue "TAX" noValue)]
    ["case_id"] (u "cases.csv") initialState.

End Samples.
Export Samples.

(** The data fields of a row, and rows whose phone is a string or absent,
    as the row type declares it (the number 0, being falsy, is harmless
    too). *)
Module Fields.

Definition dataFields : list string :=
  ["case_id"; "applicant_name"; "dob"; "email"; "phone"; "category";
   "priority"].

Definition phone_typed (row : CSVRow) : Prop :=
  match row !! "phone" with
  | Some (JNum z) => z = 0
  | _ => True
  end.

#[global] Instance phone_typed_dec row : Decision (phone_typed row).
Proof.
  unfold phone_typed. destruct (row !! "phone") as [[z|p]|]; apply _.
Defined.

(** Two rows that agree on every property but the phone. *)
Definition same_but_phone (row row' : CSVRow) : Prop :=
  ∀ f, f ≠ "phone" → row' !! f = row !! f.

End Fields.
Export Fields.

(** Counters, and a component that has rendered three validated rows. *)
Module Counting.

(** The sum of the counters of a table. *)
Definition totalCount (grouped : gmap string nat) : nat :=
  map_fold (λ _ n acc, (n + acc)%nat) 0%nat grouped.

(** A counter as a table holds it: absent until something is counted. *)
Definition tally (n : nat) : option nat :=
  if decide (n = 0%nat) then None else Some n.

Definition errorTypes : list string :=
  ["Missing Required"; "Invalid Format"; "Validation Error"].

Definition reviewedWorld : World :=
  {| store := @validateData refPlatform clock_2026_11_01
                (setRawData duplicatedRows ["case_id"] (u "cases.csv")
                   initialState);
     isCancelled := false; sent := [] |}.

End Counting.
Export Counting.

(** A grid of one row whose category and priority are outside their
    enumerations. *)
Module Samples2.

Definition unorderedStore : ImportState :=
  setRawData [unorderedRow] ["case_id"] (u "cases.csv") initialState.

End Samples2.
Export Samples2.

(** What the dropzone makes of a parsed record. *)
Module Upload.

(** The column a data field falls back on when the file has no column of
    the field's own name. *)
Definition aliasOf (f : string) : option string :=
  if String.eqb f "case_id" then Some "caseId"
  else if String.eqb f "applicant_name" then Some "applicantName"
  else if String.eqb f "dob" then Some "dateOfBirth"
  else if String.eqb f "phone" then Some "phoneNumber"
  else None.

(** The value of property [k] of row [i] of the grid, read off the parsed
    record: the position for the index; the record's own cell for every
    column of the file; for a data field the file has no column for, the
    cell of its fallback column, or the empty string. *)
Definition cellOf (i : nat) (row : ParsedRow) (k : string) : option jsval :=
  if decide (k = "_rowIndex") then Some (JNum (Z.of_nat i))
  else
    match row !! k with
    | Some v => Some (JStr v)
    | None =>
        if decide (k ∈ dataFields)
        then Some (JStr (default [] (a ← aliasOf k; row !! a)))
        else None
    end.

(** A row whose seven data fields hold strings. *)
Definition is_string (v : option jsval) : Prop :=
  match v with Some (JStr _) => True | _ => False end.

#[global] Instance is_string_dec v : Decision (is_string v).
Proof. destruct v as [[z|s]|]; apply _. Defined.

Definition typed_row (row : CSVRow) : Prop :=
  Forall (λ f, is_string (row !! f)) dataFields.

#[global] Instance typed_row_dec row : Decision (typed_row row).
Proof. unfold typed_row. apply _. Defined.

(** A file of two records under the headers caseId, applicant_name, dob
    and category. *)
Definition parsedRecord (caseId applicant_name dob category : string)
  : ParsedRow :=
  <["caseId" := u caseId]>
  (<["applicant_name" := u applicant_name]>
  (<["dob" := u dob]>
  (<["category" := u category]> ∅))).

Definition sampleFile : File :=
  {| file_name := u "cases.csv"; file_size := 2048 |}.

Definition sampleParse : ParseOutcome :=
  Complete ["caseId"; "applicant_name"; "dob"; "category"]
    [parsedRecord "C-1" " asha rao" "1990-03-14" "TAX";
     parsedRecord "C-2" "Ravi Iyer" "1985-07-02" "PERMIT"].

End Upload.
Export Upload.

(** A reader of comma-separated text in the manner of RFC 4180: fields
    are separated by commas and records by line feeds; a field that opens
    with a double quote runs to the next double quote that is not
    doubled, and may hold commas, line feeds and doubled double quotes,
    each of which stands for one. *)
Module Csv.

Inductive Mode := FieldStart | Unquoted | Quoted | QuoteSeen | Malformed.

(** The reader between two code units: the field being read and the
    fields of the record being read, both in reverse, and the records read
    so far, in reverse. *)
Record Reader := {
  mode : Mode;
  current : jsstring;
  fields : list jsstring;
  records : list (list jsstring);
}.

Definition start : Reader :=
  {| mode := FieldStart; current := []; fields := []; records := [] |}.

Definition inMode (m : Mode) (r : Reader) : Reader :=
  {| mode := m; current := current r; fields := fields r;
     records := records r |}.

Definition push (c : N) (r : Reader) : Reader :=
  {| mode := mode r; current := c :: current r; fields := fields r;
     records := records r |}.

Definition endField (r : Reader) : Reader :=
  {| mode := FieldStart; current := [];
     fields := reverse (current r) :: fields r; records := records r |}.

Definition endRecord (r : Reader) : Reader :=
  {| mode := FieldStart; current := []; fields := [];
     records := reverse (reverse (current r) :: fields r) :: records r |}.

Definition comma : N := 44.
Definition lineFeed : N := 10.

Definition step (r : Reader) (c : N) : Reader :=
  match mode r with
  | FieldStart =>
      if (c =? dquote)%N then inMode Quoted r
      else if (c =? comma)%N then endField r
      else if (c =? lineFeed)%N then endRecord r
      else push c (inMode Unquoted r)
  | Unquoted =>
      if (c =? comma)%N then endField r
      else if (c =? lineFeed)%N then endRecord r
      else if (c =? dquote)%N then inMode Malformed r
      else push c r
  | Quoted =>
      if (c =? dquote)%N then inMode QuoteSeen r else push c r
  | QuoteSeen =>
      if (c =? dquote)%N then push dquote (inMode Quoted r)
      else if (c =? comma)%N then endField r
      else if (c =? lineFeed)%N then endRecord r
      else inMode Malformed r
  | Malformed => r
  end.

(** The records of a text that does not end with a line feed; [None] for
    a text that is not well formed. *)
Definition readCsv (text : jsstring) : option (list (list jsstring)) :=
  let r := foldl step start text in
  match mode r with
  | Quoted | Malformed => None
  | _ => Some (reverse (records (endRecord r)))
  end.

(** The values of a row of the report as printed. *)
Definition reportCells (batchResults : list BatchResult) (row : CSVRow)
  : list jsstring :=
  toString <$> reportValues batchResults row.

End Csv.
Export Csv.

(** A form as the end-to-end test fills it, and a password of two lines:
    the letter a, a line feed, and Ab1xxxx. *)
Module Forms.

Definition sampleForm : FormData :=
  {| fd_name := u "Test User"; fd_email := u "test-1@example.com";
     fd_password := u "TestPassword123";
     fd_confirmPassword := u "TestPassword123" |}.

Definition twoLinePassword : jsstring := u "a" ++ [10%N] ++ u "Ab1xxxx".

Definition twoLineForm : FormData :=
  {| fd_name := u "Test User"; fd_email := u "test-1@example.com";
     fd_password := twoLinePassword;
     fd_confirmPassword := twoLinePassword |}.

End Forms.
Export Forms.

(** A server that cannot be reached. *)
Module Outage.

Definition unreachableServer : Environment :=
  {| createImport := λ _ _, None;
     postBatch := λ _ _, None;
     cancelClicked := λ _, false |}.

End Outage.
Export Outage.

(** A file that is not named as a CSV file. *)
Module Files.

Definition textFile : File := {| file_name := u "cases.txt"; file_size := 2048 |}.

End Files.
Export Files.

(** Words: what [titleCase] does to one word, and a word as [split]
    yields them from a trimmed name: not empty, without white space. *)
Module Words.

Definition capitalize `{Platform} (word : jsstring) : jsstring :=
  toUpperCase (charAt0 word) ++ toLowerCase (slice1 word).

Definition solid (word : jsstring) : Prop :=
  word ≠ [] ∧ Forall (λ c, is_ws c = false) word.

#[global] Instance solid_dec word : Decision (solid word).
Proof. unfold solid. apply _. Defined.

End Words.
Export Words.

(** A database that holds the case identifiers it was given and never
    fails, and a body of two cases with the same identifier. *)
Module Server.

Definition memoryDb : Prisma :=
  {| Db := list jsstring;
     case_findUnique := λ caseId db, (Returned (bool_decide (caseId ∈ db)), db);
     case_create := λ data db,
       (Returned (u "id-" ++ nc_caseId data), nc_caseId data :: db);
     caseHistory_create := λ _ _ db, (Returned (), db);
     import_update := λ _ _ _ db, (Returned (), db);
     auditLog_create := λ _ db, (Returned (), db) |}.

Definition parsedCase (caseId : string) : ParsedCase :=
  {| pc_caseId := u caseId; pc_applicantName := u "Asha Rao";
     pc_dob := u "1990-03-14"; pc_email := None; pc_phone := None;
     pc_category := u "TAX"; pc_priority := u "LOW" |}.

Definition twiceTheSameCase : Body :=
  BodyValid [parsedCase "C-1"; parsedCase "C-1"] (Some (u "imp-1")).

(** A result as the handler builds them: it names a case, and holds an
    identifier when it is a success and an error when it is not. *)
Definition wellFormedResult (x : BatchResult) : Prop :=
  if br_success x then is_Some (br_id x) ∧ br_error x = None
  else is_Some (br_error x) ∧ br_id x = None.

End Server.
Export Server.

(** The rule a row of strings has to satisfy to be free of errors that
    are not about duplicates: the condition on its case identifier, name,
    date of birth, e-mail, category and priority; the phone is under no
    condition. *)
Module Acceptance.
Section Rule.
Context `{Platform}.

Definition acceptable (now : Z)
  (case_id applicant_name dob email category priority : jsstring) : Prop :=
  caseId_regex case_id = true
  ∧ (1 ≤ length applicant_name ≤ 255)%nat
  ∧ dob_in_range now dob = true
  ∧ (email = [] ∨ isEmail email = true)
  ∧ category ∈ CategoryEnum
  ∧ (priority = [] ∨ priority ∈ PriorityEnum).

End Rule.
End Acceptance.
Export Acceptance.

(* ===================================================================== *)
(** ** The store: row indices and frame properties *)
(* ===================================================================== *)

Section StoreFacts.
Implicit Types (d rows : list CSVRow) (row : CSVRow) (e : Update)
  (s : ImportState) (f : string) (v : jsstring).

Lemma assign_lookup_ne f v row k : f ≠ k → assign f v row !! k = row !! k.
Proof. intros. unfold assign. by rewrite lookup_insert_ne. Qed.

Lemma assign_lookup f v row : assign f v row !! f = Some (JStr v).
Proof. unfold assign. by rewrite lookup_insert_eq. Qed.

Lemma setRawData_indices data hs name s :
  indices (rawData (setRawData data hs name s))
  = (λ i, Some (JNum (Z.of_nat i))) <$> seq 0 (length data).
Proof.
  apply list_eq. intros i. unfold indices. simpl.
  rewrite !list_lookup_fmap, list_lookup_imap.
  destruct (data !! i) as [row|] eqn:E; simpl.
  - rewrite lookup_seq_lt by (by eapply lookup_lt_Some).
    simpl. by rewrite lookup_insert_eq.
  - rewrite lookup_seq_ge by (by apply lookup_ge_None). done.
Qed.

Lemma updateRow_lookup rowIndex f v s i :
  rawData (updateRow rowIndex f v s) !! i
  = (λ row, if decide (has_index rowIndex row) then assign f v row else row)
      <$> rawData s !! i.
Proof. simpl. by rewrite list_lookup_fmap. Qed.

Lemma updateRow_absent rowIndex f v s :
  (∀ row, row ∈ rawData s → ¬ has_index rowIndex row) →
  updateRow rowIndex f v s = s.
Proof.
  intros Habs. destruct s as [d ?????????]. unfold updateRow, with_rawData.
  simpl in *. f_equal.
  rewrite <- (list_fmap_id d) at 2. apply list_fmap_ext.
  intros i row Hl. case_decide as Hi; [|done].
  exfalso. eapply Habs; [|exact Hi]. by eapply list_elem_of_lookup_2.
Qed.

Lemma updateRow_indices rowIndex f v s :
  f ≠ "_rowIndex" →
  indices (rawData (updateRow rowIndex f v s)) = indices (rawData s).
Proof.
  intros Hf. unfold indices. simpl. rewrite <- list_fmap_compose.
  apply list_fmap_ext. intros i row _. simpl.
  case_decide; [|done]. by apply assign_lookup_ne.
Qed.

Lemma applyUpdate_absent d e :
  (∀ row, row ∈ d → ¬ has_index (rowIndex e) row) → applyUpdate d e = d.
Proof.
  intros Habs. unfold applyUpdate.
  destruct (list_find _ d) as [[i row]|] eqn:E; [|done].
  apply list_find_Some in E as (Hl & Hi & _).
  exfalso. eapply Habs; [|exact Hi]. by eapply list_elem_of_lookup_2.
Qed.

Lemma applyUpdate_target d e i :
  target d e = Some i →
  ∃ row, d !! i = Some row ∧ has_index (rowIndex e) row
         ∧ applyUpdate d e = <[i := assign (field e) (value e) row]> d.
Proof.
  unfold target, applyUpdate.
  destruct (list_find _ d) as [[j row]|] eqn:E; [|done].
  simpl. intros [= ->]. apply list_find_Some in E as (Hl & Hi & _). eauto.
Qed.

Lemma applyUpdate_no_target d e : target d e = None → applyUpdate d e = d.
Proof.
  unfold target, applyUpdate. by destruct (list_find _ d) as [[j row]|].
Qed.

Lemma applyUpdate_indices d e :
  field e ≠ "_rowIndex" → indices (applyUpdate d e) = indices d.
Proof.
  intros Hf. destruct (target d e) as [i|] eqn:E.
  - apply applyUpdate_target in E as (row & Hl & _ & ->).
    unfold indices. rewrite list_fmap_insert.
    apply list_insert_id. rewrite list_lookup_fmap, Hl. simpl.
    by rewrite assign_lookup_ne.
  - by rewrite applyUpdate_no_target.
Qed.

Lemma applyAll_indices d updates :
  Forall (λ e, field e ≠ "_rowIndex") updates →
  indices (foldl applyUpdate d updates) = indices d.
Proof.
  intros Hall. revert d.
  induction Hall as [|e updates He _ IH]; intros d; [done|].
  simpl. by rewrite IH, applyUpdate_indices.
Qed.

Lemma perform_indices s a :
  "_rowIndex" ∉ writtenFields a →
  indices (rawData (perform s a)) = indices (rawData s).
Proof.
  destruct a; simpl; intros Hw; try done.
  - apply updateRow_indices. set_solver.
  - apply applyAll_indices. apply Forall_forall. intros e He Heq.
    apply Hw. rewrite <- Heq. by apply list_elem_of_fmap_2.
Qed.

Lemma performAll_indices s actions :
  Forall (λ a, "_rowIndex" ∉ writtenFields a) actions →
  indices (rawData (foldl perform s actions)) = indices (rawData s).
Proof.
  intros Hall. revert s.
  induction Hall as [|a actions Ha _ IH]; intros s; [done|].
  simpl. by rewrite IH, perform_indices.
Qed.

(** The cell an edit resolves to holds the edit's value once the edit is
    applied. *)
Lemma applyUpdate_cell d e i :
  target d e = Some i →
  cell (applyUpdate d e) i (field e) = Some (JStr (value e)).
Proof.
  intros E. apply applyUpdate_target in E as (row & Hl & _ & ->).
  unfold cell. rewrite list_lookup_insert_eq by (by eapply lookup_lt_Some).
  simpl. apply assign_lookup.
Qed.

(** An edit leaves every other cell as it was. *)
Lemma applyUpdate_frame d e i f :
  (target d e ≠ Some i ∨ field e ≠ f) →
  cell (applyUpdate d e) i f = cell d i f.
Proof.
  intros Hother. destruct (target d e) as [j|] eqn:E.
  - apply applyUpdate_target in E as (row & Hl & _ & ->). unfold cell.
    destruct (decide (j = i)) as [->|Hne].
    + rewrite list_lookup_insert_eq by (by eapply lookup_lt_Some).
      rewrite Hl. simpl. apply assign_lookup_ne. by destruct Hother.
    + by rewrite list_lookup_insert_ne.
  - by rewrite applyUpdate_no_target.
Qed.

Lemma updateMultipleRows_app us vs s :
  updateMultipleRows (us ++ vs) s
  = updateMultipleRows vs (updateMultipleRows us s).
Proof. destruct s. unfold updateMultipleRows. simpl. by rewrite foldl_app. Qed.

Lemma updateMultipleRows_rawData us s :
  rawData (updateMultipleRows us s) = foldl applyUpdate (rawData s) us.
Proof. done. Qed.

(** With pairwise distinct indices the row [findIndex] finds is the only
    one with that index: one edit of a bulk update is a single-cell
    update. *)
Lemma applyUpdate_as_map d e :
  NoDup (indices d) →
  applyUpdate d e
  = (λ row, if decide (has_index (rowIndex e) row)
            then assign (field e) (value e) row else row) <$> d.
Proof.
  intros Hnd. destruct (target d e) as [i|] eqn:E.
  - apply applyUpdate_target in E as (row & Hl & Hi & ->).
    apply list_eq. intros j. rewrite list_lookup_fmap.
    destruct (decide (i = j)) as [<-|Hne].
    + rewrite list_lookup_insert_eq by (by eapply lookup_lt_Some).
      rewrite Hl. simpl. by rewrite decide_True.
    + rewrite list_lookup_insert_ne by done.
      destruct (d !! j) as [row'|] eqn:Hj; [|done]. simpl.
      case_decide as Hi'; [|done]. exfalso. apply Hne.
      assert (H1 : indices d !! i = Some (rowIndex e)).
      { unfold indices. rewrite list_lookup_fmap, Hl. simpl. by f_equal. }
      assert (H2 : indices d !! j = Some (rowIndex e)).
      { unfold indices. rewrite list_lookup_fmap, Hj. simpl. by f_equal. }
      exact (NoDup_lookup _ _ _ _ Hnd H1 H2).
  - rewrite applyUpdate_no_target by done.
    rewrite <- (list_fmap_id d) at 1. apply list_fmap_ext.
    intros j row Hj. simpl. case_decide as Hi; [|done]. exfalso.
    unfold target in E. destruct (list_find _ d) as [[k r]|] eqn:Ef; [done|].
    rewrite list_find_None, Forall_forall in Ef.
    apply (Ef row); [by eapply list_elem_of_lookup_2|done].
Qed.

Lemma updateMultipleRows_single e s :
  NoDup (indices (rawData s)) →
  updateMultipleRows [e] s = updateRow (rowIndex e) (field e) (value e) s.
Proof.
  intros Hnd. unfold updateMultipleRows, updateRow. simpl.
  by rewrite applyUpdate_as_map.
Qed.

Lemma addressedTo_cons row e edits :
  addressedTo row (e :: edits)
  = if decide (has_index (rowIndex e) row)
    then e :: addressedTo row edits else addressedTo row edits.
Proof. unfold addressedTo. by rewrite filter_cons. Qed.

Lemma addressedTo_assign row f v edits :
  f ≠ "_rowIndex" → addressedTo (assign f v row) edits = addressedTo row edits.
Proof.
  intros Hf. unfold addressedTo. apply list_filter_iff. intros e.
  unfold has_index. by rewrite assign_lookup_ne.
Qed.

(** With pairwise distinct indices, and edits that leave the index alone,
    a bulk update is the row-by-row application of the edits addressed to
    each row. *)
Lemma applyAll_rowwise d updates :
  NoDup (indices d) →
  Forall (λ e, field e ≠ "_rowIndex") updates →
  foldl applyUpdate d updates
  = (λ row, applyEdits (addressedTo row updates) row) <$> d.
Proof.
  intros Hnd Hall. revert d Hnd.
  induction Hall as [|e updates He _ IH]; intros d Hnd.
  - simpl. by rewrite list_fmap_id.
  - simpl. rewrite IH by (by rewrite applyUpdate_indices).
    rewrite applyUpdate_as_map by done. rewrite <- list_fmap_compose.
    apply list_fmap_ext. intros i row _. simpl.
    rewrite addressedTo_cons. case_decide.
    + by rewrite addressedTo_assign.
    + done.
Qed.

End StoreFacts.

(** C9, as stated, fails: the row index is an ordinary property of the row
    object and the two updates write whatever field they are given, so a
    single-cell update that names the field [_rowIndex] replaces the index
    (here the number 0 by the string "7"). *)
Lemma C9_update_of_index_field :
  indices (rawData (updateRow (Some (JNum 0)) "_rowIndex" (u "7") sampleStore))
  ≠ indices (rawData sampleStore).
Proof. vm_compute. discriminate. Qed.

(** C9 (amended): once [setRawData] has installed a row set, every row's
    [_rowIndex] is its 0-based position, the indices are pairwise distinct,
    and they stay so through any sequence of store actions (single-cell
    updates, bulk updates, and the setters that do not touch the rows)
    none of which writes the field [_rowIndex]. *)
Theorem C9_row_index_stable (data : list CSVRow) (hs : list string)
  (name : jsstring) (s0 : ImportState) (actions : list StoreAction) :
  Forall (λ a, "_rowIndex" ∉ writtenFields a) actions →
  indices (rawData (foldl perform (setRawData data hs name s0) actions))
  = (λ i, Some (JNum (Z.of_nat i))) <$> seq 0 (length data)
  ∧ NoDup (indices (rawData (foldl perform (setRawData data hs name s0) actions)))
  ∧ ∀ i row,
      rawData (foldl perform (setRawData data hs name s0) actions) !! i = Some row →
      row !! "_rowIndex" = Some (JNum (Z.of_nat i)).
Proof.
  intros Hall.
  assert (Hidx : indices (rawData (foldl perform (setRawData data hs name s0) actions))
                 = (λ i, Some (JNum (Z.of_nat i))) <$> seq 0 (length data)).
  { rewrite performAll_indices by done. apply setRawData_indices. }
  split; [done|]. split.
  - rewrite Hidx. apply NoDup_fmap_2; [|apply NoDup_seq].
    intros i j [= Hij]. lia.
  - intros i row Hl.
    assert (Hi : indices (rawData (foldl perform (setRawData data hs name s0) actions)) !! i
                 = Some (row !! "_rowIndex")).
    { unfold indices. by rewrite list_lookup_fmap, Hl. }
    rewrite Hidx, list_lookup_fmap in Hi.
    destruct (seq 0 (length data) !! i) as [j|] eqn:Ej; [|done].
    apply lookup_seq in Ej as [-> _]. simpl in Hi. congruence.
Qed.

Lemma C9_row_index_stable_witness :
  indices (rawData (foldl perform
             (setRawData sampleRows ["case_id"] (u "cases.csv") initialState)
             [UpdateRow (Some (JNum 1)) "phone" (u "9876543210");
              UpdateMultipleRows
                [{| rowIndex := Some (JNum 0); field := "applicant_name";
                    value := u "Asha Rao" |}];
              SetIsSubmitting true]))
  = [Some (JNum 0); Some (JNum 1)].
Proof.
  apply (C9_row_index_stable sampleRows ["case_id"] (u "cases.csv") initialState
           [UpdateRow (Some (JNum 1)) "phone" (u "9876543210");
            UpdateMultipleRows
              [{| rowIndex := Some (JNum 0); field := "applicant_name";
                  value := u "Asha Rao" |}];
            SetIsSubmitting true]).
  repeat constructor; simpl; rewrite ?list_elem_of_singleton, ?elem_of_nil;
    discriminate || tauto.
Defined.

(** C10: [updateRow] rewrites the named field of the rows whose index is
    the given one and nothing else: every other row, every other field
    and every other slice of the store is as before, and the store is
    unchanged when no row has that index.  [updateMultipleRows] applies
    its edits in list order: the cell an edit resolves to holds that
    edit's value whatever an earlier edit wrote there, an edit naming an
    index no row has is skipped without effect on the others, and an edit
    leaves every cell but its own as it was. *)
Theorem C10_update_frame :
  (* updateRow: the rows, position by position *)
  (∀ rowIndex f v s i row,
     rawData s !! i = Some row →
     ∃ row', rawData (updateRow rowIndex f v s) !! i = Some row'
             ∧ (¬ has_index rowIndex row → row' = row)
             ∧ (has_index rowIndex row → row' !! f = Some (JStr v))
             ∧ (∀ k, k ≠ f → row' !! k = row !! k))
  (* updateRow: grid size and the other slices of the store *)
  ∧ (∀ rowIndex f v s,
       length (rawData (updateRow rowIndex f v s)) = length (rawData s)
       ∧ with_rawData (rawData s) (updateRow rowIndex f v s) = s)
  (* updateRow: no row with that index *)
  ∧ (∀ rowIndex f v s,
       (∀ row, row ∈ rawData s → ¬ has_index rowIndex row) →
       updateRow rowIndex f v s = s)
  (* updateMultipleRows: list order *)
  ∧ (∀ us vs s,
       updateMultipleRows (us ++ vs) s
       = updateMultipleRows vs (updateMultipleRows us s))
  (* updateMultipleRows: the later of two edits of one cell wins *)
  ∧ (∀ us e1 mid e2 s i,
       field e1 = field e2 →
       target (rawData (updateMultipleRows us s)) e1 = Some i →
       target (rawData (updateMultipleRows (us ++ e1 :: mid) s)) e2 = Some i →
       cell (rawData (updateMultipleRows (us ++ e1 :: mid ++ [e2]) s)) i (field e1)
       = Some (JStr (value e2)))
  (* updateMultipleRows: an absent index is skipped *)
  ∧ (∀ us e vs s,
       (∀ row, row ∈ rawData (updateMultipleRows us s) →
               ¬ has_index (rowIndex e) row) →
       updateMultipleRows (us ++ e :: vs) s = updateMultipleRows (us ++ vs) s)
  (* updateMultipleRows: an edit leaves the other cells alone *)
  ∧ (∀ us e s i f,
       target (rawData (updateMultipleRows us s)) e ≠ Some i ∨ field e ≠ f →
       cell (rawData (updateMultipleRows (us ++ [e]) s)) i f
       = cell (rawData (updateMultipleRows us s)) i f).
Proof.
  repeat split.
  - intros rowIndex f v s i row Hl.
    rewrite updateRow_lookup, Hl. simpl. eexists. split; [done|].
    case_decide as Hi; repeat split; try done.
    + intros _. apply assign_lookup.
    + intros k Hk. by apply assign_lookup_ne.
  - simpl. by rewrite length_fmap.
  - by destruct s.
  - intros. by apply updateRow_absent.
  - intros. apply updateMultipleRows_app.
  - intros us e1 mid e2 s i Hf _ Ht.
    replace (us ++ e1 :: mid ++ [e2]) with ((us ++ e1 :: mid) ++ [e2])
      by (by rewrite <- app_assoc).
    rewrite updateMultipleRows_rawData, foldl_app. simpl.
    rewrite Hf. apply applyUpdate_cell. exact Ht.
  - intros us e vs s Habs.
    rewrite !updateMultipleRows_app.
    generalize dependent (updateMultipleRows us s). intros s' Habs.
    unfold updateMultipleRows. simpl. by rewrite applyUpdate_absent.
  - intros us e s i f Hother.
    rewrite updateMultipleRows_app. simpl. by apply applyUpdate_frame.
Qed.

Lemma C10_update_frame_witness :
  cell (rawData (updateMultipleRows
                   [edit 0 "phone" "111"; edit 1 "phone" "222";
                    edit 0 "phone" "333"] sampleStore)) 0 "phone"
  = Some (JStr (u "333"))
  ∧ updateMultipleRows [edit 7 "phone" "111"; edit 1 "phone" "222"] sampleStore
    = updateMultipleRows [edit 1 "phone" "222"] sampleStore
  ∧ updateRow (Some (JNum 7)) "phone" (u "111") sampleStore = sampleStore.
Proof.
  destruct C10_update_frame as (_ & _ & Habsent & _ & Hlater & Hskip & _).
  split; [|split].
  - apply (Hlater [] (edit 0 "phone" "111") [edit 1 "phone" "222"]
             (edit 0 "phone" "333") sampleStore 0%nat); reflexivity.
  - apply (Hskip [] (edit 7 "phone" "111") [edit 1 "phone" "222"] sampleStore).
    apply Forall_forall. apply (bool_decide_unpack _). vm_compute. exact I.
  - apply (Habsent (Some (JNum 7)) "phone" (u "111") sampleStore).
    apply Forall_forall. apply (bool_decide_unpack _). vm_compute. exact I.
Defined.

(* ===================================================================== *)
(** ** Lists of keyed blocks *)
(* ===================================================================== *)

(** The validator and the submitter both build a list block by block, one
    block per position of an input list; these lemmas read such a list
    back by key. *)
Section Blocks.
Context {A B : Type} (key : B → nat).
Implicit Types (f : nat → A → list B) (l : list A).

Lemma filter_all (P : B → Prop) `{!∀ b, Decision (P b)} (bs : list B) :
  Forall P bs → filter P bs = bs.
Proof.
  induction 1 as [|b bs Hb _ IH]; [done|].
  by rewrite filter_cons_True, IH.
Qed.

Lemma filter_none (P : B → Prop) `{!∀ b, Decision (P b)} (bs : list B) :
  Forall (λ b, ¬ P b) bs → filter P bs = [].
Proof.
  induction 1 as [|b bs Hb _ IH]; [done|].
  by rewrite filter_cons_False, IH.
Qed.

Lemma blocks_elem_of f l b :
  b ∈ mjoin (imap f l) ↔ ∃ i a, l !! i = Some a ∧ b ∈ f i a.
Proof.
  rewrite list_elem_of_join. split.
  - intros (bs & Hb & Hbs). apply elem_of_lookup_imap in Hbs as (i & a & -> & Hl).
    eauto.
  - intros (i & a & Hl & Hb). exists (f i a). split; [done|].
    by apply elem_of_lookup_imap_2.
Qed.

Lemma blocks_filter f l k m :
  (∀ i a, l !! i = Some a → Forall (λ b, key b = (k + i)%nat) (f i a)) →
  filter (λ b, key b = m) (mjoin (imap f l))
  = if decide (k ≤ m)%nat
    then from_option (f (m - k)%nat) [] (l !! (m - k)%nat) else [].
Proof.
  revert f k. induction l as [|a l IH]; intros f k Hkey.
  - simpl. by case_decide.
  - rewrite imap_cons. simpl. rewrite filter_app.
    rewrite (IH (f ∘ S) (S k)).
    2:{ intros i a' Hl. specialize (Hkey (S i) a' Hl). simpl.
        eapply Forall_impl; [exact Hkey|]. simpl. intros; lia. }
    specialize (Hkey 0%nat a eq_refl). rewrite Nat.add_0_r in Hkey.
    destruct (decide (m = k)) as [->|Hne].
    + rewrite filter_all by done.
      rewrite decide_False by lia. rewrite decide_True by lia.
      rewrite Nat.sub_diag. simpl. by rewrite app_nil_r.
    + rewrite filter_none.
      2:{ eapply Forall_impl; [exact Hkey|]. simpl. intros; lia. }
      simpl. destruct (decide (k ≤ m)%nat) as [Hle|Hgt].
      * rewrite decide_True by lia.
        replace (m - k)%nat with (S (m - S k)) by lia. done.
      * by rewrite decide_False by lia.
Qed.

Lemma constant_sorted (c : nat) (ns : list nat) :
  Forall (λ n, n = c) ns → StronglySorted le ns.
Proof.
  induction 1 as [|n ns -> Hns IH]; constructor; [done|].
  eapply Forall_impl; [exact Hns|]. simpl. intros; lia.
Qed.

Lemma blocks_sorted f l k :
  (∀ i a, l !! i = Some a → Forall (λ b, key b = (k + i)%nat) (f i a)) →
  StronglySorted le (key <$> mjoin (imap f l)).
Proof.
  revert f k. induction l as [|a l IH]; intros f k Hkey.
  - constructor.
  - rewrite imap_cons. simpl. rewrite fmap_app.
    apply StronglySorted_app_2.
    + intros n1 n2 Hn1 Hn2.
      apply list_elem_of_fmap in Hn1 as (b1 & -> & Hb1).
      apply list_elem_of_fmap in Hn2 as (b2 & -> & Hb2).
      apply blocks_elem_of in Hb2 as (i & a' & Hl & Hb2).
      pose proof (Hkey 0%nat a eq_refl) as H0.
      pose proof (Hkey (S i) a' Hl) as HS.
      rewrite Forall_forall in H0, HS.
      rewrite (H0 _ Hb1), (HS _ Hb2). lia.
    + apply (constant_sorted (k + 0)). apply Forall_fmap.
      exact (Hkey 0%nat a eq_refl).
    + apply (IH (f ∘ S) (S k)). intros i a' Hl.
      specialize (Hkey (S i) a' Hl). simpl.
      eapply Forall_impl; [exact Hkey|]. simpl. intros; lia.
Qed.

End Blocks.

Section Addressing.
Implicit Types (rows : list CSVRow) (row : CSVRow) (e : Update).

(** Edits collected row by row, each carrying its row's index: the ones
    addressed to a row are the ones collected from it. *)
Lemma addressedTo_elsewhere (g : CSVRow → list Update) rows row :
  (∀ r, Forall (λ e, rowIndex e = r !! "_rowIndex") (g r)) →
  row !! "_rowIndex" ∉ indices rows →
  addressedTo row (rows ≫= g) = [].
Proof.
  intros Hg Hnot. unfold addressedTo. apply filter_none.
  apply Forall_forall. intros e He Hi.
  apply list_elem_of_bind in He as (r & He & Hr).
  specialize (Hg r). rewrite Forall_forall in Hg. specialize (Hg e He).
  apply Hnot. unfold has_index in Hi. rewrite Hi, Hg.
  unfold indices. by apply list_elem_of_fmap_2.
Qed.

Lemma addressedTo_bind (g : CSVRow → list Update) rows i row :
  (∀ r, Forall (λ e, rowIndex e = r !! "_rowIndex") (g r)) →
  NoDup (indices rows) → rows !! i = Some row →
  addressedTo row (rows ≫= g) = g row.
Proof.
  intros Hg. revert i. induction rows as [|r rows IH]; intros i Hnd Hl; [done|].
  unfold indices in Hnd. rewrite fmap_cons in Hnd.
  apply NoDup_cons in Hnd as [Hr Hnd]. csimpl.
  unfold addressedTo. rewrite filter_app. fold (addressedTo row (g r)).
  fold (addressedTo row (rows ≫= g)).
  destruct i as [|i]; simpl in Hl.
  - injection Hl as ->. rewrite (addressedTo_elsewhere g rows row Hg Hr).
    rewrite app_nil_r. unfold addressedTo. apply filter_all.
    specialize (Hg row). eapply Forall_impl; [exact Hg|]. simpl.
    intros e He. unfold has_index. by rewrite He.
  - rewrite (IH i Hnd Hl).
    assert (Hne : r !! "_rowIndex" ≠ row !! "_rowIndex").
    { intros Heq. apply Hr. rewrite Heq. apply list_elem_of_fmap_2.
      by eapply list_elem_of_lookup_2. }
    unfold addressedTo. rewrite filter_none; [done|].
    specialize (Hg r). eapply Forall_impl; [exact Hg|]. simpl.
    intros e He Hi. unfold has_index in Hi. congruence.
Qed.

End Addressing.

(* ===================================================================== *)
(** ** The validator *)
(* ===================================================================== *)

Section ValidatorFacts.
Context `{Platform}.
Implicit Types (rows prefix rest : list CSVRow) (row : CSVRow)
  (seenIds : gmap jsval nat) (errors : list ValidationError).

Lemma validateFrom_acc clock index seenIds errors rows :
  validateFrom clock index seenIds errors rows
  = errors ++ validateFrom clock index seenIds [] rows.
Proof.
  revert index seenIds errors.
  induction rows as [|row rest IH]; intros index seenIds errors; simpl.
  - by rewrite app_nil_r.
  - destruct (duplicateCheck seenIds index row) as [seenIds' dup].
    rewrite (IH _ _ (errors ++ _)), (IH _ _ (dup ++ _)).
    by rewrite <- !app_assoc.
Qed.

Lemma seen_after_nil : seen_after [] ∅.
Proof. intros c. rewrite lookup_empty. by destruct (truthy _). Qed.

Lemma firstIndexOf_app_l prefix rest c first :
  firstIndexOf prefix c = Some first →
  firstIndexOf (prefix ++ rest) c = Some first.
Proof.
  unfold firstIndexOf.
  destruct (list_find _ prefix) as [[i row]|] eqn:E; [|done].
  simpl. intros [= ->]. by rewrite (list_find_app_l _ _ _ _ _ E).
Qed.

Lemma firstIndexOf_lt rows c first :
  firstIndexOf rows c = Some first → (first < length rows)%nat.
Proof.
  unfold firstIndexOf.
  destruct (list_find _ rows) as [[i row]|] eqn:E; [|done].
  simpl. intros [= ->]. apply list_find_Some in E as (Hl & _).
  by eapply lookup_lt_Some.
Qed.

Lemma firstIndexOf_app_here prefix row rest c :
  firstIndexOf prefix c = None → row !! "case_id" = Some c →
  firstIndexOf (prefix ++ row :: rest) c = Some (length prefix).
Proof.
  unfold firstIndexOf. intros Hnone Hrow.
  destruct (list_find _ prefix) as [[i r]|] eqn:E; [done|].
  rewrite (list_find_app_r _ _ _ E). simpl.
  by rewrite decide_True by done.
Qed.

Lemma firstIndexOf_app_other prefix row c :
  row !! "case_id" ≠ Some c →
  firstIndexOf (prefix ++ [row]) c = firstIndexOf prefix c.
Proof.
  unfold firstIndexOf. intros Hrow.
  destruct (list_find _ prefix) as [[i r]|] eqn:E.
  - by rewrite (list_find_app_l _ _ _ _ _ E).
  - rewrite (list_find_app_r _ _ _ E). simpl. by rewrite decide_False.
Qed.

Lemma duplicateCheck_spec prefix row rest seenIds :
  seen_after prefix seenIds →
  duplicateCheck seenIds (length prefix) row
  = (fst (duplicateCheck seenIds (length prefix) row),
     duplicateErrorsAt (prefix ++ row :: rest) (length prefix) row)
  ∧ seen_after (prefix ++ [row])
      (fst (duplicateCheck seenIds (length prefix) row)).
Proof.
  intros Hseen. unfold duplicateCheck, duplicateErrorsAt.
  destruct (row !! "case_id") as [c|] eqn:Hc.
  - destruct (truthy (Some c)) eqn:Ht.
    + pose proof (Hseen c) as Hsc. rewrite Ht in Hsc. rewrite Hsc.
      destruct (firstIndexOf prefix c) as [first|] eqn:Hf; simpl.
      * rewrite (firstIndexOf_app_l _ _ _ _ Hf).
        apply firstIndexOf_lt in Hf as Hlt.
        apply Nat.ltb_lt in Hlt. rewrite Hlt. split; [done|].
        intros c'. rewrite Hseen. destruct (truthy (Some c')); [|done].
        destruct (decide (c' = c)) as [->|Hne].
        -- symmetry. rewrite Hf. by apply firstIndexOf_app_l.
        -- rewrite firstIndexOf_app_other; [done|congruence].
      * rewrite (firstIndexOf_app_here _ _ _ _ Hf Hc).
        rewrite Nat.ltb_irrefl. split; [done|].
        intros c'. destruct (decide (c' = c)) as [->|Hne].
        -- rewrite lookup_insert_eq, Ht.
           symmetry. by apply firstIndexOf_app_here.
        -- rewrite lookup_insert_ne by done. rewrite Hseen.
           destruct (truthy (Some c')); [|done].
           rewrite firstIndexOf_app_other; [done|congruence].
    + simpl. split; [done|]. intros c'. rewrite Hseen.
      destruct (truthy (Some c')) eqn:Ht'; [|done].
      rewrite firstIndexOf_app_other; [done|]. rewrite Hc. intros [= ->].
      congruence.
  - simpl. split; [done|]. intros c'. rewrite Hseen.
    destruct (truthy (Some c')); [|done].
    rewrite firstIndexOf_app_other; [done|congruence].
Qed.

Lemma validateFrom_spec clock prefix rest seenIds :
  seen_after prefix seenIds →
  validateFrom clock (length prefix) seenIds [] rest
  = errorsFrom clock (prefix ++ rest) (length prefix) rest.
Proof.
  revert prefix seenIds.
  induction rest as [|row rest IH]; intros prefix seenIds Hseen; [done|].
  simpl. destruct (duplicateCheck_spec prefix row rest seenIds Hseen) as [Hd Hs].
  rewrite Hd. rewrite validateFrom_acc. simpl.
  specialize (IH (prefix ++ [row]) _ Hs).
  rewrite length_app in IH. simpl in IH.
  replace (length prefix + 1)%nat with (S (length prefix)) in IH by lia.
  rewrite IH. unfold errorsFrom. simpl. rewrite Nat.add_0_r.
  rewrite <- (app_assoc prefix [row] rest). simpl.
  f_equal. f_equal. apply imap_ext. intros i r _. simpl.
  by replace (length prefix + S i)%nat with (S (length prefix) + i)%nat by lia.
Qed.

(** The validator, row by row: the errors are those of each row in grid
    order, and the duplicate errors of a row are the ones the whole row
    set determines. *)
Lemma validationErrorsOf_spec clock rows :
  validationErrorsOf clock rows
  = mjoin (imap (λ i row, duplicateErrorsAt rows i row
                          ++ fieldErrors (clock i) i row) rows).
Proof.
  unfold validationErrorsOf.
  exact (validateFrom_spec clock [] rows ∅ seen_after_nil).
Qed.

Lemma duplicateErrorsAt_row rows i row :
  Forall (λ e, ve_row e = i) (duplicateErrorsAt rows i row).
Proof.
  unfold duplicateErrorsAt.
  repeat (case_match; try by constructor).
Qed.

Lemma fieldErrors_row now i row :
  Forall (λ e, ve_row e = i) (fieldErrors now i row).
Proof.
  unfold fieldErrors, schemaErrors, categoryError, priorityError.
  rewrite !Forall_app. repeat split.
  - apply Forall_fmap. apply Forall_forall. by intros [path message] _.
  - case_match; by repeat constructor.
  - case_match; by repeat constructor.
Qed.

Lemma row_block_keys clock rows i row :
  Forall (λ e, ve_row e = (0 + i)%nat)
    (duplicateErrorsAt rows i row ++ fieldErrors (clock i) i row).
Proof.
  apply Forall_app. split;
    [apply duplicateErrorsAt_row | apply fieldErrors_row].
Qed.

Lemma errorsOfRow_spec clock rows i row :
  rows !! i = Some row →
  errorsOfRow i (validationErrorsOf clock rows)
  = duplicateErrorsAt rows i row ++ fieldErrors (clock i) i row.
Proof.
  intros Hl. unfold errorsOfRow. rewrite validationErrorsOf_spec.
  rewrite (blocks_filter ve_row _ rows 0 i).
  - rewrite decide_True by lia. by rewrite Nat.sub_0_r, Hl.
  - intros j r _. apply row_block_keys.
Qed.

Lemma validationErrorsOf_rows_sorted clock rows :
  StronglySorted le (ve_row <$> validationErrorsOf clock rows).
Proof.
  rewrite validationErrorsOf_spec. apply (blocks_sorted ve_row _ rows 0).
  intros j r _. apply row_block_keys.
Qed.

(** Blocks of errors of one field each, in rank order. *)
Lemma ranked_app (r : nat) (l1 l2 : list ValidationError) :
  Forall (λ e, fieldRank (ve_field e) = r) l1 →
  Forall (λ e, (r ≤ fieldRank (ve_field e))%nat) l2 →
  StronglySorted fieldOrder l2 →
  StronglySorted fieldOrder (l1 ++ l2).
Proof.
  intros H1 H2 Hs. apply StronglySorted_app_2; [|clear H2|done].
  - intros e1 e2 He1 He2. rewrite Forall_forall in H1, H2.
    unfold fieldOrder. rewrite (H1 _ He1). by apply H2.
  - induction H1 as [|e l1 He Hl1 IH]; constructor; [done|].
    eapply Forall_impl; [exact Hl1|]. simpl. intros e' He'.
    unfold fieldOrder. lia.
Qed.

Lemma issue_block_rank (i : nat) (row : CSVRow) (path : string) (messages : list jsstring) :
  Forall (λ e, fieldRank (ve_field e) = fieldRank (mappedField path))
    ((λ '(path, message),
        {| ve_row := i; ve_field := mappedField path;
           ve_value := row !! mappedField path; ve_message := message |})
       <$> (pair path <$> messages)).
Proof.
  rewrite <- list_fmap_compose. apply Forall_fmap. by apply Forall_forall.
Qed.

Lemma Forall_rank_le (r r' : nat) (l : list ValidationError) :
  (r ≤ r')%nat →
  Forall (λ e, fieldRank (ve_field e) = r') l →
  Forall (λ e, (r ≤ fieldRank (ve_field e))%nat) l.
Proof.
  intros Hle Hl. eapply Forall_impl; [exact Hl|]. simpl. intros e ->. done.
Qed.

Lemma duplicateErrorsAt_rank rows i row :
  Forall (λ e, fieldRank (ve_field e) = 0%nat) (duplicateErrorsAt rows i row).
Proof.
  unfold duplicateErrorsAt.
  repeat (case_match; try by constructor).
Qed.

Lemma schema_errors_sorted rows now i row :
  StronglySorted fieldOrder
    (duplicateErrorsAt rows i row ++ schemaErrors now i row).
Proof.
  apply (ranked_app 0); [apply duplicateErrorsAt_rank| |].
  - unfold schemaErrors, CaseSchema_issues. rewrite !fmap_app, !Forall_app.
    repeat split;
      (eapply Forall_rank_le; [|apply issue_block_rank]; vm_compute; lia).
  - unfold schemaErrors, CaseSchema_issues. rewrite !fmap_app.
    repeat (eapply ranked_app;
            [apply issue_block_rank
            |rewrite ?Forall_app; repeat split;
             (eapply Forall_rank_le; [|apply issue_block_rank]; vm_compute; lia)
            |]).
    rewrite <- (app_nil_r (_ <$> _)).
    eapply ranked_app; [apply issue_block_rank|constructor|constructor].
Qed.

Lemma extra_errors_sorted i row :
  StronglySorted fieldOrder (categoryError i row ++ priorityError i row).
Proof.
  unfold categoryError, priorityError.
  repeat case_match; simpl; repeat constructor.
Qed.

Lemma duplicate_message_head first :
  ∃ tl, duplicate_message first = 68%N :: tl.
Proof. unfold duplicate_message. eexists. reflexivity. Qed.

Lemma z_string_messages checks s m :
  m ∈ z_string checks (Some (JStr s)) → ∃ ok, (ok, m) ∈ checks.
Proof.
  unfold z_string. rewrite list_elem_of_omap.
  intros ([ok msg] & Hin & Hm). case_match; simplify_eq. eauto.
Qed.

(** The schema and the two additional checks never produce a duplicate
    error for a row whose case identifier is a string. *)
Lemma fieldErrors_no_duplicate now i row s e :
  row !! "case_id" = Some (JStr s) →
  e ∈ fieldErrors now i row → ¬ is_duplicate_error e.
Proof.
  intros Hc He [Hfield [first Hmsg]].
  destruct (duplicate_message_head first) as [tl Htl]. rewrite Htl in Hmsg.
  unfold fieldErrors, schemaErrors, CaseSchema_issues in He.
  rewrite !fmap_app, !elem_of_app in He.
  repeat match goal with
         | He : _ ∨ _ |- _ => destruct He as [He|He]
         end;
    try (apply list_elem_of_fmap in He as ([path message] & -> & He);
         apply list_elem_of_fmap in He as (m & [= -> ->] & He);
         simpl in Hfield, Hmsg; try discriminate Hfield).
  - rewrite Hc in He. apply z_string_messages in He as [ok He].
    repeat (apply elem_of_cons in He as [He|He];
            [injection He as _ He; rewrite Hmsg in He; vm_compute in He;
             discriminate He|]).
    by apply elem_of_nil in He.
  - unfold categoryError in He. case_match; [|by apply elem_of_nil in He].
    apply list_elem_of_singleton in He as ->. discriminate Hfield.
  - unfold priorityError in He. case_match; [|by apply elem_of_nil in He].
    apply list_elem_of_singleton in He as ->. discriminate Hfield.
Qed.

Lemma firstIndexOf_is_Some rows j row c :
  rows !! j = Some row → row !! "case_id" = Some c →
  ∃ first, firstIndexOf rows c = Some first ∧ (first ≤ j)%nat.
Proof.
  intros Hl Hc. unfold firstIndexOf.
  destruct (list_find (λ row, row !! "case_id" = Some c) rows)
    as [[first r]|] eqn:E.
  - exists first. split; [done|].
    apply list_find_Some in E as (_ & _ & Hmin).
    destruct (decide (first ≤ j)%nat) as [|Hgt]; [done|].
    exfalso. apply (Hmin j row Hl); [lia|done].
  - exfalso. rewrite list_find_None, Forall_forall in E.
    apply (E row); [by eapply list_elem_of_lookup_2|done].
Qed.

End ValidatorFacts.

(** C6, as stated, fails twice over.  Order: a row whose category and
    priority are both invalid gets the schema's category and priority
    errors and then the two additional errors, so that within the row a
    category error follows a priority error.  Purity: the date-of-birth
    range check compares with the current instant, so the same rows checked
    before and after midnight give different error lists. *)
Lemma C6_field_order_and_clock :
  ¬ Sorted errorOrder
      (@validationErrorsOf refPlatform clock_2026_11_01 [unorderedRow])
  ∧ @validationErrorsOf refPlatform clock_2026_11_01 [tomorrowRow]
    ≠ @validationErrorsOf refPlatform clock_2026_11_02 [tomorrowRow].
Proof.
  split.
  - intros Hs. apply (bool_decide_pack _) in Hs. vm_compute in Hs. exact Hs.
  - vm_compute. discriminate.
Qed.

Section ValidatorClaims.
Context `{Platform}.

(** C6 (amended): with the same clock readings the validator is a function
    of the rows alone and storing its result twice is storing it once; the
    rows are left as they are.  The error list is ordered by row index
    ascending; the errors of one row are its duplicate error and its schema
    errors in field-declaration order, followed by the additional category
    error and the additional priority error. *)
Theorem C6_validator_function_and_order (clock : nat → Z) :
  (∀ s, validateData clock (validateData clock s) = validateData clock s
        ∧ rawData (validateData clock s) = rawData s)
  ∧ (∀ s1 s2, rawData s1 = rawData s2 →
              validationErrors (validateData clock s1)
              = validationErrors (validateData clock s2))
  ∧ (∀ rows, StronglySorted le (ve_row <$> validationErrorsOf clock rows))
  ∧ (∀ rows i row,
       rows !! i = Some row →
       errorsOfRow i (validationErrorsOf clock rows)
       = (duplicateErrorsAt rows i row ++ schemaErrors (clock i) i row)
         ++ (categoryError i row ++ priorityError i row)
       ∧ StronglySorted fieldOrder
           (duplicateErrorsAt rows i row ++ schemaErrors (clock i) i row)
       ∧ StronglySorted fieldOrder (categoryError i row ++ priorityError i row)).
Proof.
  split; [|split; [|split]].
  - intros s. by destruct s.
  - intros s1 s2 Hr. simpl. by rewrite Hr.
  - intros rows. apply validationErrorsOf_rows_sorted.
  - intros rows i row Hl. split; [|split].
    + rewrite (errorsOfRow_spec _ _ _ _ Hl). unfold fieldErrors.
      by rewrite <- !app_assoc.
    + apply schema_errors_sorted.
    + apply extra_errors_sorted.
Qed.

(** C7: take any row [j] whose [case_id] is a non-empty string and let
    [first] be the position of the first row with that identifier.  If
    [first < j], the error list holds for row [j] a duplicate error on
    [case_id] whose message names row [first + 1], and no other duplicate
    error; if [first = j], row [j] has no duplicate error at all. *)
Theorem C7_duplicate_case_id (clock : nat → Z) (rows : list CSVRow)
  (j : nat) (row : CSVRow) (s : jsstring) :
  s ≠ [] →
  rows !! j = Some row →
  row !! "case_id" = Some (JStr s) →
  ∃ first,
    firstIndexOf rows (JStr s) = Some first ∧ (first ≤ j)%nat
    ∧ ((first < j)%nat →
       {| ve_row := j; ve_field := "case_id"; ve_value := Some (JStr s);
          ve_message := u "Duplicate case ID (first seen at row "
                        ++ decimal (N.of_nat (first + 1)) ++ u ")" |}
         ∈ validationErrorsOf clock rows
       ∧ ∀ e, e ∈ validationErrorsOf clock rows → ve_row e = j →
              is_duplicate_error e → e = duplicateError j (JStr s) first)
    ∧ (first = j →
       ∀ e, e ∈ validationErrorsOf clock rows → ve_row e = j →
            ¬ is_duplicate_error e).
Proof.
  intros Hs Hl Hc.
  destruct (firstIndexOf_is_Some rows j row (JStr s) Hl Hc) as (first & Hf & Hle).
  exists first. split; [done|]. split; [done|].
  assert (Hrow : ∀ e, e ∈ validationErrorsOf clock rows → ve_row e = j →
                      e ∈ duplicateErrorsAt rows j row
                          ++ fieldErrors (clock j) j row).
  { intros e He Hj. rewrite <- (errorsOfRow_spec clock rows j row Hl).
    unfold errorsOfRow. by apply list_elem_of_filter. }
  assert (Ht : truthy (Some (JStr s)) = true).
  { simpl. by rewrite bool_decide_false. }
  assert (Hdup : duplicateErrorsAt rows j row
                 = if (first <? j)%nat then [duplicateError j (JStr s) first]
                   else []).
  { unfold duplicateErrorsAt. by rewrite Hc, Ht, Hf. }
  split.
  - intros Hlt. apply Nat.ltb_lt in Hlt as Hb. rewrite Hb in Hdup. split.
    + assert (Hin : duplicateError j (JStr s) first
                    ∈ errorsOfRow j (validationErrorsOf clock rows)).
      { rewrite (errorsOfRow_spec clock rows j row Hl), Hdup.
        apply elem_of_app. left. apply list_elem_of_singleton. done. }
      unfold errorsOfRow in Hin. by apply list_elem_of_filter in Hin as [_ Hin].
    + intros e He Hj Hd. specialize (Hrow e He Hj).
      rewrite Hdup in Hrow. apply elem_of_app in Hrow as [Hrow|Hrow].
      * by apply list_elem_of_singleton in Hrow.
      * exfalso. by eapply fieldErrors_no_duplicate.
  - intros -> e He Hj Hd. specialize (Hrow e He Hj).
    rewrite Nat.ltb_irrefl in Hdup. rewrite Hdup in Hrow. simpl in Hrow.
    by eapply fieldErrors_no_duplicate.
Qed.

End ValidatorClaims.

Lemma C6_validator_function_and_order_witness :
  validationErrors
    (@validateData refPlatform clock_2026_11_01
       (setValidationErrors [] sampleStore))
  = validationErrors (@validateData refPlatform clock_2026_11_01 sampleStore)
  ∧ ve_field <$> errorsOfRow 0
      (@validationErrorsOf refPlatform clock_2026_11_01 [unorderedRow])
    = ["category"; "priority"; "category"; "priority"].
Proof.
  destruct (@C6_validator_function_and_order refPlatform clock_2026_11_01)
    as (_ & Hfun & _ & Hrow).
  split.
  - apply (Hfun (setValidationErrors [] sampleStore) sampleStore). reflexivity.
  - destruct (Hrow [unorderedRow] 0%nat unorderedRow) as (-> & _); reflexivity.
Defined.

Lemma C7_duplicate_case_id_witness :
  {| ve_row := 2; ve_field := "case_id"; ve_value := Some (JStr (u "C-1"));
     ve_message := u "Duplicate case ID (first seen at row 1)" |}
  ∈ @validationErrorsOf refPlatform clock_2026_11_01 duplicatedRows.
Proof.
  destruct (@C7_duplicate_case_id refPlatform clock_2026_11_01 duplicatedRows
              2%nat
              (mkRow "C-1" "Meera Nair" "1979-11-23" noValue noValue "LICENSE" "HIGH")
              (u "C-1"))
    as (first & Hfirst & _ & Hlater & _);
    [discriminate | reflexivity | reflexivity |].
  vm_compute in Hfirst. injection Hfirst as <-.
  apply Hlater. lia.
Defined.

(* ===================================================================== *)
(** ** The batch submitter *)
(* ===================================================================== *)

Section Chunks.
Context {A : Type}.
Implicit Types (l : list A) (size n m : nat).

Lemma take_add_drop l n m : take (n + m) l = take n l ++ take m (drop n l).
Proof.
  revert l. induction n as [|n IH]; intros [|x l]; simpl; try done.
  - by rewrite take_nil.
  - by rewrite IH.
Qed.

Lemma take_min_length l n : take (Nat.min n (length l)) l = take n l.
Proof.
  destruct (decide (n ≤ length l)%nat).
  - by rewrite Nat.min_l.
  - rewrite Nat.min_r by lia. rewrite !take_ge by lia. done.
Qed.

(** A chunk as the loop cuts it is [size] elements (or what is left) from
    position [i * size]. *)
Lemma chunk_take_drop l size i :
  take (Nat.min (i * size + size) (length l) - i * size) (drop (i * size) l)
  = take size (drop (i * size) l).
Proof.
  rewrite <- (take_min_length (drop (i * size) l) size).
  f_equal. rewrite length_drop. lia.
Qed.

Lemma chunks_join l size m :
  mjoin ((λ i, take size (drop (i * size) l)) <$> seq 0 m) = take (m * size) l.
Proof.
  induction m as [|m IH].
  - by rewrite take_0.
  - rewrite seq_S, fmap_app, join_app, IH. simpl. rewrite app_nil_r.
    replace (size + m * size)%nat with (m * size + size)%nat by lia.
    by rewrite take_add_drop.
Qed.

(** [ceilDiv n size] is the ceiling of [n / size]. *)
Lemma ceilDiv_spec n size :
  (0 < size)%nat →
  (n ≤ ceilDiv n size * size)%nat
  ∧ ((0 < n)%nat → (0 < ceilDiv n size ∧ (ceilDiv n size - 1) * size < n)%nat).
Proof.
  intros Hs. unfold ceilDiv.
  pose proof (Nat.div_mod (n + (size - 1)) size ltac:(lia)) as Hdm.
  pose proof (Nat.mod_upper_bound (n + (size - 1)) size ltac:(lia)) as Hmod.
  split; [nia|]. intros Hn.
  assert (0 < (n + (size - 1)) / size)%nat by (apply Nat.div_str_pos; lia).
  split; [done|]. nia.
Qed.

Lemma ceilDiv_zero size : ceilDiv 0 size = 0%nat.
Proof.
  unfold ceilDiv. destruct size as [|size]; [done|].
  apply Nat.div_small. lia.
Qed.

End Chunks.

Section SubmitterFacts.
Variables (r : Render) (env : Environment).
Implicit Types (w : World) (c : Counters) (id : jsstring) (i tb : nat).

Lemma batchRows_take i :
  batchRows r i = take BATCH_SIZE (drop (i * BATCH_SIZE) (validRows r)).
Proof. unfold batchRows, slice. apply chunk_take_drop. Qed.

(** One turn of the loop, slice by slice of the world. *)
Lemma submitBatch_effect id tb i c w :
  sent (submitBatch r env id tb i c w).2
  = sent w ++ [PostBatch id (toCase <$> batchRows r i)]
  ∧ batchResults (store (submitBatch r env id tb i c w).2)
    = batchResults (store w) ++ batchOutcome r env i
  ∧ progress (store (submitBatch r env id tb i c w).2)
    = Some {| total := length (validRows r);
              processed := Nat.min (i * BATCH_SIZE + BATCH_SIZE)
                             (length (validRows r));
              success := successCount (submitBatch r env id tb i c w).1;
              failed := failedCount (submitBatch r env id tb i c w).1;
              currentBatch := i + 1; totalBatches := tb |}
  ∧ isCancelled (submitBatch r env id tb i c w).2
    = isCancelled w || cancelClicked env i
  ∧ rawData (store (submitBatch r env id tb i c w).2) = rawData (store w).
Proof.
  unfold submitBatch, batchOutcome, batchRows.
  destruct (postBatch env i _), (cancelClicked env i); simpl;
    rewrite ?orb_true_r, ?orb_false_r; done.
Qed.

Lemma batchLoop_app id tb ixs1 ixs2 c w :
  batchLoop r env id tb (ixs1 ++ ixs2) c w
  = batchLoop r env id tb ixs2 (batchLoop r env id tb ixs1 c w).1
      (batchLoop r env id tb ixs1 c w).2.
Proof.
  revert c w. induction ixs1 as [|i ixs1 IH]; intros c w; simpl.
  - done.
  - destruct (r_isCancelled r) eqn:Hc.
    + simpl. destruct ixs2; simpl; by rewrite ?Hc.
    + destruct (submitBatch r env id tb i c w) as [c' w']. apply IH.
Qed.

Lemma batchLoop_snoc id tb ixs i c w :
  r_isCancelled r = false →
  batchLoop r env id tb (ixs ++ [i]) c w
  = submitBatch r env id tb i (batchLoop r env id tb ixs c w).1
      (batchLoop r env id tb ixs c w).2.
Proof.
  intros Hc. rewrite batchLoop_app. simpl. rewrite Hc.
  by destruct (submitBatch _ _ _ _ _ _ _).
Qed.

(** The loop, when the callback closed over [isCancelled = false]: every
    index is visited, whatever the responses. *)
Lemma batchLoop_effect id tb ixs c w :
  r_isCancelled r = false →
  sent (batchLoop r env id tb ixs c w).2
  = sent w ++ ((λ i, PostBatch id (toCase <$> batchRows r i)) <$> ixs)
  ∧ batchResults (store (batchLoop r env id tb ixs c w).2)
    = batchResults (store w) ++ mjoin (batchOutcome r env <$> ixs)
  ∧ rawData (store (batchLoop r env id tb ixs c w).2) = rawData (store w).
Proof.
  intros Hc. induction ixs as [|i ixs IH] using rev_ind.
  - simpl. by rewrite !app_nil_r.
  - rewrite (batchLoop_snoc _ _ _ _ _ _ Hc).
    destruct (submitBatch_effect id tb i (batchLoop r env id tb ixs c w).1
                (batchLoop r env id tb ixs c w).2) as (-> & -> & _ & _ & ->).
    destruct IH as (-> & -> & ->).
    rewrite !fmap_app, join_app. simpl. by rewrite !app_nil_r, <- !app_assoc.
Qed.

Lemma batchLoop_progress id tb ixs i c w :
  r_isCancelled r = false →
  ∃ p, progress (store (batchLoop r env id tb (ixs ++ [i]) c w).2) = Some p
       ∧ total p = length (validRows r)
       ∧ processed p = Nat.min (i * BATCH_SIZE + BATCH_SIZE) (length (validRows r))
       ∧ currentBatch p = (i + 1)%nat ∧ totalBatches p = tb.
Proof.
  intros Hc. rewrite (batchLoop_snoc _ _ _ _ _ _ Hc).
  destruct (submitBatch_effect id tb i (batchLoop r env id tb ixs c w).1
              (batchLoop r env id tb ixs c w).2) as (_ & _ & -> & _).
  eexists. split; [done|]. done.
Qed.

(** The posted batches among the requests. *)
Lemma postedBatches_app q1 q2 :
  postedBatches (q1 ++ q2) = postedBatches q1 ++ postedBatches q2.
Proof. unfold postedBatches. apply omap_app. Qed.

Lemma postedBatches_posts {X} id (cases : X → list CasePayload) (xs : list X) :
  postedBatches ((λ x, PostBatch id (cases x)) <$> xs) = cases <$> xs.
Proof.
  unfold postedBatches. induction xs as [|x xs IH]; [done|].
  csimpl. by rewrite IH.
Qed.

(** A whole run that was not cancelled when its callback was created and
    whose import record was created. *)
Lemma startSubmission_run w id :
  r_isCancelled r = false →
  (0 < length (validRows r))%nat →
  createImport env (filenameOrDefault (r_filename r)) (length (validRows r))
  = Some id →
  (∃ sc fc,
     sent (startSubmission r env w)
     = sent w
       ++ [CreateImport (filenameOrDefault (r_filename r)) (length (validRows r))]
       ++ ((λ i, PostBatch id (toCase <$> batchRows r i))
             <$> seq 0 (ceilDiv (length (validRows r)) BATCH_SIZE))
       ++ [PatchImport id COMPLETED sc fc])
  ∧ batchResults (store (startSubmission r env w))
    = batchResults (store w)
      ++ mjoin (batchOutcome r env
                  <$> seq 0 (ceilDiv (length (validRows r)) BATCH_SIZE))
  ∧ ∃ p, progress (store (startSubmission r env w)) = Some p
         ∧ total p = length (validRows r)
         ∧ processed p = length (validRows r)
         ∧ currentBatch p = ceilDiv (length (validRows r)) BATCH_SIZE
         ∧ totalBatches p = ceilDiv (length (validRows r)) BATCH_SIZE.
Proof.
  intros Hc Hn Hcreate.
  destruct (ceilDiv_spec (length (validRows r)) BATCH_SIZE ltac:(unfold BATCH_SIZE; lia))
    as [Hup [Hpos Hlow]]; [done|].
  unfold startSubmission. rewrite bool_decide_false by lia.
  rewrite Hcreate, Hc.
  match goal with
  | |- context [batchLoop r env id ?tb ?ixs ?c0 ?w0] =>
      pose proof (batchLoop_effect id tb ixs c0 w0 Hc) as (Hs & Hb & _);
      assert (Hp : ∃ p, progress (store (batchLoop r env id tb ixs c0 w0).2) = Some p
                        ∧ total p = length (validRows r)
                        ∧ processed p = length (validRows r)
                        ∧ currentBatch p = tb ∧ totalBatches p = tb);
      [|destruct (batchLoop r env id tb ixs c0 w0) as [c' w'] eqn:E]
  end.
  { assert (Hseq : seq 0 (ceilDiv (length (validRows r)) BATCH_SIZE)
                   = seq 0 (ceilDiv (length (validRows r)) BATCH_SIZE - 1)
                     ++ [(ceilDiv (length (validRows r)) BATCH_SIZE - 1)%nat]).
    { pose proof (seq_S (ceilDiv (length (validRows r)) BATCH_SIZE - 1) 0) as HS.
      rewrite Nat.add_0_l in HS. rewrite <- HS. f_equal. lia. }
    rewrite Hseq.
    edestruct (batchLoop_progress id) as (p & -> & Ht & Hpr & Hcb & Htb);
      [exact Hc|].
    exists p. split; [done|]. rewrite Ht, Hpr, Hcb, Htb.
    repeat split; unfold BATCH_SIZE in *; lia. }
  simpl in *. split; [|split].
  - exists (successCount c'), (failedCount c').
    rewrite Hs. simpl. by rewrite <- !app_assoc.
  - by rewrite Hb.
  - exact Hp.
Qed.

(** What a run sends and stores does not depend on the operator pressing
    Cancel while it runs. *)
Lemma submitBatch_ignores_cancel id tb i c w1 w2 :
  store w1 = store w2 → sent w1 = sent w2 →
  (submitBatch r env id tb i c w1).1
  = (submitBatch r (withoutCancel env) id tb i c w2).1
  ∧ store (submitBatch r env id tb i c w1).2
    = store (submitBatch r (withoutCancel env) id tb i c w2).2
  ∧ sent (submitBatch r env id tb i c w1).2
    = sent (submitBatch r (withoutCancel env) id tb i c w2).2.
Proof.
  intros Hst Hse. unfold submitBatch. simpl.
  destruct (postBatch env i _), (cancelClicked env i); simpl;
    by rewrite Hst, Hse.
Qed.

Lemma batchLoop_ignores_cancel id tb ixs c w1 w2 :
  store w1 = store w2 → sent w1 = sent w2 →
  (batchLoop r env id tb ixs c w1).1
  = (batchLoop r (withoutCancel env) id tb ixs c w2).1
  ∧ store (batchLoop r env id tb ixs c w1).2
    = store (batchLoop r (withoutCancel env) id tb ixs c w2).2
  ∧ sent (batchLoop r env id tb ixs c w1).2
    = sent (batchLoop r (withoutCancel env) id tb ixs c w2).2.
Proof.
  revert c w1 w2. induction ixs as [|i ixs IH]; intros c w1 w2 Hst Hse; simpl.
  - done.
  - destruct (r_isCancelled r); [done|].
    destruct (submitBatch_ignores_cancel id tb i c w1 w2 Hst Hse)
      as (Hc & Hst' & Hse').
    destruct (submitBatch r env id tb i c w1) as [c1 w1'].
    destruct (submitBatch r (withoutCancel env) id tb i c w2) as [c2 w2'].
    simpl in *. subst c2. by apply IH.
Qed.

Lemma startSubmission_ignores_cancel w :
  store (startSubmission r env w) = store (startSubmission r (withoutCancel env) w)
  ∧ sent (startSubmission r env w) = sent (startSubmission r (withoutCancel env) w).
Proof.
  unfold startSubmission. case_bool_decide; [done|]. simpl.
  destruct (createImport env _ _) as [id|]; [|done].
  match goal with
  | |- context [batchLoop r env id ?tb ?ixs ?c0 ?w0] =>
      destruct (batchLoop_ignores_cancel id tb ixs c0 w0 w0 eq_refl eq_refl)
        as (Hc & Hst & Hse);
      destruct (batchLoop r env id tb ixs c0 w0) as [c1 w1];
      destruct (batchLoop r (withoutCancel env) id tb ixs c0 w0) as [c2 w2]
  end.
  simpl in *. subst c2. by rewrite Hst, Hse.
Qed.

End SubmitterFacts.

Section Partition.
Variable r : Render.

(** The batches cover the error-free rows once, in grid order. *)
Lemma batches_join :
  mjoin (batchRows r <$> seq 0 (ceilDiv (length (validRows r)) BATCH_SIZE))
  = validRows r.
Proof.
  rewrite (list_fmap_ext (batchRows r)
             (λ i, take BATCH_SIZE (drop (i * BATCH_SIZE) (validRows r))))
    by (intros; apply batchRows_take).
  rewrite chunks_join. apply take_ge.
  apply (ceilDiv_spec _ BATCH_SIZE). unfold BATCH_SIZE. lia.
Qed.

(** Every batch but the last holds 100 rows, the last the remainder. *)
Lemma batch_length k :
  (k < ceilDiv (length (validRows r)) BATCH_SIZE)%nat →
  length (batchRows r k)
  = if decide (S k < ceilDiv (length (validRows r)) BATCH_SIZE)%nat
    then 100%nat else (length (validRows r) - 100 * k)%nat.
Proof.
  intros Hk. rewrite batchRows_take, length_take, length_drop.
  destruct (decide (length (validRows r) = 0%nat)) as [Hz|Hnz].
  { rewrite Hz, ceilDiv_zero in Hk. lia. }
  destruct (ceilDiv_spec (length (validRows r)) BATCH_SIZE
              ltac:(unfold BATCH_SIZE; lia)) as [Hup Hlow].
  destruct Hlow as [_ Hlow]; [lia|].
  unfold BATCH_SIZE in *. case_decide; nia.
Qed.

End Partition.

(** Rows that carry their positions as indices keep increasing indices
    when some of them are filtered out. *)
Lemma filter_positions (P : CSVRow → Prop) `{!∀ row, Decision (P row)}
  (rows : list CSVRow) (k : nat) :
  indices rows = (λ i, Some (JNum (Z.of_nat i))) <$> seq k (length rows) →
  ∃ positions,
    StronglySorted lt positions ∧ Forall (λ p, (k ≤ p)%nat) positions
    ∧ indices (filter P rows) = (λ i, Some (JNum (Z.of_nat i))) <$> positions.
Proof.
  revert k. induction rows as [|row rows IH]; intros k Hidx.
  - exists []. repeat constructor.
  - simpl in Hidx. injection Hidx as Hrow Hrest.
    destruct (IH (S k) Hrest) as (ps & Hsorted & Hge & Hps).
    destruct (decide (P row)) as [HP|HP].
    + exists (k :: ps). rewrite filter_cons_True by done. repeat split.
      * constructor; [done|]. eapply Forall_impl; [exact Hge|]. simpl. lia.
      * constructor; [lia|]. eapply Forall_impl; [exact Hge|]. simpl. lia.
      * change (indices (row :: filter P rows))
          with (row !! "_rowIndex" :: indices (filter P rows)).
        rewrite Hps. csimpl. by f_equal.
    + exists ps. rewrite filter_cons_False by done. repeat split; [done| |done].
      eapply Forall_impl; [exact Hge|]. simpl. lia.
Qed.

(** C4: a run whose callback was created with [isCancelled = false] and
    whose import record was created posts the error-free rows in batches
    of 100 cut in grid order: ceil(n/100) batches, all of 100 rows but the
    last, which holds the remainder, whose concatenation is the list of
    error-free rows; the requests go out one after the other in that order;
    after the last one the processed counter is n, whatever the responses
    were.  With 250 rows the batches have 100, 100 and 50 rows.  When the
    rows carry their positions as indices, the submitted rows have strictly
    increasing indices. *)
Theorem C4_batches_partition (r : Render) (env : Environment) (w : World)
  (id : jsstring) :
  r_isCancelled r = false →
  createImport env (filenameOrDefault (r_filename r)) (length (validRows r))
  = Some id →
  ∃ batches : list (list CSVRow),
    postedBatches (sent (startSubmission r env w))
    = postedBatches (sent w) ++ ((λ b : list CSVRow, toCase <$> b) <$> batches)
    ∧ length batches = ceilDiv (length (validRows r)) 100
    ∧ (length (validRows r) ≤ 100 * length batches < length (validRows r) + 100)%nat
    ∧ mjoin batches = validRows r
    ∧ (∀ k b, batches !! k = Some b →
              length b = if decide (S k < length batches)%nat
                         then 100%nat
                         else (length (validRows r) - 100 * k)%nat)
    ∧ ((0 < length (validRows r))%nat →
       ∃ p, progress (store (startSubmission r env w)) = Some p
            ∧ processed p = length (validRows r)
            ∧ total p = length (validRows r))
    ∧ (length (validRows r) = 250%nat →
       length <$> batches = [100%nat; 100%nat; 50%nat])
    ∧ (indices (r_rawData r)
       = (λ i, Some (JNum (Z.of_nat i))) <$> seq 0 (length (r_rawData r)) →
       ∃ positions,
         StronglySorted lt positions
         ∧ indices (mjoin batches)
           = (λ i, Some (JNum (Z.of_nat i))) <$> positions).
Proof.
  intros Hc Hcreate.
  exists (batchRows r <$> seq 0 (ceilDiv (length (validRows r)) BATCH_SIZE)).
  assert (Hlen : length (batchRows r <$> seq 0 (ceilDiv (length (validRows r)) BATCH_SIZE))
                 = ceilDiv (length (validRows r)) 100).
  { by rewrite length_fmap, length_seq. }
  assert (Hsize : ∀ k b,
             (batchRows r <$> seq 0 (ceilDiv (length (validRows r)) BATCH_SIZE)) !! k
             = Some b →
             length b = if decide (S k < ceilDiv (length (validRows r)) BATCH_SIZE)%nat
                        then 100%nat
                        else (length (validRows r) - 100 * k)%nat).
  { intros k b Hk. rewrite list_lookup_fmap in Hk.
    destruct (seq _ _ !! k) as [i|] eqn:Ei; [|done].
    apply lookup_seq in Ei as [-> Hlt]. simpl in Hk. injection Hk as <-.
    by apply batch_length. }
  split; [|split; [done|split; [|split; [apply batches_join|split; [|split; [|split]]]]]].
  - destruct (decide (length (validRows r) = 0%nat)) as [Hz|Hnz].
    + unfold startSubmission. rewrite bool_decide_true by done.
      rewrite Hz, ceilDiv_zero. simpl. by rewrite app_nil_r.
    + destruct (startSubmission_run r env w id Hc ltac:(lia) Hcreate)
        as ((sc & fc & ->) & _).
      rewrite !postedBatches_app. simpl.
      rewrite postedBatches_posts. rewrite app_nil_r.
      by rewrite <- list_fmap_compose.
  - rewrite Hlen.
    destruct (ceilDiv_spec (length (validRows r)) 100 ltac:(lia)) as [Hup Hlow].
    destruct (decide (length (validRows r) = 0%nat)) as [Hz|Hnz].
    + rewrite Hz, ceilDiv_zero. lia.
    + destruct Hlow as [Hpos Hlow]; lia.
  - intros k b Hk. rewrite Hlen. by apply Hsize.
  - intros Hn.
    destruct (startSubmission_run r env w id Hc Hn Hcreate)
      as (_ & _ & p & Hp & Ht & Hpr & _).
    exists p. by rewrite Hp, Ht, Hpr.
  - intros Hn. apply list_eq. intros k.
    rewrite list_lookup_fmap.
    destruct ((batchRows r <$> seq 0 (ceilDiv (length (validRows r)) BATCH_SIZE)) !! k)
      as [b|] eqn:Hk.
    + simpl. rewrite (Hsize k b Hk). rewrite Hn.
      apply lookup_lt_Some in Hk. rewrite Hlen, Hn in Hk.
      change (ceilDiv 250 100) with 3%nat in Hk.
      change (ceilDiv 250 BATCH_SIZE) with 3%nat.
      destruct k as [|[|[|k]]]; simpl; try done. lia.
    + apply lookup_ge_None in Hk. rewrite Hlen, Hn in Hk.
      change (ceilDiv 250 100) with 3%nat in Hk.
      simpl. symmetry. apply lookup_ge_None. simpl. lia.
  - intros Hidx. rewrite batches_join. unfold validRows.
    destruct (filter_positions
                (λ row, hasError (r_validationErrors r) row = false)
                (r_rawData r) 0 Hidx) as (ps & Hs & _ & Hps).
    by exists ps.
Qed.

Lemma C4_batches_partition_witness :
  batchSizes (sent (clickSubmit secondBatchLost (idleWorld 250)))
  = [100%nat; 100%nat; 50%nat]
  ∧ ∃ p, progress (store (clickSubmit secondBatchLost (idleWorld 250))) = Some p
         ∧ processed p = 250%nat.
Proof.
  assert (Hn : length (validRows (render (idleWorld 250))) = 250%nat)
    by (vm_compute; reflexivity).
  destruct (C4_batches_partition (render (idleWorld 250)) secondBatchLost
              (idleWorld 250) (u "imp-1"))
    as (batches & Hposted & _ & _ & _ & _ & Hprocessed & Hsizes & _);
    [reflexivity | reflexivity |].
  split.
  - unfold batchSizes, clickSubmit. rewrite Hposted. simpl.
    rewrite <- list_fmap_compose. rewrite <- (Hsizes Hn).
    apply list_fmap_ext. intros i b _. simpl. apply length_fmap.
  - destruct Hprocessed as (p & Hp & Hpr & _); [rewrite Hn; lia|].
    exists p. split; [exact Hp|]. by rewrite Hpr.
Defined.

(** C5: in a run as in C4, when the request of batch [k] fails, the
    accumulated results hold, as one contiguous run, a failed result for
    every row of that batch, carrying the row's case identifier and the
    message "Network error - please retry"; and every batch of the
    partition, batch [k + 1] included, is posted all the same. *)
Theorem C5_transport_failure_isolated (r : Render) (env : Environment)
  (w : World) (id : jsstring) (k : nat) :
  r_isCancelled r = false →
  createImport env (filenameOrDefault (r_filename r)) (length (validRows r))
  = Some id →
  (k < ceilDiv (length (validRows r)) 100)%nat →
  postBatch env k (toCase <$> batchRows r k) = None →
  (∃ before after,
     batchResults (store (startSubmission r env w))
     = before
       ++ ((λ row, {| br_success := false; br_caseId := row !! "case_id";
                      br_error := Some (u "Network error - please retry");
                      br_id := None |}) <$> batchRows r k)
       ++ after)
  ∧ postedBatches (sent (startSubmission r env w))
    = postedBatches (sent w)
      ++ ((λ i, toCase <$> batchRows r i)
            <$> seq 0 (ceilDiv (length (validRows r)) 100))
  ∧ ((S k < ceilDiv (length (validRows r)) 100)%nat →
     postedBatches (sent (startSubmission r env w)) !! (length (postedBatches (sent w)) + S k)%nat
     = Some (toCase <$> batchRows r (S k))).
Proof.
  intros Hc Hcreate Hk Hfail.
  assert (Hn : (0 < length (validRows r))%nat).
  { destruct (decide (length (validRows r) = 0%nat)) as [Hz|]; [|lia].
    rewrite Hz, ceilDiv_zero in Hk. lia. }
  destruct (startSubmission_run r env w id Hc Hn Hcreate)
    as ((sc & fc & Hsent) & Hresults & _).
  assert (Hposted : postedBatches (sent (startSubmission r env w))
                    = postedBatches (sent w)
                      ++ ((λ i, toCase <$> batchRows r i)
                            <$> seq 0 (ceilDiv (length (validRows r)) 100))).
  { rewrite Hsent, !postedBatches_app. simpl.
    rewrite postedBatches_posts. by rewrite app_nil_r. }
  split; [|split; [exact Hposted|]].
  - rewrite Hresults.
    replace (ceilDiv (length (validRows r)) BATCH_SIZE)
      with (k + S (ceilDiv (length (validRows r)) BATCH_SIZE - S k))%nat
      by (unfold BATCH_SIZE; lia).
    rewrite seq_app, fmap_app, join_app. simpl.
    exists (batchResults (store w) ++ mjoin (batchOutcome r env <$> seq 0 k)).
    eexists. rewrite <- !app_assoc. f_equal. f_equal.
    unfold batchOutcome at 1. rewrite Hfail. reflexivity.
  - intros HSk. rewrite Hposted.
    rewrite lookup_app_r by lia.
    replace (length (postedBatches (sent w)) + S k
             - length (postedBatches (sent w)))%nat with (S k) by lia.
    rewrite list_lookup_fmap, lookup_seq_lt by done. done.
Qed.

Lemma C5_transport_failure_isolated_witness :
  (λ x, (br_success x, br_error x))
    <$> take 100 (drop 100
          (batchResults (store (clickSubmit secondBatchLost (idleWorld 250)))))
  = replicate 100 (false, Some (u "Network error - please retry"))
  ∧ batchSizes (sent (clickSubmit secondBatchLost (idleWorld 250)))
    = [100%nat; 100%nat; 50%nat].
Proof.
  destruct (C5_transport_failure_isolated (render (idleWorld 250))
              secondBatchLost (idleWorld 250) (u "imp-1") 1)
    as (_ & Hposted & _);
    [reflexivity | reflexivity | vm_compute; lia | reflexivity |].
  split; [vm_compute; reflexivity|].
  unfold batchSizes, clickSubmit. rewrite Hposted.
  vm_compute. reflexivity.
Defined.

(** A run whose callback closed over [isCancelled = true] posts no batch,
    whatever the operator does meanwhile. *)
Lemma startSubmission_after_cancel (r : Render) (env : Environment) (w : World) :
  r_isCancelled r = true →
  postedBatches (sent (startSubmission r env w)) = postedBatches (sent w).
Proof.
  intros Hc. unfold startSubmission. case_bool_decide; [done|]. simpl.
  destruct (createImport env _ _) as [id|]; simpl.
  - destruct (seq 0 _) as [|i ixs]; simpl; rewrite ?Hc; simpl;
      by rewrite !postedBatches_app, !app_nil_r.
  - by rewrite postedBatches_app, app_nil_r.
Qed.

(** [retryFailed] either does nothing or is [startSubmission]. *)
Lemma retryFailed_cases (r : Render) (env : Environment) (w : World) :
  (rowsToRetry r = [] ∧ retryFailed r env w = w)
  ∨ (rowsToRetry r ≠ [] ∧ retryFailed r env w = startSubmission r env w).
Proof.
  unfold retryFailed. destruct (rowsToRetry r) as [|row rows]; [by left|].
  right. by rewrite bool_decide_false.
Qed.

(** C2, on the code: the loop tests the [isCancelled] its callback closed
    over when the component rendered, a constant of the run, while Cancel
    sets the component's state.  So what a run sends and stores is the
    same whether or not Cancel is pressed during it; with 101 rows and
    Cancel pressed while the first batch is in flight, the flag is set, the
    second batch is posted all the same and the import record is finalized
    as COMPLETED.  It is the next run, started from the render that saw
    the flag set, that posts no batch at all and finalizes its own record
    as FAILED. *)
Theorem C2_cancel_not_observed_by_run :
  (∀ r env w,
     sent (startSubmission r env w) = sent (startSubmission r (withoutCancel env) w)
     ∧ store (startSubmission r env w)
       = store (startSubmission r (withoutCancel env) w))
  ∧ isCancelled (clickSubmit cancelDuringFirstBatch (idleWorld 101)) = true
  ∧ batchSizes (sent (clickSubmit cancelDuringFirstBatch (idleWorld 101)))
    = [100%nat; 1%nat]
  ∧ last (sent (clickSubmit cancelDuringFirstBatch (idleWorld 101)))
    = Some (PatchImport (u "imp-1") COMPLETED 101 0)
  ∧ batchSizes (sent (clickSubmit acceptingServer
                        (cancelSubmission (idleWorld 101)))) = []
  ∧ last (sent (clickSubmit acceptingServer (cancelSubmission (idleWorld 101))))
    = Some (PatchImport (u "imp-1") FAILED 0 0).
Proof.
  split.
  - intros r env w.
    destruct (startSubmission_ignores_cancel r env w) as [Hst Hse]. by split.
  - repeat split; vm_compute; reflexivity.
Qed.

(** C1, on the code: [retryFailed] selects the rows whose case identifier
    has a failed result, and uses them only to decide whether to do
    anything; it then runs [startSubmission], which posts every error-free
    row.  After a run that created C-0 and failed on C-1, only C-1 is
    selected and both C-0 and C-1 are posted again. *)
Theorem C1_retry_posts_every_valid_row :
  (λ row : CSVRow, row !! "case_id") <$> rowsToRetry (render afterFirstRun)
  = [Some (JStr (u "C-1"))]
  ∧ (λ cases : list CasePayload, caseId <$> cases)
      <$> postedBatches (sent (clickRetryFailed acceptingServer afterFirstRun))
    = [[Some (JStr (u "C-0")); Some (JStr (u "C-1"))]]
  ∧ clickRetryFailed acceptingServer afterFirstRun
    = clickSubmit acceptingServer afterFirstRun.
Proof. repeat split; vm_compute; reflexivity. Qed.

(* ===================================================================== *)
(** ** Phone and name normalization *)
(* ===================================================================== *)

Section Trim.
Implicit Types (s : jsstring).

Lemma trimStart_head s :
  match trimStart s with [] => True | c :: _ => is_ws c = false end.
Proof.
  induction s as [|c s IH]; simpl; [done|].
  destruct (is_ws c) eqn:E; [done|]. exact E.
Qed.

Lemma trimStart_id s :
  match s with [] => True | c :: _ => is_ws c = false end → trimStart s = s.
Proof. destruct s as [|c s]; simpl; [done|]. by intros ->. Qed.

Lemma trimStart_idem s : trimStart (trimStart s) = trimStart s.
Proof. apply trimStart_id, trimStart_head. Qed.

Lemma trimStart_suffix s : ∃ p, s = p ++ trimStart s.
Proof.
  induction s as [|c s [p Hp]]; simpl.
  - by exists [].
  - destruct (is_ws c).
    + exists (c :: p). simpl. by rewrite <- Hp.
    + by exists [].
Qed.

Lemma trim_idem s : trim (trim s) = trim s.
Proof.
  unfold trim, trimEnd.
  assert (Hpre : trimStart (reverse (trimStart (reverse (trimStart s))))
                 = reverse (trimStart (reverse (trimStart s)))).
  { destruct (trimStart_suffix (reverse (trimStart s))) as [p Hp].
    assert (Ha : trimStart s
                 = reverse (trimStart (reverse (trimStart s))) ++ reverse p).
    { rewrite <- reverse_app, <- Hp. by rewrite reverse_involutive. }
    apply trimStart_id.
    destruct (reverse (trimStart (reverse (trimStart s)))) as [|c t]; [done|].
    pose proof (trimStart_head s) as Hh. rewrite Ha in Hh. exact Hh. }
  rewrite Hpre, reverse_involutive. by rewrite trimStart_idem.
Qed.

End Trim.

Section Normalization.
Context `{Platform}.

Lemma normalizePhone_blank phone : trim phone = [] → normalizePhone phone = None.
Proof.
  intros Ht. unfold normalizePhone. rewrite (bool_decide_true (trim _ = _)) by done.
  by rewrite orb_true_r.
Qed.

Lemma normalizePhone_nonblank phone :
  trim phone ≠ [] →
  normalizePhone phone = default None (normalizePhone_try (trim phone)).
Proof.
  intros Ht. unfold normalizePhone.
  rewrite (bool_decide_false (trim _ = _)) by done.
  rewrite bool_decide_false; [|by intros ->].
  simpl. by destruct (normalizePhone_try _).
Qed.

Lemma normalizePhone_trim phone : normalizePhone (trim phone) = normalizePhone phone.
Proof.
  destruct (decide (trim phone = [])) as [Hb|Hnb].
  - rewrite !normalizePhone_blank; [done..|]. by rewrite trim_idem.
  - rewrite !normalizePhone_nonblank by (by rewrite ?trim_idem).
    by rewrite trim_idem.
Qed.

Lemma titleCase_trim name : titleCase (trim name) = titleCase name.
Proof. unfold titleCase. by rewrite trim_idem. Qed.

(** C8: [normalizePhone] answers [null] for an empty or white-space-only
    input; otherwise it hands the trimmed input to the library, first with
    default country India and then, if that is not a valid number, without
    a country, returns the E.164 form of the first reading that is valid,
    and returns [null] when neither is or when the library throws.  With
    the library's answers on them, "9876543210" gives "+919876543210",
    "+919876543210" gives itself and "12345" gives [null]; the empty
    string gives [null] whatever the library. *)
Theorem C8_normalizePhone :
  (∀ phone, trim phone = [] → normalizePhone phone = None)
  ∧ (∀ phone, normalizePhone (trim phone) = normalizePhone phone)
  ∧ (∀ phone n e164,
       trim phone ≠ [] →
       isValidPhoneNumber (trim phone) (Some (u "IN")) = Some true →
       parsePhoneNumber (trim phone) (Some (u "IN")) = Some n →
       formatE164 n = Some e164 →
       normalizePhone phone = Some e164)
  ∧ (∀ phone n e164,
       trim phone ≠ [] →
       isValidPhoneNumber (trim phone) (Some (u "IN")) = Some false →
       isValidPhoneNumber (trim phone) None = Some true →
       parsePhoneNumber (trim phone) None = Some n →
       formatE164 n = Some e164 →
       normalizePhone phone = Some e164)
  ∧ (∀ phone,
       isValidPhoneNumber (trim phone) (Some (u "IN")) = Some false →
       isValidPhoneNumber (trim phone) None = Some false →
       normalizePhone phone = None)
  ∧ (∀ phone, normalizePhone_try (trim phone) = None → normalizePhone phone = None)
  ∧ (∀ n,
       isValidPhoneNumber (u "9876543210") (Some (u "IN")) = Some true →
       parsePhoneNumber (u "9876543210") (Some (u "IN")) = Some n →
       formatE164 n = Some (u "+919876543210") →
       normalizePhone (u "9876543210") = Some (u "+919876543210"))
  ∧ (∀ n,
       isValidPhoneNumber (u "+919876543210") (Some (u "IN")) = Some true →
       parsePhoneNumber (u "+919876543210") (Some (u "IN")) = Some n →
       formatE164 n = Some (u "+919876543210") →
       normalizePhone (u "+919876543210") = Some (u "+919876543210"))
  ∧ normalizePhone [] = None
  ∧ (isValidPhoneNumber (u "12345") (Some (u "IN")) = Some false →
     isValidPhoneNumber (u "12345") None = Some false →
     normalizePhone (u "12345") = None).
Proof.
  assert (Hregional : ∀ phone n e164,
            trim phone ≠ [] →
            isValidPhoneNumber (trim phone) (Some (u "IN")) = Some true →
            parsePhoneNumber (trim phone) (Some (u "IN")) = Some n →
            formatE164 n = Some e164 →
            normalizePhone phone = Some e164).
  { intros phone n e164 Hnb Hv Hp Hf. rewrite normalizePhone_nonblank by done.
    unfold normalizePhone_try. rewrite Hv. simpl. rewrite Hp. simpl.
    by rewrite Hf. }
  assert (Hnone : ∀ phone,
            isValidPhoneNumber (trim phone) (Some (u "IN")) = Some false →
            isValidPhoneNumber (trim phone) None = Some false →
            normalizePhone phone = None).
  { intros phone Hv1 Hv2.
    destruct (decide (trim phone = [])) as [Hb|Hnb];
      [by apply normalizePhone_blank|].
    rewrite normalizePhone_nonblank by done.
    unfold normalizePhone_try. rewrite Hv1. simpl. by rewrite Hv2. }
  repeat split.
  - apply normalizePhone_blank.
  - apply normalizePhone_trim.
  - exact Hregional.
  - intros phone n e164 Hnb Hv1 Hv2 Hp Hf.
    rewrite normalizePhone_nonblank by done.
    unfold normalizePhone_try. rewrite Hv1. simpl. rewrite Hv2. simpl.
    rewrite Hp. simpl. by rewrite Hf.
  - exact Hnone.
  - intros phone Ht.
    destruct (decide (trim phone = [])) as [Hb|Hnb];
      [by apply normalizePhone_blank|].
    rewrite normalizePhone_nonblank by done. by rewrite Ht.
  - intros n. apply (Hregional (u "9876543210")). discriminate.
  - intros n. apply (Hregional (u "+919876543210")). discriminate.
  - apply (Hnone (u "12345")).
Qed.

End Normalization.

Lemma C8_normalizePhone_witness :
  @normalizePhone refPlatform (u "9876543210") = Some (u "+919876543210")
  ∧ @normalizePhone refPlatform (u "+919876543210") = Some (u "+919876543210")
  ∧ @normalizePhone refPlatform (u "12345") = None
  ∧ @normalizePhone refPlatform (u "   ") = None.
Proof.
  destruct (@C8_normalizePhone refPlatform)
    as (Hblank & _ & _ & _ & _ & _ & Hlocal & Hintl & _ & Hshort).
  split; [|split; [|split]].
  - apply (Hlocal (u "9876543210")); reflexivity.
  - apply (Hintl (u "9876543210")); reflexivity.
  - apply Hshort; reflexivity.
  - apply Hblank. reflexivity.
Defined.

(* ===================================================================== *)
(** ** The quick-fix toolbar *)
(* ===================================================================== *)

(** C3, as stated, fails: the four callbacks close over the [rawData] of
    the render in which the click handler was created, so title-casing
    reads the names as they were before trimming.  A name that is in title
    case but padded with spaces is edited by both operations and counted
    twice, where operations that read each other's results would edit and
    count it once. *)
Lemma C3_title_case_reads_untrimmed_name :
  @clickFixAll refPlatform paddedStore ≠ @fixAll_as_specified refPlatform paddedStore
  ∧ (@clickFixAll refPlatform paddedStore).1 = Some 2%nat
  ∧ (@fixAll_as_specified refPlatform paddedStore).1 = Some 1%nat
  ∧ @titleCaseNames_updates refPlatform (rawData paddedStore)
    = [edit 0 "applicant_name" "Asha Rao"]
  ∧ @titleCaseNames_updates refPlatform
      (rawData (trimWhitespace (rawData paddedStore) paddedStore).2)
    = [].
Proof.
  split; [|repeat split; vm_compute; reflexivity].
  intros Heq. apply (f_equal fst) in Heq. vm_compute in Heq. discriminate Heq.
Qed.

Section ToolbarFacts.
Context `{Platform}.

Lemma updateMultipleRows_nil s : updateMultipleRows [] s = s.
Proof. by destruct s. Qed.

Lemma commitUpdates_run updates s :
  commitUpdates updates s = (Some (length updates), updateMultipleRows updates s).
Proof.
  unfold commitUpdates. destruct updates as [|e updates].
  - by rewrite updateMultipleRows_nil.
  - done.
Qed.

Lemma setDefaultPriority_row_typed row :
  priority_typed row →
  setDefaultPriority_row row = Some (defaultPriority_edits row).
Proof.
  unfold defaultPriority_edits, setDefaultPriority_row, priority_typed,
    priority_blank.
  destruct (row !! "priority") as [[z|p]|]; simpl.
  - by intros ->.
  - intros _. by destruct (bool_decide (p = [])).
  - done.
Qed.

Lemma setDefaultPriority_updates_typed rows :
  Forall priority_typed rows →
  setDefaultPriority_updates rows = Some (rows ≫= defaultPriority_edits).
Proof.
  induction 1 as [|row rows Hrow _ IH]; [done|]. simpl.
  by rewrite (setDefaultPriority_row_typed row Hrow), IH.
Qed.

Lemma trimWhitespace_row_edits row : edits_of row (trimWhitespace_row row).
Proof.
  unfold edits_of, trimWhitespace_row, trimmedFields. csimpl.
  rewrite !Forall_app. repeat split;
    repeat case_match; by repeat constructor.
Qed.

Lemma titleCaseNames_row_edits row : edits_of row (titleCaseNames_row row).
Proof.
  unfold edits_of, titleCaseNames_row.
  repeat case_match; by repeat constructor.
Qed.

Lemma normalizePhones_row_edits row : edits_of row (normalizePhones_row row).
Proof.
  unfold edits_of, normalizePhones_row.
  repeat case_match; by repeat constructor.
Qed.

Lemma defaultPriority_edits_edits row : edits_of row (defaultPriority_edits row).
Proof.
  unfold edits_of, defaultPriority_edits, setDefaultPriority_row.
  destruct (priority_blank _) as [[|]|]; simpl; by repeat constructor.
Qed.

Lemma edits_of_index (g : CSVRow → list Update) :
  (∀ row, edits_of row (g row)) →
  ∀ row, Forall (λ e, rowIndex e = row !! "_rowIndex") (g row).
Proof.
  intros Hg row. eapply Forall_impl; [apply Hg|]. simpl. by intros e [? _].
Qed.

Lemma edits_of_fields (g : CSVRow → list Update) rows :
  (∀ row, edits_of row (g row)) →
  Forall (λ e, field e ≠ "_rowIndex") (rows ≫= g).
Proof.
  intros Hg. induction rows as [|row rows IH]; csimpl; [constructor|].
  apply Forall_app. split; [|done].
  eapply Forall_impl; [apply Hg|]. simpl. by intros e [_ ?].
Qed.

Lemma fixAll_fields rows :
  Forall (λ e, field e ≠ "_rowIndex")
    (trimWhitespace_updates rows ++ titleCaseNames_updates rows
     ++ normalizePhones_updates rows ++ (rows ≫= defaultPriority_edits)).
Proof.
  rewrite !Forall_app. repeat split; apply edits_of_fields.
  - apply trimWhitespace_row_edits.
  - apply titleCaseNames_row_edits.
  - apply normalizePhones_row_edits.
  - apply defaultPriority_edits_edits.
Qed.

(** C3 (amended): one fix-all invocation collects the edits of the four
    operations from one and the same row set, the one the component
    rendered with, in the order trim-whitespace, title-case-names,
    normalize-phones, default-priority; it commits them to the store in
    that order, which amounts to one bulk update with the four edit lists
    end to end, and returns the sum of their lengths.  The row indices are
    untouched.  When the rows read are those of the store and carry
    pairwise distinct indices, every stored row ends up as the row it was
    with the edits collected from it applied in that order, so that a cell
    edited by two operations holds the later one's value.  Title-casing
    trims its argument itself, so reading the untrimmed name yields the
    same title-cased value. *)
Theorem C3_fixAll_from_snapshot (snapshot : list CSVRow) (s : ImportState) :
  Forall priority_typed snapshot →
  fixAll snapshot s
  = (Some (length (trimWhitespace_updates snapshot)
           + length (titleCaseNames_updates snapshot)
           + length (normalizePhones_updates snapshot)
           + length (snapshot ≫= defaultPriority_edits))%nat,
     updateMultipleRows
       (trimWhitespace_updates snapshot ++ titleCaseNames_updates snapshot
        ++ normalizePhones_updates snapshot
        ++ (snapshot ≫= defaultPriority_edits)) s)
  ∧ indices (rawData (fixAll snapshot s).2) = indices (rawData s)
  ∧ (snapshot = rawData s → NoDup (indices (rawData s)) →
     rawData (fixAll snapshot s).2
     = (λ row, applyEdits (fixes row) row) <$> rawData s)
  ∧ ∀ name, titleCase (trim name) = titleCase name.
Proof.
  intros Htyped.
  assert (Hrun : fixAll snapshot s
                 = (Some (length (trimWhitespace_updates snapshot)
                          + length (titleCaseNames_updates snapshot)
                          + length (normalizePhones_updates snapshot)
                          + length (snapshot ≫= defaultPriority_edits))%nat,
                    updateMultipleRows
                      (trimWhitespace_updates snapshot
                       ++ titleCaseNames_updates snapshot
                       ++ normalizePhones_updates snapshot
                       ++ (snapshot ≫= defaultPriority_edits)) s)).
  { unfold fixAll, trimWhitespace, titleCaseNames, normalizePhones,
      setDefaultPriority, mbind, Action_bind.
    rewrite (setDefaultPriority_updates_typed _ Htyped), !commitUpdates_run.
    simpl. by rewrite !updateMultipleRows_app. }
  split; [exact Hrun|]. split; [|split; [|apply titleCase_trim]].
  - rewrite Hrun. simpl. apply applyAll_indices, fixAll_fields.
  - intros -> Hnd. rewrite Hrun. simpl.
    rewrite applyAll_rowwise by (done || apply fixAll_fields).
    apply list_fmap_ext. intros i row Hl. f_equal.
    unfold addressedTo. rewrite !filter_app. unfold fixes.
    unfold trimWhitespace_updates, titleCaseNames_updates,
      normalizePhones_updates.
    repeat f_equal;
      apply (addressedTo_bind _ (rawData s) i row); try done;
      apply edits_of_index.
    + apply trimWhitespace_row_edits.
    + apply titleCaseNames_row_edits.
    + apply normalizePhones_row_edits.
    + apply defaultPriority_edits_edits.
Qed.

End ToolbarFacts.

Lemma C3_fixAll_from_snapshot_witness :
  (@clickFixAll refPlatform paddedStore).1 = Some 2%nat
  ∧ cell (rawData (@clickFixAll refPlatform paddedStore).2) 0 "applicant_name"
    = Some (JStr (u "Asha Rao")).
Proof.
  destruct (@C3_fixAll_from_snapshot refPlatform (rawData paddedStore) paddedStore)
    as (Hrun & _ & Hrows & _).
  - apply (bool_decide_unpack _). vm_compute. exact I.
  - unfold clickFixAll, rendered. split.
    + rewrite Hrun. vm_compute. reflexivity.
    + rewrite Hrows; [vm_compute; reflexivity | reflexivity |].
      apply (bool_decide_unpack _). vm_compute. exact I.
Defined.

(* ===================================================================== *)
(** ** The toolbar: what each operation leaves in the grid *)
(* ===================================================================== *)

Section FieldwiseFacts.

Lemma applyEdits_app es1 es2 row :
  applyEdits (es1 ++ es2) row = applyEdits es2 (applyEdits es1 row).
Proof. apply foldl_app. Qed.

Lemma fieldwise_cons g fields h row :
  fieldwise (g :: fields) h row
  = match h row g with
    | Some v => [{| rowIndex := row !! "_rowIndex"; field := g; value := v |}]
    | None => []
    end ++ fieldwise fields h row.
Proof. done. Qed.

Lemma applyEdits_fieldwise_from fields h row row0 f :
  NoDup fields →
  applyEdits (fieldwise fields h row) row0 !! f
  = if decide (f ∈ fields)
    then match h row f with Some v => Some (JStr v) | None => row0 !! f end
    else row0 !! f.
Proof.
  intros Hnd. revert row0.
  induction Hnd as [|g fields Hg Hnd IH]; intros row0.
  - done.
  - rewrite fieldwise_cons, applyEdits_app, IH.
    destruct (decide (f = g)) as [->|Hne].
    + rewrite (decide_False (P := g ∈ fields)) by done.
      rewrite (decide_True (P := g ∈ g :: fields)) by left.
      destruct (h row g); simpl; [apply assign_lookup | done].
    + destruct (decide (f ∈ fields)) as [Hin|Hnin].
      * rewrite decide_True by (by right).
        destruct (h row f); [done|].
        destruct (h row g); simpl; [by rewrite assign_lookup_ne | done].
      * rewrite decide_False by (rewrite elem_of_cons; tauto).
        destruct (h row g); simpl; [by rewrite assign_lookup_ne | done].
Qed.

Lemma fieldwise_edits_of fields h row :
  "_rowIndex" ∉ fields → edits_of row (fieldwise fields h row).
Proof.
  unfold edits_of. induction fields as [|g fields IH]; intros Hnot.
  - constructor.
  - rewrite fieldwise_cons. apply Forall_app. split.
    + destruct (h row g); repeat constructor. simpl.
      intros ->. apply Hnot. left.
    + apply IH. intros Hin. apply Hnot. by right.
Qed.

Lemma fieldwise_none fields h row :
  (∀ f, f ∈ fields → h row f = None) → fieldwise fields h row = [].
Proof.
  induction fields as [|g fields IH]; intros Hnone; [done|].
  rewrite fieldwise_cons, (Hnone g) by left. simpl.
  apply IH. intros f Hf. apply Hnone. by right.
Qed.

Lemma bind_nil {A B} (g : A → list B) (l : list A) :
  (∀ a, a ∈ l → g a = []) → l ≫= g = [].
Proof.
  induction l as [|a l IH]; intros Hg; [done|]. csimpl.
  rewrite (Hg a) by left. simpl. apply IH. intros b Hb. apply Hg. by right.
Qed.

Lemma bind_length_ext {A B C} (g1 : A → list B) (g2 : A → list C) (l : list A) :
  (∀ a, a ∈ l → length (g1 a) = length (g2 a)) →
  length (l ≫= g1) = length (l ≫= g2).
Proof.
  induction l as [|a l IH]; intros Hg; [done|]. csimpl.
  rewrite !length_app, (Hg a) by left. f_equal.
  apply IH. intros b Hb. apply Hg. by right.
Qed.

Lemma bind_positions_length {A B C} (F : nat → list B) (G : A → list C)
  (l : list A) (k : nat) :
  (∀ i a, l !! i = Some a → length (F (k + i)%nat) = length (G a)) →
  length (seq k (length l) ≫= F) = length (l ≫= G).
Proof.
  revert k. induction l as [|a l IH]; intros k HFG; [done|]. csimpl.
  rewrite !length_app. f_equal.
  - rewrite <- (HFG 0%nat a eq_refl). by rewrite Nat.add_0_r.
  - apply IH. intros i b Hb. rewrite <- (HFG (S i) b Hb). f_equal. f_equal. lia.
Qed.

Lemma fieldwise_length {C} fields h row (G : string → list C) :
  (∀ f, f ∈ fields →
        length (G f) = match h row f with Some _ => 1%nat | None => 0%nat end) →
  length (fieldwise fields h row) = length (fields ≫= G).
Proof.
  intros HG. unfold fieldwise. apply bind_length_ext. intros f Hf.
  rewrite (HG f Hf). by destruct (h row f).
Qed.

(** A field-wise operation, committed on the rows it read. *)
Lemma fieldwise_commit fields h s :
  NoDup fields → "_rowIndex" ∉ fields → NoDup (indices (rawData s)) →
  (∀ row f v, h row f = Some v → row !! f ≠ Some (JStr v)) →
  rawData (updateMultipleRows (rawData s ≫= fieldwise fields h) s)
  = (λ row, applyEdits (fieldwise fields h row) row) <$> rawData s
  ∧ length (rawData s ≫= fieldwise fields h)
    = length (changedCells fields (rawData s)
                (rawData (updateMultipleRows (rawData s ≫= fieldwise fields h) s))).
Proof.
  intros Hfields Hidx Hnd Hchange.
  assert (Hrows : rawData (updateMultipleRows (rawData s ≫= fieldwise fields h) s)
                  = (λ row, applyEdits (fieldwise fields h row) row) <$> rawData s).
  { rewrite updateMultipleRows_rawData, applyAll_rowwise; [|done|].
    - apply list_fmap_ext. intros i row Hrow. f_equal.
      apply (addressedTo_bind _ (rawData s) i row); [|done|done].
      apply edits_of_index. intros r. by apply fieldwise_edits_of.
    - apply edits_of_fields. intros r. by apply fieldwise_edits_of. }
  split; [exact Hrows|]. rewrite Hrows. unfold changedCells. symmetry.
  apply (bind_positions_length _ _ _ 0). intros i row Hrow. simpl.
  symmetry. apply fieldwise_length. intros f Hf.
  unfold cell. rewrite list_lookup_fmap, Hrow. simpl.
  rewrite applyEdits_fieldwise_from by done.
  rewrite (decide_True (P := f ∈ fields)) by done.
  destruct (h row f) as [v|] eqn:Hh.
  - rewrite decide_False; [done|]. intros Heq. by apply (Hchange row f v).
  - by rewrite decide_True.
Qed.

End FieldwiseFacts.

Section OperationFacts.

Lemma updateMultipleRows_slices us s :
  with_rawData (rawData s) (updateMultipleRows us s) = s.
Proof. by destruct s. Qed.

(** A field-wise operation run by a click: what it returns and what it
    leaves in the store. *)
Lemma operation_effect fields h (g : CSVRow → list Update) s :
  (∀ row, g row = fieldwise fields h row) →
  NoDup fields → "_rowIndex" ∉ fields → NoDup (indices (rawData s)) →
  (∀ row f v, h row f = Some v → row !! f ≠ Some (JStr v)) →
  ∃ s',
    commitUpdates (rawData s ≫= g) s
    = (Some (length (changedCells fields (rawData s) (rawData s'))), s')
    ∧ with_rawData (rawData s) s' = s
    ∧ indices (rawData s') = indices (rawData s)
    ∧ ∀ i row, rawData s !! i = Some row →
        ∃ row', rawData s' !! i = Some row'
          ∧ ∀ f, row' !! f
                 = if decide (f ∈ fields)
                   then match h row f with
                        | Some v => Some (JStr v)
                        | None => row !! f
                        end
                   else row !! f.
Proof.
  intros Hg Hfields Hidx Hnd Hchange.
  assert (Hbind : rawData s ≫= g = rawData s ≫= fieldwise fields h).
  { by apply list_bind_ext. }
  destruct (fieldwise_commit fields h s Hfields Hidx Hnd Hchange)
    as [Hrows Hcount].
  exists (updateMultipleRows (rawData s ≫= g) s).
  rewrite commitUpdates_run, Hbind, Hcount.
  split; [done|]. split; [apply updateMultipleRows_slices|]. split.
  - rewrite updateMultipleRows_rawData. apply applyAll_indices.
    apply edits_of_fields. intros r. by apply fieldwise_edits_of.
  - intros i row Hrow. exists (applyEdits (fieldwise fields h row) row).
    split; [by rewrite Hrows, list_lookup_fmap, Hrow|].
    intros f. by apply applyEdits_fieldwise_from.
Qed.

(** An operation that finds nothing to change. *)
Lemma operation_idle fields h (g : CSVRow → list Update) s :
  (∀ row, g row = fieldwise fields h row) →
  (∀ row f, row ∈ rawData s → f ∈ fields → h row f = None) →
  commitUpdates (rawData s ≫= g) s = (Some 0%nat, s).
Proof.
  intros Hg Hnone. rewrite commitUpdates_run.
  rewrite (bind_nil g (rawData s)).
  - by rewrite updateMultipleRows_nil.
  - intros row Hrow. rewrite Hg. apply fieldwise_none. intros f Hf.
    by apply Hnone.
Qed.

Lemma lookup_same_length {A B} (l : list A) (k : list B) i b :
  length k = length l → k !! i = Some b → ∃ a, l !! i = Some a.
Proof.
  intros Hlen Hb. apply lookup_lt_is_Some. rewrite <- Hlen.
  by apply lookup_lt_Some in Hb.
Qed.

Lemma indices_length rows rows' :
  indices rows' = indices rows → length rows' = length rows.
Proof.
  intros Heq. apply (f_equal length) in Heq. unfold indices in Heq.
  by rewrite !length_fmap in Heq.
Qed.

End OperationFacts.

Section ToolbarOperations.
Context `{Platform}.

Lemma trimWhitespace_row_fieldwise row :
  trimWhitespace_row row = fieldwise trimmedFields trimmedValue row.
Proof.
  unfold trimWhitespace_row, fieldwise, trimmedValue.
  apply list_bind_ext; [|done]. intros f.
  destruct (row !! f) as [[z|v]|]; try done. by destruct (bool_decide _).
Qed.

Lemma titleCaseNames_row_fieldwise row :
  titleCaseNames_row row = fieldwise ["applicant_name"] titledValue row.
Proof.
  unfold titleCaseNames_row, fieldwise, titledValue. csimpl.
  rewrite app_nil_r.
  destruct (row !! "applicant_name") as [[z|v]|]; try done.
  by destruct (_ && _).
Qed.

Lemma normalizePhones_row_fieldwise row :
  normalizePhones_row row = fieldwise ["phone"] normalizedValue row.
Proof.
  unfold normalizePhones_row, fieldwise, normalizedValue. csimpl.
  rewrite app_nil_r.
  destruct (row !! "phone") as [[z|phone]|]; try done.
  case_bool_decide as Hblank.
  - destruct (normalizePhone phone); [|done]. by destruct (_ && _).
  - by rewrite (normalizePhone_blank phone Hblank).
Qed.

Lemma defaultPriority_edits_fieldwise row :
  defaultPriority_edits row = fieldwise ["priority"] defaultedValue row.
Proof.
  unfold defaultPriority_edits, setDefaultPriority_row, fieldwise,
    defaultedValue. csimpl. rewrite app_nil_r.
  by destruct (priority_blank (row !! "priority")) as [[|]|].
Qed.

Lemma trimmedValue_changes row f v :
  trimmedValue row f = Some v → row !! f ≠ Some (JStr v).
Proof.
  unfold trimmedValue. destruct (row !! f) as [[z|v0]|]; try done.
  case_bool_decide as Hne; [|done]. intros [= <-] [= Heq]. by apply Hne.
Qed.

Lemma titledValue_changes row f v :
  titledValue row f = Some v → row !! f ≠ Some (JStr v).
Proof.
  unfold titledValue. destruct (row !! f) as [[z|v0]|]; try done.
  destruct (bool_decide (trim v0 ≠ [])); simpl; [|done].
  case_bool_decide as Hne; [|done]. intros [= <-] [= Heq]. by apply Hne.
Qed.

Lemma normalizedValue_changes row f v :
  normalizedValue row f = Some v → row !! f ≠ Some (JStr v).
Proof.
  unfold normalizedValue. destruct (row !! f) as [[z|v0]|]; try done.
  destruct (normalizePhone v0) as [n|]; [|done].
  destruct (bool_decide (n ≠ [])); simpl; [|done].
  case_bool_decide as Hne; [|done]. intros [= <-] [= Heq]. by apply Hne.
Qed.

Lemma defaultedValue_changes row f v :
  defaultedValue row f = Some v → row !! f ≠ Some (JStr v).
Proof.
  unfold defaultedValue.
  destruct (priority_blank (row !! f)) as [[|]|] eqn:Hblank; try done.
  intros [= <-] Heq. rewrite Heq in Hblank. vm_compute in Hblank.
  discriminate Hblank.
Qed.

End ToolbarOperations.

Section ToolbarEffects.
Context `{Platform}.

(** X1 (trimWhitespace): on a grid whose rows carry pairwise distinct
    indices, a click on "Trim Whitespace" returns a count and leaves every
    slice of the store but the rows untouched; the rows keep their
    indices; in every row the string cells of the fields case_id,
    applicant_name, email and phone end up trimmed and every other cell is
    as before; the count is the number of cells whose value changed; and a
    second click, on the re-rendered toolbar, changes nothing and returns
    0. *)
Theorem trimWhitespace_effect (s : ImportState) :
  NoDup (indices (rawData s)) →
  ∃ n s',
    rendered trimWhitespace s = (Some n, s')
    ∧ with_rawData (rawData s) s' = s
    ∧ indices (rawData s') = indices (rawData s)
    ∧ (∀ i row, rawData s !! i = Some row →
         ∃ row', rawData s' !! i = Some row'
           ∧ ∀ f, row' !! f
                  = match row !! f with
                    | Some (JStr v) =>
                        if decide (f ∈ trimmedFields)
                        then Some (JStr (trim v)) else Some (JStr v)
                    | other => other
                    end)
    ∧ n = length (changedCells trimmedFields (rawData s) (rawData s'))
    ∧ rendered trimWhitespace s' = (Some 0%nat, s').
Proof.
  intros Hnd.
  assert (Hfields : NoDup trimmedFields).
  { apply (bool_decide_unpack _). by vm_compute. }
  assert (Hidx : "_rowIndex" ∉ trimmedFields).
  { apply (bool_decide_unpack _). by vm_compute. }
  destruct (operation_effect trimmedFields trimmedValue trimWhitespace_row s
              trimWhitespace_row_fieldwise Hfields Hidx Hnd
              trimmedValue_changes) as (s' & Hrun & Hslices & Hind & Hrows).
  assert (Hcells : ∀ i row, rawData s !! i = Some row →
            ∃ row', rawData s' !! i = Some row'
              ∧ ∀ f, row' !! f
                     = match row !! f with
                       | Some (JStr v) =>
                           if decide (f ∈ trimmedFields)
                           then Some (JStr (trim v)) else Some (JStr v)
                       | other => other
                       end).
  { intros i row Hrow. destruct (Hrows i row Hrow) as (row' & Hrow' & Hf).
    exists row'. split; [done|]. intros f. rewrite Hf. unfold trimmedValue.
    destruct (row !! f) as [[z|v]|]; try by case_decide.
    case_decide; [|done]. case_bool_decide as Hv; [done|].
    by rewrite <- Hv. }
  exists (length (changedCells trimmedFields (rawData s) (rawData s'))), s'.
  split; [exact Hrun|]. split; [done|]. split; [done|]. split; [done|].
  split; [done|].
  apply (operation_idle trimmedFields trimmedValue trimWhitespace_row s'
           trimWhitespace_row_fieldwise).
  intros row' f [i Hrow']%list_elem_of_lookup Hf.
  destruct (lookup_same_length (rawData s) (rawData s') i row'
              (indices_length _ _ Hind) Hrow') as [row Hrow].
  destruct (Hcells i row Hrow) as (row'' & Hrow'' & Hcell).
  assert (row'' = row') as -> by congruence.
  unfold trimmedValue. rewrite Hcell.
  destruct (row !! f) as [[z|v]|]; try done.
  rewrite decide_True by done. rewrite trim_idem.
  by rewrite bool_decide_false by (by intros ?).
Qed.

(** X2 (titleCaseNames): on a grid whose rows carry pairwise distinct
    indices, a click on "Title Case Names" rewrites the applicant name of
    every row whose name is a string with something other than white space
    in it to its title-cased form, and no other cell; a missing, numeric
    or blank name stays as it is; the count returned is the number of
    cells whose value changed. *)
Theorem titleCaseNames_effect (s : ImportState) :
  NoDup (indices (rawData s)) →
  ∃ n s',
    rendered titleCaseNames s = (Some n, s')
    ∧ with_rawData (rawData s) s' = s
    ∧ indices (rawData s') = indices (rawData s)
    ∧ (∀ i row, rawData s !! i = Some row →
         ∃ row', rawData s' !! i = Some row'
           ∧ (∀ f, f ≠ "applicant_name" → row' !! f = row !! f)
           ∧ row' !! "applicant_name"
             = match row !! "applicant_name" with
               | Some (JStr name) =>
                   if decide (trim name = []) then Some (JStr name)
                   else Some (JStr (titleCase name))
               | other => other
               end)
    ∧ n = length (changedCells ["applicant_name"] (rawData s) (rawData s')).
Proof.
  intros Hnd.
  assert (Hfields : NoDup ["applicant_name"]).
  { apply (bool_decide_unpack _). by vm_compute. }
  assert (Hidx : "_rowIndex" ∉ ["applicant_name"]).
  { apply (bool_decide_unpack _). by vm_compute. }
  destruct (operation_effect ["applicant_name"] titledValue titleCaseNames_row s
              titleCaseNames_row_fieldwise Hfields Hidx Hnd
              titledValue_changes) as (s' & Hrun & Hslices & Hind & Hrows).
  exists (length (changedCells ["applicant_name"] (rawData s) (rawData s'))), s'.
  split; [exact Hrun|]. split; [done|]. split; [done|]. split; [|done].
  intros i row Hrow. destruct (Hrows i row Hrow) as (row' & Hrow' & Hf).
  exists row'. split; [done|]. split.
  - intros f Hne. rewrite Hf. rewrite decide_False; [done|].
    by intros ->%list_elem_of_singleton.
  - rewrite Hf. rewrite decide_True by (by apply list_elem_of_singleton).
    unfold titledValue.
    destruct (row !! "applicant_name") as [[z|name]|]; try done.
    case_bool_decide as Hblank; simpl.
    + rewrite decide_False by done. case_bool_decide as Hne; [done|].
      by rewrite Hne.
    + by rewrite decide_True.
Qed.

(** X3 (normalizePhones): on a grid whose rows carry pairwise distinct
    indices, a click on "Normalize Phones" rewrites the phone of every row
    for which [normalizePhone] returns a non-empty number to that number,
    and no other cell; a phone that is missing, numeric, blank or not
    recognised as a phone number stays as typed; the count returned is the
    number of cells whose value changed. *)
Theorem normalizePhones_effect (s : ImportState) :
  NoDup (indices (rawData s)) →
  ∃ n s',
    rendered normalizePhones s = (Some n, s')
    ∧ with_rawData (rawData s) s' = s
    ∧ indices (rawData s') = indices (rawData s)
    ∧ (∀ i row, rawData s !! i = Some row →
         ∃ row', rawData s' !! i = Some row'
           ∧ (∀ f, f ≠ "phone" → row' !! f = row !! f)
           ∧ row' !! "phone"
             = match row !! "phone" with
               | Some (JStr phone) =>
                   match normalizePhone phone with
                   | Some normalized =>
                       if decide (normalized = []) then Some (JStr phone)
                       else Some (JStr normalized)
                   | None => Some (JStr phone)
                   end
               | other => other
               end)
    ∧ n = length (changedCells ["phone"] (rawData s) (rawData s')).
Proof.
  intros Hnd.
  assert (Hfields : NoDup ["phone"]).
  { apply (bool_decide_unpack _). by vm_compute. }
  assert (Hidx : "_rowIndex" ∉ ["phone"]).
  { apply (bool_decide_unpack _). by vm_compute. }
  destruct (operation_effect ["phone"] normalizedValue normalizePhones_row s
              normalizePhones_row_fieldwise Hfields Hidx Hnd
              normalizedValue_changes) as (s' & Hrun & Hslices & Hind & Hrows).
  exists (length (changedCells ["phone"] (rawData s) (rawData s'))), s'.
  split; [exact Hrun|]. split; [done|]. split; [done|]. split; [|done].
  intros i row Hrow. destruct (Hrows i row Hrow) as (row' & Hrow' & Hf).
  exists row'. split; [done|]. split.
  - intros f Hne. rewrite Hf. rewrite decide_False; [done|].
    by intros ->%list_elem_of_singleton.
  - rewrite Hf. rewrite decide_True by (by apply list_elem_of_singleton).
    unfold normalizedValue.
    destruct (row !! "phone") as [[z|phone]|]; try done.
    destruct (normalizePhone phone) as [n|]; [|done].
    case_bool_decide as Hempty; simpl.
    + rewrite decide_False by done. case_bool_decide as Hne; [done|].
      by rewrite Hne.
    + by rewrite decide_True.
Qed.

End ToolbarEffects.

Section PriorityDefault.
Context `{Platform}.

Lemma priority_blank_typed row b :
  priority_blank (row !! "priority") = Some b → priority_typed row.
Proof.
  unfold priority_blank, priority_typed.
  destruct (row !! "priority") as [[z|p]|]; try done. simpl.
  destruct (z =? 0) eqn:Hz; [|done]. intros _. by apply Z.eqb_eq.
Qed.

Lemma priority_typed_blank row :
  priority_typed row → is_Some (priority_blank (row !! "priority")).
Proof.
  unfold priority_blank, priority_typed.
  destruct (row !! "priority") as [[z|p]|]; simpl.
  - intros ->. by eexists.
  - intros _. destruct (bool_decide (p = [])); simpl; by eexists.
  - by eexists.
Qed.

Lemma setDefaultPriority_updates_untyped rows :
  ¬ Forall priority_typed rows → setDefaultPriority_updates rows = None.
Proof.
  intros Hex%not_Forall_Exists; [|apply _].
  induction Hex as [row rows Hrow|row rows _ IH]; simpl.
  - destruct (setDefaultPriority_row row) as [edits|] eqn:Hedits; [|done].
    exfalso. apply Hrow. unfold setDefaultPriority_row in Hedits.
    destruct (priority_blank (row !! "priority")) as [b|] eqn:Hb; [|done].
    by apply (priority_blank_typed row b).
  - rewrite IH. by destruct (setDefaultPriority_row row).
Qed.

(** X4 (setDefaultPriority): on a grid whose rows carry pairwise distinct
    indices and whose priorities are strings or absent, a click on "Set
    Default Priority" writes LOW to the priority of every row whose
    priority is absent, empty or white space only, and changes no other
    cell; afterwards no row has a blank priority; the count returned is
    the number of cells whose value changed; and a second click, on the
    re-rendered toolbar, changes nothing and returns 0. *)
Theorem setDefaultPriority_effect (s : ImportState) :
  NoDup (indices (rawData s)) →
  Forall priority_typed (rawData s) →
  ∃ n s',
    rendered setDefaultPriority s = (Some n, s')
    ∧ with_rawData (rawData s) s' = s
    ∧ indices (rawData s') = indices (rawData s)
    ∧ (∀ i row, rawData s !! i = Some row →
         ∃ row', rawData s' !! i = Some row'
           ∧ (∀ f, f ≠ "priority" → row' !! f = row !! f)
           ∧ row' !! "priority"
             = match priority_blank (row !! "priority") with
               | Some true => Some (JStr (u "LOW"))
               | _ => row !! "priority"
               end
           ∧ priority_blank (row' !! "priority") = Some false)
    ∧ n = length (changedCells ["priority"] (rawData s) (rawData s'))
    ∧ rendered setDefaultPriority s' = (Some 0%nat, s').
Proof.
  intros Hnd Htyped.
  assert (Hfields : NoDup ["priority"]).
  { apply (bool_decide_unpack _). by vm_compute. }
  assert (Hidx : "_rowIndex" ∉ ["priority"]).
  { apply (bool_decide_unpack _). by vm_compute. }
  destruct (operation_effect ["priority"] defaultedValue defaultPriority_edits s
              defaultPriority_edits_fieldwise Hfields Hidx Hnd
              defaultedValue_changes) as (s' & Hrun & Hslices & Hind & Hrows).
  assert (Hcells : ∀ i row, rawData s !! i = Some row →
         ∃ row', rawData s' !! i = Some row'
           ∧ (∀ f, f ≠ "priority" → row' !! f = row !! f)
           ∧ row' !! "priority"
             = match priority_blank (row !! "priority") with
               | Some true => Some (JStr (u "LOW"))
               | _ => row !! "priority"
               end
           ∧ priority_blank (row' !! "priority") = Some false).
  { intros i row Hrow. destruct (Hrows i row Hrow) as (row' & Hrow' & Hf).
    assert (Hp : row' !! "priority"
                 = match priority_blank (row !! "priority") with
                   | Some true => Some (JStr (u "LOW"))
                   | _ => row !! "priority"
                   end).
    { rewrite Hf, decide_True by (by apply list_elem_of_singleton).
      unfold defaultedValue.
      by destruct (priority_blank (row !! "priority")) as [[|]|]. }
    exists row'. split; [done|]. split; [|split; [done|]].
    - intros f Hne. rewrite Hf. rewrite decide_False; [done|].
      by intros ->%list_elem_of_singleton.
    - rewrite Hp.
      destruct (priority_typed_blank row) as [b Hb].
      { rewrite Forall_forall in Htyped. apply Htyped.
        apply list_elem_of_lookup. by exists i. }
      rewrite Hb. destruct b; [by vm_compute|done]. }
  assert (Htyped' : Forall priority_typed (rawData s')).
  { apply Forall_forall. intros row' [i Hrow']%list_elem_of_lookup.
    destruct (lookup_same_length (rawData s) (rawData s') i row'
                (indices_length _ _ Hind) Hrow') as [row Hrow].
    destruct (Hcells i row Hrow) as (row'' & Hrow'' & _ & _ & Hblank).
    assert (row'' = row') as -> by congruence.
    by apply (priority_blank_typed row' false). }
  exists (length (changedCells ["priority"] (rawData s) (rawData s'))), s'.
  split.
  { unfold rendered, setDefaultPriority.
    by rewrite (setDefaultPriority_updates_typed _ Htyped). }
  split; [done|]. split; [done|]. split; [done|]. split; [done|].
  unfold rendered, setDefaultPriority.
  rewrite (setDefaultPriority_updates_typed _ Htyped').
  apply (operation_idle ["priority"] defaultedValue defaultPriority_edits s'
           defaultPriority_edits_fieldwise).
  intros row' f [i Hrow']%list_elem_of_lookup ->%list_elem_of_singleton.
  destruct (lookup_same_length (rawData s) (rawData s') i row'
              (indices_length _ _ Hind) Hrow') as [row Hrow].
  destruct (Hcells i row Hrow) as (row'' & Hrow'' & _ & _ & Hblank).
  assert (row'' = row') as -> by congruence.
  unfold defaultedValue. by rewrite Hblank.
Qed.

(** X5 (setDefaultPriority, fixAll): when some row holds a number other
    than 0 as its priority, "Set Default Priority" throws before it writes
    anything, and "Fix All Issues" throws after the edits of its first
    three operations are committed: the store holds them, and no count is
    returned. *)
Theorem numeric_priority_throws (s : ImportState) :
  ¬ Forall priority_typed (rawData s) →
  rendered setDefaultPriority s = (None, s)
  ∧ clickFixAll s
    = (None,
       updateMultipleRows
         (trimWhitespace_updates (rawData s)
          ++ titleCaseNames_updates (rawData s)
          ++ normalizePhones_updates (rawData s)) s).
Proof.
  intros Huntyped. split.
  - unfold rendered, setDefaultPriority.
    by rewrite (setDefaultPriority_updates_untyped _ Huntyped).
  - unfold clickFixAll, rendered, fixAll, trimWhitespace, titleCaseNames,
      normalizePhones, setDefaultPriority, mbind, Action_bind.
    rewrite (setDefaultPriority_updates_untyped _ Huntyped), !commitUpdates_run.
    unfold throw. by rewrite !updateMultipleRows_app.
Qed.

End PriorityDefault.

Lemma trimWhitespace_effect_witness :
  NoDup (indices (rawData untidyStore))
  ∧ ∃ n s',
      rendered trimWhitespace untidyStore = (Some n, s')
      ∧ n = length (changedCells trimmedFields (rawData untidyStore) (rawData s'))
      ∧ rendered trimWhitespace s' = (Some 0%nat, s').
Proof.
  assert (Hnd : NoDup (indices (rawData untidyStore))).
  { apply (bool_decide_unpack _). vm_compute. reflexivity. }
  split; [exact Hnd|].
  destruct (trimWhitespace_effect untidyStore Hnd)
    as (n & s' & Hrun & _ & _ & _ & Hn & Hidle).
  exists n, s'. split; [exact Hrun|]. split; [exact Hn|exact Hidle].
Defined.

Lemma titleCaseNames_effect_witness :
  NoDup (indices (rawData untidyStore))
  ∧ ∃ n s',
      @rendered nat (@titleCaseNames refPlatform) untidyStore = (Some n, s')
      ∧ indices (rawData s') = indices (rawData untidyStore).
Proof.
  assert (Hnd : NoDup (indices (rawData untidyStore))).
  { apply (bool_decide_unpack _). vm_compute. reflexivity. }
  split; [exact Hnd|].
  destruct (@titleCaseNames_effect refPlatform untidyStore Hnd)
    as (n & s' & Hrun & _ & Hind & _).
  exists n, s'. split; [exact Hrun|exact Hind].
Defined.

Lemma normalizePhones_effect_witness :
  NoDup (indices (rawData untidyStore))
  ∧ ∃ n s',
      @rendered nat (@normalizePhones refPlatform) untidyStore = (Some n, s')
      ∧ indices (rawData s') = indices (rawData untidyStore).
Proof.
  assert (Hnd : NoDup (indices (rawData untidyStore))).
  { apply (bool_decide_unpack _). vm_compute. reflexivity. }
  split; [exact Hnd|].
  destruct (@normalizePhones_effect refPlatform untidyStore Hnd)
    as (n & s' & Hrun & _ & Hind & _).
  exists n, s'. split; [exact Hrun|exact Hind].
Defined.

Lemma setDefaultPriority_effect_witness :
  NoDup (indices (rawData untidyStore))
  ∧ Forall priority_typed (rawData untidyStore)
  ∧ ∃ n s',
      rendered setDefaultPriority untidyStore = (Some n, s')
      ∧ rendered setDefaultPriority s' = (Some 0%nat, s').
Proof.
  assert (Hnd : NoDup (indices (rawData untidyStore))).
  { apply (bool_decide_unpack _). vm_compute. reflexivity. }
  assert (Htyped : Forall priority_typed (rawData untidyStore)).
  { apply (bool_decide_unpack _). vm_compute. reflexivity. }
  split; [exact Hnd|]. split; [exact Htyped|].
  destruct (setDefaultPriority_effect untidyStore Hnd Htyped)
    as (n & s' & Hrun & _ & _ & _ & _ & Hidle).
  exists n, s'. split; [exact Hrun|exact Hidle].
Defined.

Lemma numeric_priority_throws_witness :
  ¬ Forall priority_typed (rawData numericPriorityStore)
  ∧ (@clickFixAll refPlatform numericPriorityStore).1 = None
  ∧ cell (rawData (@clickFixAll refPlatform numericPriorityStore).2) 0 "case_id"
    = Some (JStr (u "C-1")).
Proof.
  assert (Hnum : ¬ Forall priority_typed (rawData numericPriorityStore)).
  { apply (bool_decide_unpack _). vm_compute. reflexivity. }
  split; [exact Hnum|].
  destruct (@numeric_priority_throws refPlatform numericPriorityStore Hnum)
    as [_ Hfix].
  rewrite Hfix. split; [reflexivity|]. vm_compute. reflexivity.
Defined.

(* ===================================================================== *)
(** ** The store: one bulk update and many single updates *)
(* ===================================================================== *)

(** X6 (updateMultipleRows, updateRow): on a grid whose rows carry
    pairwise distinct indices, a bulk update that does not write the index
    field leaves the store as the same edits do when [updateRow] applies
    them one at a time, in list order. *)
Theorem bulk_update_as_single_updates (es : list Update) (s : ImportState) :
  NoDup (indices (rawData s)) →
  Forall (λ e, field e ≠ "_rowIndex") es →
  updateMultipleRows es s
  = foldl (λ st e, updateRow (rowIndex e) (field e) (value e) st) s es.
Proof.
  intros Hnd Hes. revert s Hnd.
  induction Hes as [|e es He _ IH]; intros s Hnd.
  - apply updateMultipleRows_nil.
  - change (e :: es) with ([e] ++ es).
    rewrite updateMultipleRows_app, (updateMultipleRows_single e s Hnd).
    simpl. apply IH. by rewrite updateRow_indices.
Qed.

Lemma bulk_update_as_single_updates_witness :
  NoDup (indices (rawData sampleStore))
  ∧ updateMultipleRows [edit 0 "phone" "111"; edit 1 "phone" "222"] sampleStore
    = updateRow (Some (JNum 1)) "phone" (u "222")
        (updateRow (Some (JNum 0)) "phone" (u "111") sampleStore).
Proof.
  assert (Hnd : NoDup (indices (rawData sampleStore))).
  { apply (bool_decide_unpack _). vm_compute. reflexivity. }
  split; [exact Hnd|].
  apply (bulk_update_as_single_updates
           [edit 0 "phone" "111"; edit 1 "phone" "222"] sampleStore Hnd).
  apply (bool_decide_unpack _). vm_compute. reflexivity.
Defined.

(* ===================================================================== *)
(** ** The validator: what an error record holds *)
(* ===================================================================== *)

Section ErrorRecords.
Context `{Platform}.

Lemma duplicateErrorsAt_wellformed rows i row e :
  e ∈ duplicateErrorsAt rows i row →
  ve_row e = i ∧ ve_field e = "case_id" ∧ ve_value e = row !! "case_id".
Proof.
  unfold duplicateErrorsAt.
  destruct (row !! "case_id") as [c|]; [|by intros ?%elem_of_nil].
  destruct (truthy (Some c)); [|by intros ?%elem_of_nil].
  destruct (firstIndexOf rows c) as [first|]; [|by intros ?%elem_of_nil].
  destruct (first <? i)%nat; [|by intros ?%elem_of_nil].
  by intros ->%list_elem_of_singleton.
Qed.

Lemma fieldErrors_wellformed now i row e :
  e ∈ fieldErrors now i row →
  ve_row e = i ∧ ve_field e ∈ dataFields ∧ ve_value e = row !! ve_field e.
Proof.
  intros He.
  unfold fieldErrors, schemaErrors, CaseSchema_issues in He.
  rewrite !fmap_app, !elem_of_app in He.
  repeat match goal with
         | He : _ ∨ _ |- _ => destruct He as [He|He]
         end;
    try (apply list_elem_of_fmap in He as ([path message] & -> & He);
         apply list_elem_of_fmap in He as (m & [= -> ->] & He);
         simpl; split; [done|split; [|done]];
         apply (bool_decide_unpack _); by vm_compute).
  - unfold categoryError in He. case_match; [|by apply elem_of_nil in He].
    apply list_elem_of_singleton in He as ->. simpl.
    split; [done|split; [|done]]. apply (bool_decide_unpack _). by vm_compute.
  - unfold priorityError in He. case_match; [|by apply elem_of_nil in He].
    apply list_elem_of_singleton in He as ->. simpl.
    split; [done|split; [|done]]. apply (bool_decide_unpack _). by vm_compute.
Qed.

Lemma validation_error_in_range clock rows e :
  e ∈ validationErrorsOf clock rows → (ve_row e < length rows)%nat.
Proof.
  rewrite validationErrorsOf_spec, blocks_elem_of.
  intros (i & row & Hrow & [He|He]%elem_of_app).
  - apply duplicateErrorsAt_wellformed in He as (-> & _).
    by apply lookup_lt_Some in Hrow.
  - apply fieldErrors_wellformed in He as (-> & _).
    by apply lookup_lt_Some in Hrow.
Qed.

(** X7 (validateData): every error the validator records names a row of
    the grid by its position and one of the seven data fields, and carries
    the value that cell holds. *)
Theorem validation_errors_wellformed (clock : nat → Z) (rows : list CSVRow)
  (e : ValidationError) :
  e ∈ validationErrorsOf clock rows →
  ∃ row, rows !! ve_row e = Some row
         ∧ ve_field e ∈ dataFields
         ∧ ve_value e = row !! ve_field e.
Proof.
  rewrite validationErrorsOf_spec, blocks_elem_of.
  intros (i & row & Hrow & [He|He]%elem_of_app).
  - apply duplicateErrorsAt_wellformed in He as (-> & -> & ->).
    exists row. split; [done|]. split; [|done].
    apply (bool_decide_unpack _). by vm_compute.
  - apply fieldErrors_wellformed in He as (-> & Hf & Hv). by exists row.
Qed.

Lemma phone_issues_typed row :
  phone_typed row → phone_issues (or_undefined (row !! "phone")) = [].
Proof.
  unfold phone_typed, or_undefined, js_or.
  destruct (row !! "phone") as [[z|p]|]; simpl; [|by case_match|done].
  by intros ->.
Qed.

Lemma error_block_ext (i : nat) (row row' : CSVRow) (path : string)
  (messages : list jsstring) :
  row' !! mappedField path = row !! mappedField path →
  (λ '(path, message),
     {| ve_row := i; ve_field := mappedField path;
        ve_value := row' !! mappedField path; ve_message := message |})
    <$> (pair path <$> messages)
  = (λ '(path, message),
       {| ve_row := i; ve_field := mappedField path;
          ve_value := row !! mappedField path; ve_message := message |})
      <$> (pair path <$> messages).
Proof.
  intros Heq. rewrite <- !list_fmap_compose. apply list_fmap_ext.
  intros j m _. simpl. by rewrite Heq.
Qed.

Lemma fieldErrors_same_but_phone now i row row' :
  same_but_phone row row' → phone_typed row → phone_typed row' →
  fieldErrors now i row' = fieldErrors now i row.
Proof.
  intros Hsame Hrow Hrow'.
  unfold fieldErrors, schemaErrors, categoryError, priorityError,
    CaseSchema_issues. simpl.
  rewrite (phone_issues_typed row Hrow), (phone_issues_typed row' Hrow').
  rewrite !(Hsame "case_id"), !(Hsame "applicant_name"), !(Hsame "dob"),
    !(Hsame "email"), !(Hsame "category"), !(Hsame "priority") by done.
  rewrite !fmap_app.
  rewrite (error_block_ext i row row' "caseId") by (by apply Hsame).
  rewrite (error_block_ext i row row' "applicantName") by (by apply Hsame).
  rewrite (error_block_ext i row row' "dob") by (by apply Hsame).
  rewrite (error_block_ext i row row' "email") by (by apply Hsame).
  rewrite (error_block_ext i row row' "category") by (by apply Hsame).
  rewrite (error_block_ext i row row' "priority") by (by apply Hsame).
  done.
Qed.

Lemma duplicateCheck_same_but_phone seenIds i row row' :
  same_but_phone row row' →
  duplicateCheck seenIds i row' = duplicateCheck seenIds i row.
Proof.
  intros Hsame. unfold duplicateCheck. by rewrite (Hsame "case_id").
Qed.

Lemma validateFrom_same_but_phone clock index seenIds errors rows rows' :
  Forall2 same_but_phone rows rows' →
  Forall phone_typed rows → Forall phone_typed rows' →
  validateFrom clock index seenIds errors rows'
  = validateFrom clock index seenIds errors rows.
Proof.
  intros Hsame. revert index seenIds errors.
  induction Hsame as [|row row' rows rows' Hrow _ IH];
    intros index seenIds errors Ht Ht'; [done|].
  apply Forall_cons in Ht as [Hp Ht]. apply Forall_cons in Ht' as [Hp' Ht'].
  simpl. rewrite (duplicateCheck_same_but_phone _ _ row row' Hrow).
  destruct (duplicateCheck seenIds index row) as [seenIds' dup].
  rewrite (fieldErrors_same_but_phone _ _ row row' Hrow Hp Hp').
  by apply IH.
Qed.

(** X8 (validateData, CaseSchema): the validator never flags a phone.
    When the phone cells hold strings or nothing, no error names the
    field phone, and the error list is the same whatever those strings
    are. *)
Theorem phone_never_flagged (clock : nat → Z) (rows : list CSVRow) :
  Forall phone_typed rows →
  (∀ e, e ∈ validationErrorsOf clock rows → ve_field e ≠ "phone")
  ∧ (∀ rows', Forall2 same_but_phone rows rows' → Forall phone_typed rows' →
              validationErrorsOf clock rows' = validationErrorsOf clock rows).
Proof.
  intros Htyped. split.
  - intros e. rewrite validationErrorsOf_spec, blocks_elem_of.
    intros (i & row & Hrow & [He|He]%elem_of_app).
    + by apply duplicateErrorsAt_wellformed in He as (_ & -> & _).
    + assert (Hp : phone_typed row).
      { rewrite Forall_forall in Htyped. apply Htyped.
        apply list_elem_of_lookup. by exists i. }
      unfold fieldErrors, schemaErrors, CaseSchema_issues in He. simpl in He.
      rewrite (phone_issues_typed row Hp) in He.
      rewrite !fmap_app, !elem_of_app in He.
      repeat match goal with
             | He : _ ∨ _ |- _ => destruct He as [He|He]
             end;
        try (apply list_elem_of_fmap in He as ([path message] & -> & He);
             apply list_elem_of_fmap in He as (m & [= -> ->] & He);
             by simpl).
      * by apply elem_of_nil in He.
      * unfold categoryError in He. case_match; [|by apply elem_of_nil in He].
        by apply list_elem_of_singleton in He as ->.
      * unfold priorityError in He. case_match; [|by apply elem_of_nil in He].
        by apply list_elem_of_singleton in He as ->.
  - intros rows' Hsame Htyped'. unfold validationErrorsOf.
    by apply validateFrom_same_but_phone.
Qed.

End ErrorRecords.

Lemma validation_errors_wellformed_witness :
  duplicateError 2 (JStr (u "C-1")) 0
    ∈ @validationErrorsOf refPlatform clock_2026_11_01 duplicatedRows
  ∧ ∃ row, duplicatedRows !! ve_row (duplicateError 2 (JStr (u "C-1")) 0)
           = Some row
           ∧ ve_field (duplicateError 2 (JStr (u "C-1")) 0) ∈ dataFields
           ∧ ve_value (duplicateError 2 (JStr (u "C-1")) 0)
             = row !! ve_field (duplicateError 2 (JStr (u "C-1")) 0).
Proof.
  assert (Hin : duplicateError 2 (JStr (u "C-1")) 0
                  ∈ @validationErrorsOf refPlatform clock_2026_11_01 duplicatedRows).
  { apply (bool_decide_unpack _). vm_compute. reflexivity. }
  split; [exact Hin|].
  exact (@validation_errors_wellformed refPlatform clock_2026_11_01
           duplicatedRows _ Hin).
Defined.

Lemma phone_never_flagged_witness :
  Forall phone_typed sampleRows
  ∧ @validationErrorsOf refPlatform clock_2026_11_01
      ((λ row : CSVRow, <["phone" := JStr (u "12345")]> row) <$> sampleRows)
    = @validationErrorsOf refPlatform clock_2026_11_01 sampleRows.
Proof.
  assert (Htyped : Forall phone_typed sampleRows).
  { apply (bool_decide_unpack _). vm_compute. reflexivity. }
  split; [exact Htyped|].
  apply (@phone_never_flagged refPlatform clock_2026_11_01 sampleRows Htyped).
  - apply Forall2_fmap_r, Forall_Forall2_diag, Forall_forall.
    intros row _ f Hne. by apply lookup_insert_ne.
  - apply (bool_decide_unpack _). vm_compute. reflexivity.
Defined.

(* ===================================================================== *)
(** ** The validation panel *)
(* ===================================================================== *)

Section PanelCounts.

Lemma hasError_position errors row i :
  row !! "_rowIndex" = Some (JNum (Z.of_nat i)) →
  hasError errors row = true ↔ i ∈ ve_row <$> errors.
Proof.
  intros Hi. unfold hasError. induction errors as [|e errors IH]; simpl.
  - split; [done|]. by intros ?%elem_of_nil.
  - rewrite orb_true_iff, IH, elem_of_cons, bool_decide_eq_true.
    unfold has_index. rewrite Hi. split.
    + intros [[= Heq]|?]; [left; lia|by right].
    + intros [->|?]; [by left|by right].
Qed.

Lemma filter_length_positions (P : CSVRow → Prop) `{!∀ row, Decision (P row)}
  (Q : nat → Prop) `{!∀ i, Decision (Q i)} (rows : list CSVRow) (k : nat) :
  (∀ j row, rows !! j = Some row → (P row ↔ Q (k + j)%nat)) →
  length (filter P rows) = length (filter Q (seq k (length rows))).
Proof.
  revert k. induction rows as [|row rows IH]; intros k HPQ; [done|].
  simpl. rewrite !filter_cons.
  assert (Hhead : P row ↔ Q k).
  { rewrite (HPQ 0%nat row eq_refl). by rewrite Nat.add_0_r. }
  assert (Htail : length (filter P rows) = length (filter Q (seq (S k) (length rows)))).
  { apply IH. intros j r Hr. rewrite (HPQ (S j) r Hr).
    by replace (k + S j)%nat with (S k + j)%nat by lia. }
  destruct (decide (P row)) as [HP|HP], (decide (Q k)) as [HQ|HQ];
    simpl; rewrite ?Htail; tauto.
Qed.

Lemma count_outside (S : gset nat) (n : nat) :
  (∀ i, i ∈ S → (i < n)%nat) →
  length (filter (λ i, i ∉ S) (seq 0 n)) = (n - size S)%nat.
Proof.
  intros Hrange.
  assert (Hin : length (filter (λ i, i ∈ S) (seq 0 n)) = size S).
  { rewrite <- (size_list_to_set (C := gset nat))
      by apply NoDup_filter, NoDup_seq.
    f_equal. apply set_eq. intros i.
    rewrite elem_of_list_to_set, list_elem_of_filter, elem_of_seq.
    split; [tauto|]. intros Hi. specialize (Hrange i Hi). split; [done|lia]. }
  pose proof (filter_app_complement (λ i, i ∈ S) (seq 0 n)) as Hperm.
  apply Permutation_length in Hperm.
  rewrite length_app, length_seq, Hin in Hperm.
  unfold not in *. lia.
Qed.

Lemma filter_nil_iff {A} (P : A → Prop) `{!∀ a, Decision (P a)} (l : list A) :
  filter P l = [] ↔ ∀ a, a ∈ l → ¬ P a.
Proof.
  split.
  - intros Hnil a Ha HP.
    assert (Hin : a ∈ filter P l) by (by apply list_elem_of_filter).
    rewrite Hnil in Hin. by apply elem_of_nil in Hin.
  - intros Hnone. apply filter_none, Forall_forall. exact Hnone.
Qed.

(** X9 (ValidationPanel, validRows): when the rows are indexed by their
    positions and every recorded error points at a row of the grid, the
    number of valid rows the panel shows is the number of rows the
    submitter will send, and a row is sent exactly when no error names its
    position. *)
Theorem panel_counts_rows_to_submit (w : World) :
  indices (rawData (store w))
  = (λ i, Some (JNum (Z.of_nat i))) <$> seq 0 (length (rawData (store w))) →
  Forall (λ e, (ve_row e < length (rawData (store w)))%nat)
    (validationErrors (store w)) →
  validRowCount (store w) = Z.of_nat (length (validRows (render w)))
  ∧ ∀ i row, rawData (store w) !! i = Some row →
      (row ∈ validRows (render w)
       ↔ errorsOfRow i (validationErrors (store w)) = []).
Proof.
  intros Hidx Hrange.
  assert (Hpos : ∀ i row, rawData (store w) !! i = Some row →
                          row !! "_rowIndex" = Some (JNum (Z.of_nat i))).
  { intros i row Hrow.
    assert (Hi : indices (rawData (store w)) !! i = Some (row !! "_rowIndex")).
    { unfold indices. by rewrite list_lookup_fmap, Hrow. }
    rewrite Hidx, list_lookup_fmap in Hi.
    rewrite lookup_seq_lt in Hi by (by apply lookup_lt_Some in Hrow).
    simpl in Hi. by injection Hi as <-. }
  assert (Hvalid : ∀ i row, rawData (store w) !! i = Some row →
            (hasError (validationErrors (store w)) row = false
             ↔ i ∉ (list_to_set (ve_row <$> validationErrors (store w)) : gset nat))).
  { intros i row Hrow. rewrite elem_of_list_to_set.
    rewrite <- (hasError_position _ row i (Hpos i row Hrow)).
    by destruct (hasError _ row). }
  split.
  - unfold validRowCount, affectedRows, validRows, render. simpl.
    rewrite (filter_length_positions _
               (λ i, i ∉ (list_to_set (ve_row <$> validationErrors (store w))
                          : gset nat)) _ 0 Hvalid).
    rewrite count_outside.
    + assert (Hle : (size (list_to_set (ve_row <$> validationErrors (store w))
                           : gset nat)
                     ≤ length (rawData (store w)))%nat); [|lia].
      etrans;
        [apply (subseteq_size _
                  (list_to_set (seq 0 (length (rawData (store w)))) : gset nat))|].
      * intros i Hi. rewrite elem_of_list_to_set, elem_of_seq.
        apply elem_of_list_to_set, list_elem_of_fmap in Hi as (e & -> & He).
        rewrite Forall_forall in Hrange. specialize (Hrange e He). lia.
      * rewrite size_list_to_set by apply NoDup_seq. by rewrite length_seq.
    + intros i Hi.
      apply elem_of_list_to_set, list_elem_of_fmap in Hi as (e & -> & He).
      rewrite Forall_forall in Hrange. by apply Hrange.
  - intros i row Hrow. unfold validRows, render. simpl.
    rewrite list_elem_of_filter, (Hvalid i row Hrow), elem_of_list_to_set.
    unfold errorsOfRow. rewrite filter_nil_iff, list_elem_of_fmap. split.
    + intros [Hno _] e He Hrow'. apply Hno. by exists e.
    + intros Hno. split; [|apply list_elem_of_lookup; by exists i].
      intros (e & -> & He). by apply (Hno e).
Qed.

End PanelCounts.

Lemma panel_counts_rows_to_submit_witness :
  indices (rawData (store reviewedWorld))
  = (λ i, Some (JNum (Z.of_nat i)))
      <$> seq 0 (length (rawData (store reviewedWorld)))
  ∧ Forall (λ e, (ve_row e < length (rawData (store reviewedWorld)))%nat)
      (validationErrors (store reviewedWorld))
  ∧ validRowCount (store reviewedWorld)
    = Z.of_nat (length (validRows (render reviewedWorld))).
Proof.
  assert (Hidx : indices (rawData (store reviewedWorld))
                 = (λ i, Some (JNum (Z.of_nat i)))
                     <$> seq 0 (length (rawData (store reviewedWorld)))).
  { vm_compute. reflexivity. }
  assert (Hrange : Forall (λ e, (ve_row e < length (rawData (store reviewedWorld)))%nat)
                     (validationErrors (store reviewedWorld))).
  { apply (bool_decide_unpack _). vm_compute. reflexivity. }
  split; [exact Hidx|]. split; [exact Hrange|].
  destruct (panel_counts_rows_to_submit reviewedWorld Hidx Hrange) as [Hcount _].
  exact Hcount.
Defined.

Section PanelBreakdowns.

Lemma totalCount_count grouped key :
  totalCount (count grouped key) = S (totalCount grouped).
Proof.
  unfold count, totalCount. destruct (grouped !! key) as [n|] eqn:Hkey; simpl.
  - rewrite <- (insert_delete_eq grouped key (n + 1)%nat).
    rewrite map_fold_insert_L;
      [|intros; lia|apply lookup_delete_eq].
    rewrite <- (insert_delete_id grouped key n Hkey) at 2.
    rewrite map_fold_insert_L;
      [|intros; lia|apply lookup_delete_eq].
    lia.
  - rewrite map_fold_insert_L; [lia|intros; lia|done].
Qed.

Lemma grouped_total (κ : ValidationError → string) errors :
  totalCount (foldl (λ grouped e, count grouped (κ e)) ∅ errors)
  = length errors.
Proof.
  induction errors as [|e errors IH] using rev_ind; [done|].
  by rewrite foldl_app, length_app, Nat.add_1_r; simpl;
    rewrite totalCount_count, IH.
Qed.

Lemma grouped_lookup (κ : ValidationError → string) errors key :
  foldl (λ grouped e, count grouped (κ e)) ∅ errors !! key
  = tally (length (filter (λ e, κ e = key) errors)).
Proof.
  induction errors as [|e errors IH] using rev_ind; [done|].
  rewrite foldl_app, filter_app, length_app. simpl. unfold count at 1.
  rewrite filter_cons, filter_nil.
  destruct (decide (κ e = key)) as [->|Hne].
  - rewrite lookup_insert_eq, IH. simpl. unfold tally.
    repeat case_decide; simpl; f_equal; lia.
  - rewrite lookup_insert_ne, IH by done. simpl. f_equal. lia.
Qed.

(** X10 (ValidationPanel): the breakdown by field counts, for each field,
    the errors that name it, and the breakdown by type counts the errors
    of each of its three classes; a field or class without error has no
    entry; the counters of each breakdown add up to the number of errors;
    and for errors that name data fields, as the validator's do, the
    breakdown by field has no entry but for data fields. *)
Theorem panel_breakdowns (errors : list ValidationError) :
  Forall (λ e, ve_field e ∈ dataFields) errors →
  (∀ f, errorsByField errors !! f
        = tally (length (filter (λ e, ve_field e = f) errors)))
  ∧ (∀ f, is_Some (errorsByField errors !! f) → f ∈ dataFields)
  ∧ totalCount (errorsByField errors) = length errors
  ∧ (∀ t, errorsByType errors !! t
          = tally (length (filter (λ e, errorType (ve_message e) = t) errors)))
  ∧ (∀ t, is_Some (errorsByType errors !! t) → t ∈ errorTypes)
  ∧ totalCount (errorsByType errors) = length errors.
Proof.
  intros Hfields.
  assert (Hsome : ∀ (κ : ValidationError → string) key,
            is_Some (tally (length (filter (λ e, κ e = key) errors))) →
            ∃ e, e ∈ errors ∧ κ e = key).
  { intros κ key. unfold tally. case_decide as Hn; [by intros [? ?]|].
    intros _. destruct (filter (λ e, κ e = key) errors) as [|e l] eqn:Hl;
      [done|].
    assert (He : e ∈ filter (λ e, κ e = key) errors) by (rewrite Hl; left).
    apply list_elem_of_filter in He as [? ?]. by exists e. }
  split; [intros f; apply grouped_lookup|]. split; [|split].
  - intros f. unfold errorsByField. rewrite grouped_lookup.
    intros (e & He & <-)%Hsome. rewrite Forall_forall in Hfields.
    by apply Hfields.
  - apply (grouped_total ve_field).
  - split; [intros t; apply (grouped_lookup (λ e, errorType (ve_message e)))|].
    split; [|apply (grouped_total (λ e, errorType (ve_message e)))].
    intros t. unfold errorsByType.
    rewrite (grouped_lookup (λ e, errorType (ve_message e))).
    intros (e & He & <-)%Hsome. unfold errorType, errorTypes.
    repeat case_match; apply (bool_decide_unpack _); by vm_compute.
Qed.

End PanelBreakdowns.

Lemma panel_breakdowns_witness :
  Forall (λ e, ve_field e ∈ dataFields) (validationErrors (store reviewedWorld))
  ∧ totalCount (errorsByField (validationErrors (store reviewedWorld)))
    = length (validationErrors (store reviewedWorld))
  ∧ totalCount (errorsByType (validationErrors (store reviewedWorld)))
    = length (validationErrors (store reviewedWorld)).
Proof.
  assert (Hfields : Forall (λ e, ve_field e ∈ dataFields)
                      (validationErrors (store reviewedWorld))).
  { apply (bool_decide_unpack _). vm_compute. reflexivity. }
  split; [exact Hfields|].
  destruct (panel_breakdowns _ Hfields) as (_ & _ & Hf & _ & _ & Ht).
  split; [exact Hf|exact Ht].
Defined.

(* ===================================================================== *)
(** ** The data grid: the errors of a cell *)
(* ===================================================================== *)

Section CellErrors.

Lemma u_inj s1 s2 : u s1 = u s2 → s1 = s2.
Proof.
  unfold u. intros Heq.
  rewrite <- (string_of_list_ascii_of_string s1),
    <- (string_of_list_ascii_of_string s2). f_equal.
  revert Heq. generalize (list_ascii_of_string s1) (list_ascii_of_string s2).
  induction l as [|a l IH]; intros [|b k]; try done.
  rewrite !fmap_cons. intros [= Hab Hlk].
  f_equal; [|by apply IH].
  by rewrite <- (ascii_N_embedding a), <- (ascii_N_embedding b), Hab.
Qed.

Lemma decimal_inj n m : decimal n = decimal m → n = m.
Proof.
  unfold decimal. intros Heq%u_inj.
  apply DecimalN.Unsigned.to_uint_inj.
  assert (Hnil : ∀ k, N.to_uint k ≠ Decimal.Nil).
  { intros [|p]; [done|]. apply DecimalPos.Unsigned.to_uint_nonnil. }
  pose proof (NilZero.usu _ (Hnil n)) as Hn.
  pose proof (NilZero.usu _ (Hnil m)) as Hm.
  rewrite Heq in Hn. congruence.
Qed.

Lemma decimal_digits n :
  Forall (λ c, (48 ≤ c ≤ 57)%N) (decimal n).
Proof.
  unfold decimal.
  assert (Hd : ∀ d, Forall (λ c, (48 ≤ c ≤ 57)%N)
                      (u (NilEmpty.string_of_uint d))).
  { induction d; simpl; try constructor; try done; try (vm_compute; split; discriminate). }
  destruct (N.to_uint n) eqn:Hn; try apply (Hd (N.to_uint n)); rewrite ?Hn;
    try apply Hd.
  repeat constructor; vm_compute; discriminate.
Qed.

Lemma app_pivot_inj {A} (x : A) (l1 l2 k1 k2 : list A) :
  x ∉ l1 → x ∉ l2 → l1 ++ x :: k1 = l2 ++ x :: k2 → l1 = l2 ∧ k1 = k2.
Proof.
  revert l2. induction l1 as [|a l1 IH]; intros [|b l2] H1 H2 Heq; simpl in *.
  - by injection Heq as ->.
  - injection Heq as -> _. exfalso. apply H2. left.
  - injection Heq as -> _. exfalso. apply H1. left.
  - injection Heq as -> Heq.
    destruct (IH l2) as [-> ->]; [| |done|done].
    + intros Hin. apply H1. by right.
    + intros Hin. apply H2. by right.
Qed.

Lemma cellKey_inj r f r' f' :
  cellKey r f = cellKey r' f' → r = r' ∧ f = f'.
Proof.
  unfold cellKey. change (u "-") with [45%N]. simpl. intros Heq.
  assert (Hno : ∀ n, 45%N ∉ decimal n).
  { intros n Hin. pose proof (decimal_digits n) as Hd.
    rewrite Forall_forall in Hd. specialize (Hd _ Hin). lia. }
  apply app_pivot_inj in Heq as [Hr Hf]; [|apply Hno|apply Hno].
  split; [|by apply u_inj]. apply decimal_inj in Hr. lia.
Qed.

Lemma errorMap_lookup errors key :
  errorMap errors !! key
  = match filter (λ e, cellKey (ve_row e) (ve_field e) = key) errors with
    | [] => None
    | l => Some l
    end.
Proof.
  unfold errorMap.
  induction errors as [|e errors IH] using rev_ind; [done|].
  rewrite foldl_app, filter_app. simpl. unfold addError at 1.
  rewrite filter_cons, filter_nil.
  destruct (decide (cellKey (ve_row e) (ve_field e) = key)) as [->|Hne].
  - rewrite lookup_insert_eq, IH.
    by destruct (filter _ errors).
  - rewrite lookup_insert_ne, IH, app_nil_r by done. done.
Qed.

(** X11 (errorMap, getCellErrors): the errors the grid shows in a cell are
    exactly the recorded errors with that row number and that field, in the
    order in which they were recorded; the keys of the error map never
    confuse two cells. *)
Theorem getCellErrors_spec (errors : list ValidationError) (rowIndex : nat)
  (field : string) :
  getCellErrors errors rowIndex field
  = filter (λ e, ve_row e = rowIndex ∧ ve_field e = field) errors.
Proof.
  unfold getCellErrors. rewrite errorMap_lookup.
  rewrite (list_filter_iff _ (λ e, ve_row e = rowIndex ∧ ve_field e = field)).
  - by destruct (filter _ errors).
  - intros e. split.
    + apply cellKey_inj.
    + by intros [-> ->].
Qed.

End CellErrors.

(* ===================================================================== *)
(** ** Editing a cell and validating again *)
(* ===================================================================== *)

Section CellLocality.
Context `{Platform}.

Lemma error_block_field (i : nat) (row : CSVRow) (path : string)
  (messages : list jsstring) :
  Forall (λ e, ve_field e = mappedField path)
    ((λ '(path, message),
        {| ve_row := i; ve_field := mappedField path;
           ve_value := row !! mappedField path; ve_message := message |})
       <$> (pair path <$> messages)).
Proof.
  rewrite <- list_fmap_compose. apply Forall_fmap, Forall_forall.
  by intros m _.
Qed.

Lemma filter_error_block f (i : nat) (row : CSVRow) (path : string)
  (messages : list jsstring) :
  filter (λ e, ve_field e = f)
    ((λ '(path, message),
        {| ve_row := i; ve_field := mappedField path;
           ve_value := row !! mappedField path; ve_message := message |})
       <$> (pair path <$> messages))
  = if decide (mappedField path = f)
    then (λ '(path, message),
            {| ve_row := i; ve_field := mappedField path;
               ve_value := row !! mappedField path; ve_message := message |})
           <$> (pair path <$> messages)
    else [].
Proof.
  case_decide as Hf.
  - apply filter_all. eapply Forall_impl; [apply error_block_field|].
    simpl. by intros e ->.
  - apply filter_none. eapply Forall_impl; [apply error_block_field|].
    simpl. by intros e ->.
Qed.

Lemma filter_categoryError f i row :
  filter (λ e, ve_field e = f) (categoryError i row)
  = if decide ("category" = f) then categoryError i row else [].
Proof.
  unfold categoryError. case_match; [|by case_decide].
  rewrite filter_cons, filter_nil. simpl. by repeat case_decide.
Qed.

Lemma filter_priorityError f i row :
  filter (λ e, ve_field e = f) (priorityError i row)
  = if decide ("priority" = f) then priorityError i row else [].
Proof.
  unfold priorityError. case_match; [|by case_decide].
  rewrite filter_cons, filter_nil. simpl. by repeat case_decide.
Qed.

(** The schema errors and the additional errors of a cell, block by
    block. *)
Lemma filter_fieldErrors f now i row :
  filter (λ e, ve_field e = f) (fieldErrors now i row)
  = filter (λ e, ve_field e = f) (schemaErrors now i row)
    ++ (if decide ("category" = f) then categoryError i row else [])
    ++ (if decide ("priority" = f) then priorityError i row else []).
Proof.
  unfold fieldErrors.
  by rewrite !filter_app, filter_categoryError, filter_priorityError.
Qed.

(** The errors of a cell that come from the schema and from the two
    additional checks depend on the row through that cell alone. *)
Lemma cell_errors_local f now i row row' :
  row' !! f = row !! f →
  filter (λ e, ve_field e = f) (fieldErrors now i row')
  = filter (λ e, ve_field e = f) (fieldErrors now i row).
Proof.
  intros Heq. rewrite !filter_fieldErrors.
  unfold schemaErrors, CaseSchema_issues, categoryError, priorityError. simpl.
  rewrite !fmap_app, !filter_app, !filter_error_block.
  change (mappedField "caseId") with "case_id".
  change (mappedField "applicantName") with "applicant_name".
  change (mappedField "dob") with "dob".
  change (mappedField "email") with "email".
  change (mappedField "phone") with "phone".
  change (mappedField "category") with "category".
  change (mappedField "priority") with "priority".
  repeat match goal with
         | |- context [decide (?g = f)] =>
             destruct (decide (g = f)) as [<-|?]
         end;
    try done; rewrite ?Heq; try done;
    try (rewrite (error_block_ext i row row' "caseId") by exact Heq);
    try (rewrite (error_block_ext i row row' "applicantName") by exact Heq);
    try (rewrite (error_block_ext i row row' "dob") by exact Heq);
    try (rewrite (error_block_ext i row row' "email") by exact Heq);
    try (rewrite (error_block_ext i row row' "phone") by exact Heq);
    try (rewrite (error_block_ext i row row' "category") by exact Heq);
    try (rewrite (error_block_ext i row row' "priority") by exact Heq);
    done.
Qed.

Lemma firstIndexOf_case_ids rows rows' c :
  (λ row : CSVRow, row !! "case_id") <$> rows'
  = (λ row : CSVRow, row !! "case_id") <$> rows →
  firstIndexOf rows' c = firstIndexOf rows c.
Proof.
  intros Hids. unfold firstIndexOf.
  assert (Hfind : ∀ l : list CSVRow,
            fst <$> list_find (λ row, row !! "case_id" = Some c) l
            = fst <$> list_find (λ v, v = Some c)
                        ((λ row : CSVRow, row !! "case_id") <$> l)).
  { intros l. rewrite list_find_fmap, <- option_fmap_compose.
    apply option_fmap_ext. by intros [j row]. }
  by rewrite !Hfind, Hids.
Qed.

Lemma duplicateErrorsAt_case_ids rows rows' i row row' :
  (λ row : CSVRow, row !! "case_id") <$> rows'
  = (λ row : CSVRow, row !! "case_id") <$> rows →
  row' !! "case_id" = row !! "case_id" →
  duplicateErrorsAt rows' i row' = duplicateErrorsAt rows i row.
Proof.
  intros Hids Hid. unfold duplicateErrorsAt. rewrite Hid.
  destruct (row !! "case_id") as [c|]; [|done].
  by rewrite (firstIndexOf_case_ids rows rows' c Hids).
Qed.

Lemma getCellErrors_row errors j f :
  getCellErrors errors j f
  = filter (λ e, ve_field e = f) (errorsOfRow j errors).
Proof.
  unfold getCellErrors, errorsOfRow. rewrite errorMap_lookup, list_filter_filter.
  rewrite (list_filter_iff _ (λ e, ve_field e = f ∧ ve_row e = j)).
  - by destruct (filter _ errors).
  - intros e. split.
    + by intros [-> ->]%cellKey_inj.
    + by intros [-> ->].
Qed.

Lemma errorsOfRow_outside clock rows j :
  (length rows ≤ j)%nat → errorsOfRow j (validationErrorsOf clock rows) = [].
Proof.
  intros Hj. apply filter_nil_iff. intros e He Hrow.
  apply validation_error_in_range in He. lia.
Qed.

Lemma duplicateErrorsAt_field f rows i row :
  f ≠ "case_id" → filter (λ e, ve_field e = f) (duplicateErrorsAt rows i row) = [].
Proof.
  intros Hf. apply filter_nil_iff. intros e He Hfield.
  apply duplicateErrorsAt_wellformed in He as (_ & He & _). congruence.
Qed.

Lemma positions_index rows i row :
  indices rows = (λ i, Some (JNum (Z.of_nat i))) <$> seq 0 (length rows) →
  rows !! i = Some row → row !! "_rowIndex" = Some (JNum (Z.of_nat i)).
Proof.
  intros Hidx Hrow.
  assert (Hi : indices rows !! i = Some (row !! "_rowIndex")).
  { unfold indices. by rewrite list_lookup_fmap, Hrow. }
  rewrite Hidx, list_lookup_fmap in Hi.
  rewrite lookup_seq_lt in Hi by (by apply lookup_lt_Some in Hrow).
  simpl in Hi. by injection Hi as <-.
Qed.

Lemma edited_row s i g v j row :
  indices (rawData s)
  = (λ i, Some (JNum (Z.of_nat i))) <$> seq 0 (length (rawData s)) →
  rawData s !! j = Some row →
  rawData (handleCellChange (Some (JNum (Z.of_nat i))) g v s) !! j
  = Some (if decide (j = i) then assign g v row else row).
Proof.
  intros Hidx Hrow. unfold handleCellChange.
  rewrite updateRow_lookup, Hrow. simpl. f_equal.
  pose proof (positions_index _ j row Hidx Hrow) as Hj.
  destruct (decide (j = i)) as [->|Hne].
  - by rewrite decide_True.
  - rewrite decide_False; [done|]. unfold has_index. rewrite Hj.
    intros [= Heq]. lia.
Qed.

Lemma edited_case_ids s i g v :
  indices (rawData s)
  = (λ i, Some (JNum (Z.of_nat i))) <$> seq 0 (length (rawData s)) →
  g ≠ "case_id" →
  (λ row : CSVRow, row !! "case_id")
    <$> rawData (handleCellChange (Some (JNum (Z.of_nat i))) g v s)
  = (λ row : CSVRow, row !! "case_id") <$> rawData s.
Proof.
  intros Hidx Hg. unfold handleCellChange, updateRow. simpl.
  rewrite <- list_fmap_compose. apply list_fmap_ext. intros j row _. simpl.
  case_decide; [|done]. by apply assign_lookup_ne.
Qed.

(** X12 (handleCellChange, validateData): on a grid indexed by positions,
    an edit of one cell in a field other than the case identifier changes
    the errors of no other cell: validating again gives every other cell
    the errors it had. *)
Theorem cell_edit_is_local (clock : nat → Z) (s : ImportState) (i : nat)
  (g : string) (v : jsstring) (j : nat) (f : string) :
  indices (rawData s)
  = (λ i, Some (JNum (Z.of_nat i))) <$> seq 0 (length (rawData s)) →
  g ≠ "case_id" →
  (j ≠ i ∨ f ≠ g) →
  getCellErrors
    (validationErrors
       (validateData clock
          (handleCellChange (Some (JNum (Z.of_nat i))) g v s))) j f
  = getCellErrors (validationErrors (validateData clock s)) j f.
Proof.
  intros Hidx Hg Hother. rewrite !getCellErrors_row. simpl.
  destruct (rawData s !! j) as [row|] eqn:Hrow.
  - rewrite (errorsOfRow_spec clock (rawData s) j row Hrow).
    rewrite (errorsOfRow_spec clock _ j _ (edited_row s i g v j row Hidx Hrow)).
    rewrite !filter_app. f_equal.
    + f_equal. apply duplicateErrorsAt_case_ids.
      * by apply edited_case_ids.
      * case_decide; [|done]. by apply assign_lookup_ne.
    + case_decide as Hj; [|done]. apply cell_errors_local.
      apply assign_lookup_ne. intros ->. destruct Hother; done.
  - apply lookup_ge_None in Hrow.
    rewrite !errorsOfRow_outside; [done|done|].
    unfold handleCellChange, updateRow. simpl. by rewrite length_fmap.
Qed.

(** X13 (SelectCell, handleCellChange, validateData): on a grid indexed by
    positions, choosing one of the offered categories in the select cell
    of a row leaves that cell without error once the rows are validated
    again, and so does choosing one of the offered priorities or the
    placeholder in the priority cell. *)
Theorem select_cell_choice (clock : nat → Z) (s : ImportState) (i : nat)
  (choice : jsstring) :
  indices (rawData s)
  = (λ i, Some (JNum (Z.of_nat i))) <$> seq 0 (length (rawData s)) →
  (choice ∈ categoryOptions →
   getCellErrors
     (validationErrors
        (validateData clock
           (handleCellChange (Some (JNum (Z.of_nat i))) "category" choice s)))
     i "category" = [])
  ∧ (choice ∈ priorityOptions ∨ choice = [] →
     getCellErrors
       (validationErrors
          (validateData clock
             (handleCellChange (Some (JNum (Z.of_nat i))) "priority" choice s)))
       i "priority" = []).
Proof.
  intros Hidx. split; intros Hchoice; rewrite getCellErrors_row; simpl.
  - destruct (rawData s !! i) as [row|] eqn:Hrow.
    + rewrite (errorsOfRow_spec clock _ i _
                 (edited_row s i "category" choice i row Hidx Hrow)).
      rewrite decide_True by done.
      rewrite filter_app, duplicateErrorsAt_field by done. simpl.
      rewrite filter_fieldErrors.
      unfold schemaErrors, CaseSchema_issues, categoryError. simpl.
      rewrite !fmap_app, !filter_app, !filter_error_block.
      rewrite assign_lookup.
      assert (Hok : enum_ok CategoryEnum (Some (JStr choice)) = true).
      { simpl. by apply bool_decide_eq_true. }
      unfold z_enum. rewrite Hok. simpl. by rewrite andb_false_r.
    + apply lookup_ge_None in Hrow. rewrite errorsOfRow_outside; [done|].
      by rewrite length_fmap.
  - destruct (rawData s !! i) as [row|] eqn:Hrow.
    + rewrite (errorsOfRow_spec clock _ i _
                 (edited_row s i "priority" choice i row Hidx Hrow)).
      rewrite decide_True by done.
      rewrite filter_app, duplicateErrorsAt_field by done. simpl.
      rewrite filter_fieldErrors.
      unfold schemaErrors, CaseSchema_issues, priorityError. simpl.
      rewrite !fmap_app, !filter_app, !filter_error_block.
      rewrite assign_lookup.
      destruct Hchoice as [Hopt| ->].
      * assert (Hok : enum_ok PriorityEnum (Some (JStr choice)) = true).
        { simpl. by apply bool_decide_eq_true. }
        unfold or_undefined, js_or, priority_issues, z_enum.
        destruct (truthy (Some (JStr choice))); rewrite ?Hok; simpl;
          by rewrite ?andb_false_r.
      * done.
    + apply lookup_ge_None in Hrow. rewrite errorsOfRow_outside; [done|].
      by rewrite length_fmap.
Qed.

End CellLocality.

Lemma cell_edit_is_local_witness :
  indices (rawData sampleStore)
  = (λ i, Some (JNum (Z.of_nat i))) <$> seq 0 (length (rawData sampleStore))
  ∧ getCellErrors
      (validationErrors
         (@validateData refPlatform clock_2026_11_01
            (handleCellChange (Some (JNum (Z.of_nat 0))) "category" (u "X")
               sampleStore))) 1 "category"
    = getCellErrors
        (validationErrors (@validateData refPlatform clock_2026_11_01 sampleStore))
        1 "category".
Proof.
  assert (Hidx : indices (rawData sampleStore)
                 = (λ i, Some (JNum (Z.of_nat i)))
                     <$> seq 0 (length (rawData sampleStore))).
  { vm_compute. reflexivity. }
  split; [exact Hidx|].
  apply (@cell_edit_is_local refPlatform clock_2026_11_01 sampleStore 0
           "category" (u "X") 1 "category" Hidx).
  - discriminate.
  - left. lia.
Defined.

Lemma select_cell_choice_witness :
  indices (rawData unorderedStore)
  = (λ i, Some (JNum (Z.of_nat i))) <$> seq 0 (length (rawData unorderedStore))
  ∧ u "TAX" ∈ categoryOptions
  ∧ length (getCellErrors
              (validationErrors
                 (@validateData refPlatform clock_2026_11_01 unorderedStore))
              0 "category") = 2%nat
  ∧ getCellErrors
      (validationErrors
         (@validateData refPlatform clock_2026_11_01
            (handleCellChange (Some (JNum (Z.of_nat 0))) "category" (u "TAX")
               unorderedStore))) 0 "category" = [].
Proof.
  assert (Hidx : indices (rawData unorderedStore)
                 = (λ i, Some (JNum (Z.of_nat i)))
                     <$> seq 0 (length (rawData unorderedStore))).
  { vm_compute. reflexivity. }
  assert (Hin : u "TAX" ∈ categoryOptions).
  { apply (bool_decide_unpack _). vm_compute. reflexivity. }
  split; [exact Hidx|]. split; [exact Hin|]. split; [vm_compute; reflexivity|].
  destruct (@select_cell_choice refPlatform clock_2026_11_01 unorderedStore 0
              (u "TAX") Hidx) as [Hcategory _].
  exact (Hcategory Hin).
Defined.

(* ===================================================================== *)
(** ** The dropzone: from parsed records to rows *)
(* ===================================================================== *)

Section UploadFacts.

Lemma dataField_cell (k : string) (x : jsstring) (y : jsstring) :
  k ∈ dataFields → x = y →
  Some (JStr x)
  = if decide (k ∈ dataFields) then Some (JStr y) else None.
Proof. intros Hk ->. by rewrite decide_True. Qed.

Lemma toCSVRow_lookup i row k :
  k ≠ "_rowIndex" →
  toCSVRow i row !! k = cellOf i row k.
Proof.
  intros Hk. unfold toCSVRow, cellOf. rewrite decide_False by done.
  rewrite lookup_union, lookup_fmap.
  rewrite (lookup_insert_ne _ "_rowIndex") by done.
  destruct (row !! k) as [v|] eqn:Hv.
  - match goal with |- _ ∪ ?d = _ => by destruct d end.
  - match goal with |- _ ∪ ?d = _ => change (None ∪ d) with d end.
    destruct (decide (k = "case_id")) as [->|].
    { rewrite lookup_insert_eq, Hv. apply dataField_cell.
      - apply (bool_decide_unpack _). by vm_compute.
      - simpl. by destruct (row !! "caseId") as [[|]|]. }
    rewrite (lookup_insert_ne _ "case_id") by done.
    destruct (decide (k = "applicant_name")) as [->|].
    { rewrite lookup_insert_eq, Hv. apply dataField_cell.
      - apply (bool_decide_unpack _). by vm_compute.
      - simpl. by destruct (row !! "applicantName") as [[|]|]. }
    rewrite (lookup_insert_ne _ "applicant_name") by done.
    destruct (decide (k = "dob")) as [->|].
    { rewrite lookup_insert_eq, Hv. apply dataField_cell.
      - apply (bool_decide_unpack _). by vm_compute.
      - simpl. by destruct (row !! "dateOfBirth") as [[|]|]. }
    rewrite (lookup_insert_ne _ "dob") by done.
    destruct (decide (k = "email")) as [->|].
    { rewrite lookup_insert_eq, Hv. apply dataField_cell; [|done].
      apply (bool_decide_unpack _). by vm_compute. }
    rewrite (lookup_insert_ne _ "email") by done.
    destruct (decide (k = "phone")) as [->|].
    { rewrite lookup_insert_eq, Hv. apply dataField_cell.
      - apply (bool_decide_unpack _). by vm_compute.
      - simpl. by destruct (row !! "phoneNumber") as [[|]|]. }
    rewrite (lookup_insert_ne _ "phone") by done.
    destruct (decide (k = "category")) as [->|].
    { rewrite lookup_insert_eq, Hv. apply dataField_cell; [|done].
      apply (bool_decide_unpack _). by vm_compute. }
    rewrite (lookup_insert_ne _ "category") by done.
    destruct (decide (k = "priority")) as [->|].
    { rewrite lookup_insert_eq, Hv. apply dataField_cell; [|done].
      apply (bool_decide_unpack _). by vm_compute. }
    rewrite (lookup_insert_ne _ "priority") by done.
    rewrite lookup_empty. rewrite decide_False; [done|].
    unfold dataFields. intros Hin.
    repeat (apply elem_of_cons in Hin as [->|Hin]; [done|]).
    by apply elem_of_nil in Hin.
Qed.

Lemma parseFile_accepts file fields results s :
  u ".csv" `suffix_of` file_name file →
  (file_size file ≤ 50 * 1024 * 1024)%N →
  parseFile file (Complete fields results) s
  = (None, setRawData (imap toCSVRow results) fields (file_name file) s).
Proof.
  intros Hname Hsize. unfold parseFile.
  rewrite bool_decide_true by done. simpl.
  by assert ((50 * 1024 * 1024 <? file_size file)%N = false) as ->
    by (by apply N.ltb_ge).
Qed.

Lemma uploaded_row results fields name s i row :
  results !! i = Some row →
  ∃ row', rawData (setRawData (imap toCSVRow results) fields name s) !! i
          = Some row'
          ∧ ∀ k, row' !! k = cellOf i row k.
Proof.
  intros Hrow. eexists. split.
  - simpl. rewrite !list_lookup_imap, Hrow. reflexivity.
  - intros k. destruct (decide (k = "_rowIndex")) as [->|Hk].
    + by rewrite lookup_insert_eq.
    + rewrite lookup_insert_ne by done. by apply toCSVRow_lookup.
Qed.


(** X15 (parseFile): a file that is refused, or that fails to parse,
    leaves the store as it was; a name that does not end in .csv is
    refused before the size is looked at. *)
Theorem upload_failure_keeps_store (file : File) (parsed : ParseOutcome)
  (s : ImportState) :
  (is_Some (parseFile file parsed s).1 → (parseFile file parsed s).2 = s)
  ∧ (¬ u ".csv" `suffix_of` file_name file →
     parseFile file parsed s = (Some (u "Please upload a CSV file"), s))
  ∧ (u ".csv" `suffix_of` file_name file →
     (50 * 1024 * 1024 < file_size file)%N →
     parseFile file parsed s = (Some (u "File size must be less than 50MB"), s)).
Proof.
  unfold parseFile. split; [|split].
  - case_bool_decide; simpl; [|done].
    destruct (_ <? _)%N; [done|]. destruct parsed; [|done].
    by intros [? ?].
  - intros Hname. by rewrite bool_decide_false.
  - intros Hname Hsize. rewrite bool_decide_true by done. simpl.
    by apply N.ltb_lt in Hsize as ->.
Qed.

End UploadFacts.


Lemma upload_failure_keeps_store_witness :
  ¬ u ".csv" `suffix_of` file_name textFile
  ∧ parseFile textFile (ParseError (u "unexpected end of input")) sampleStore
    = (Some (u "Please upload a CSV file"), sampleStore).
Proof.
  assert (Hname : ¬ u ".csv" `suffix_of` file_name textFile).
  { apply (bool_decide_unpack _). vm_compute. reflexivity. }
  split; [exact Hname|].
  destruct (upload_failure_keeps_store textFile
              (ParseError (u "unexpected end of input")) sampleStore)
    as (_ & Hrefused & _).
  exact (Hrefused Hname).
Defined.

(* ===================================================================== *)
(** ** From the upload to the toolbar: rows of strings *)
(* ===================================================================== *)

Section TypedRows.
Context `{Platform}.

Lemma cellOf_typed i row row' :
  (∀ k, row' !! k = cellOf i row k) → typed_row row'.
Proof.
  intros Hrow'. unfold typed_row. apply Forall_forall. intros f Hf.
  rewrite Hrow'. unfold cellOf.
  rewrite decide_False.
  - destruct (row !! f); [done|]. by rewrite decide_True.
  - intros ->. revert Hf. apply (bool_decide_unpack _). by vm_compute.
Qed.

Lemma assign_typed f v row : typed_row row → typed_row (assign f v row).
Proof.
  unfold typed_row. rewrite !Forall_forall. intros Hrow g Hg.
  destruct (decide (f = g)) as [->|Hne].
  - by rewrite assign_lookup.
  - rewrite assign_lookup_ne by done. by apply Hrow.
Qed.

Lemma updateRow_typed rowIndex f v s :
  Forall typed_row (rawData s) →
  Forall typed_row (rawData (updateRow rowIndex f v s)).
Proof.
  intros Hs. unfold updateRow. simpl. apply Forall_fmap.
  eapply Forall_impl; [exact Hs|]. simpl. intros row Hrow.
  case_decide; [by apply assign_typed|done].
Qed.

Lemma applyUpdate_typed d e :
  Forall typed_row d → Forall typed_row (applyUpdate d e).
Proof.
  intros Hd. unfold applyUpdate.
  destruct (list_find _ d) as [[i row]|] eqn:Hfind; [|done].
  apply list_find_Some in Hfind as (Hrow & _ & _).
  apply Forall_insert; [done|]. apply assign_typed.
  rewrite Forall_forall in Hd. apply Hd, list_elem_of_lookup. by exists i.
Qed.

Lemma updateMultipleRows_typed us s :
  Forall typed_row (rawData s) →
  Forall typed_row (rawData (updateMultipleRows us s)).
Proof.
  rewrite updateMultipleRows_rawData. generalize (rawData s).
  induction us as [|e us IH]; intros d Hd; [done|].
  simpl. by apply IH, applyUpdate_typed.
Qed.

Lemma perform_typed s a :
  Forall typed_row (rawData s) → Forall typed_row (rawData (perform s a)).
Proof.
  destruct a; simpl; try done.
  - apply updateRow_typed.
  - apply updateMultipleRows_typed.
Qed.

Lemma performAll_typed s actions :
  Forall typed_row (rawData s) →
  Forall typed_row (rawData (foldl perform s actions)).
Proof.
  revert s. induction actions as [|a actions IH]; intros s Hs; [done|].
  simpl. by apply IH, perform_typed.
Qed.

Lemma typed_row_priority row : typed_row row → priority_typed row.
Proof.
  unfold typed_row, priority_typed. rewrite Forall_forall. intros Hrow.
  assert (Hp : is_string (row !! "priority")).
  { apply Hrow. apply (bool_decide_unpack _). by vm_compute. }
  by destruct (row !! "priority") as [[z|p]|].
Qed.

(** X16 (parseFile, store actions, fixAll): the rows an upload puts in
    the grid hold strings in their seven data fields, and so do the rows
    after any sequence of edits and other store actions; on such rows "Fix
    All Issues" never throws: it returns a count and leaves rows of
    strings again. *)
Theorem fixAll_after_upload (file : File) (fields : list string)
  (results : list ParsedRow) (s0 : ImportState) (actions : list StoreAction) :
  u ".csv" `suffix_of` file_name file →
  (file_size file ≤ 50 * 1024 * 1024)%N →
  Forall typed_row
    (rawData (foldl perform (parseFile file (Complete fields results) s0).2
                actions))
  ∧ ∃ n s',
      clickFixAll
        (foldl perform (parseFile file (Complete fields results) s0).2 actions)
      = (Some n, s')
      ∧ Forall typed_row (rawData s').
Proof.
  intros Hname Hsize.
  rewrite (parseFile_accepts file fields results s0 Hname Hsize).
  cbn [snd].
  set (s1 := setRawData (imap toCSVRow results) fields (file_name file) s0).
  assert (Htyped1 : Forall typed_row (rawData s1)).
  { apply Forall_forall. intros row' [i Hrow']%list_elem_of_lookup.
    assert (Hlen : length (rawData s1) = length results)
      by (subst s1; simpl; by rewrite !length_imap).
    destruct (lookup_same_length results (rawData s1) i row' Hlen Hrow')
      as [row Hrow].
    destruct (uploaded_row results fields (file_name file) s0 i row Hrow)
      as (row'' & Hrow'' & Hcells).
    assert (row'' = row') as -> by (subst s1; congruence).
    by apply (cellOf_typed i row). }
  pose proof (performAll_typed s1 actions Htyped1) as Htyped.
  split; [exact Htyped|].
  assert (Hpriority : Forall priority_typed (rawData (foldl perform s1 actions))).
  { eapply Forall_impl; [exact Htyped|]. apply typed_row_priority. }
  unfold clickFixAll, rendered, fixAll, trimWhitespace, titleCaseNames,
    normalizePhones, setDefaultPriority, mbind, Action_bind.
  rewrite (setDefaultPriority_updates_typed _ Hpriority), !commitUpdates_run.
  simpl. eexists _, _. split; [reflexivity|].
  by do 4 apply updateMultipleRows_typed.
Qed.

End TypedRows.

Lemma fixAll_after_upload_witness :
  u ".csv" `suffix_of` file_name sampleFile
  ∧ (file_size sampleFile ≤ 50 * 1024 * 1024)%N
  ∧ ∃ n s',
      @clickFixAll refPlatform
        (foldl perform (parseFile sampleFile sampleParse initialState).2
           [UpdateRow (Some (JNum 1)) "phone" (u "9876543210")])
      = (Some n, s').
Proof.
  assert (Hname : u ".csv" `suffix_of` file_name sampleFile).
  { apply (bool_decide_unpack _). vm_compute. reflexivity. }
  assert (Hsize : (file_size sampleFile ≤ 50 * 1024 * 1024)%N).
  { vm_compute. discriminate. }
  split; [exact Hname|]. split; [exact Hsize|].
  destruct (@fixAll_after_upload refPlatform sampleFile
              ["caseId"; "applicant_name"; "dob"; "category"]
              [parsedRecord "C-1" " asha rao" "1990-03-14" "TAX";
               parsedRecord "C-2" "Ravi Iyer" "1985-07-02" "PERMIT"]
              initialState
              [UpdateRow (Some (JNum 1)) "phone" (u "9876543210")]
              Hname Hsize) as (_ & n & s' & Hrun & _).
  exists n, s'. exact Hrun.
Defined.

(* ===================================================================== *)
(** ** The report of failed rows reads back *)
(* ===================================================================== *)

Section ReportFacts.

Lemma step_lineFeed r : mode r = QuoteSeen → step r lineFeed = endRecord r.
Proof. intros Hmode. unfold step. by rewrite Hmode. Qed.

Lemma read_escaped v acc F R :
  foldl step {| mode := Quoted; current := acc; fields := F; records := R |}
    (escapeQuotes v)
  = {| mode := Quoted; current := reverse v ++ acc; fields := F; records := R |}.
Proof.
  revert acc. induction v as [|c v IH]; intros acc; [done|].
  unfold escapeQuotes. csimpl. fold (escapeQuotes v).
  rewrite foldl_app, reverse_cons, <- app_assoc. simpl.
  destruct (c =? dquote)%N eqn:Hc.
  - apply N.eqb_eq in Hc as ->. simpl. apply IH.
  - simpl. unfold step at 2. simpl. rewrite Hc. apply IH.
Qed.

Lemma read_quoted v F R :
  foldl step {| mode := FieldStart; current := []; fields := F; records := R |}
    ([dquote] ++ escapeQuotes v ++ [dquote])
  = {| mode := QuoteSeen; current := reverse v; fields := F; records := R |}.
Proof.
  rewrite (foldl_app step [dquote] (escapeQuotes v ++ [dquote])).
  rewrite (foldl_app step (escapeQuotes v) [dquote]).
  change (foldl step
            {| mode := FieldStart; current := []; fields := F; records := R |}
            [dquote])
    with {| mode := Quoted; current := []; fields := F; records := R |}.
  by rewrite read_escaped, app_nil_r.
Qed.

Lemma read_line v vs F R :
  mode (foldl step
          {| mode := FieldStart; current := []; fields := F; records := R |}
          (join (u ",") ((λ x : jsstring, [dquote] ++ escapeQuotes x ++ [dquote])
                           <$> (v :: vs))))
  = QuoteSeen
  ∧ endField (foldl step
                {| mode := FieldStart; current := []; fields := F; records := R |}
                (join (u ",") ((λ x : jsstring, [dquote] ++ escapeQuotes x ++ [dquote])
                                 <$> (v :: vs))))
    = {| mode := FieldStart; current := [];
         fields := reverse (v :: vs) ++ F; records := R |}.
Proof.
  revert v F. induction vs as [|v' vs IH]; intros v F.
  - rewrite fmap_cons, fmap_nil.
    change (join (u ",") [[dquote] ++ escapeQuotes v ++ [dquote]])
      with ([dquote] ++ escapeQuotes v ++ [dquote]).
    rewrite read_quoted. split; [done|].
    unfold endField. simpl. by rewrite reverse_involutive.
  - rewrite fmap_cons.
    change (join (u ",")
              (([dquote] ++ escapeQuotes v ++ [dquote])
               :: ((λ x : jsstring, [dquote] ++ escapeQuotes x ++ [dquote]) <$> v' :: vs)))
      with (([dquote] ++ escapeQuotes v ++ [dquote]) ++ [comma]
            ++ join (u ",")
                 ((λ x : jsstring, [dquote] ++ escapeQuotes x ++ [dquote]) <$> v' :: vs)).
    rewrite foldl_app, read_quoted, foldl_app.
    change (foldl step
              {| mode := QuoteSeen; current := reverse v; fields := F;
                 records := R |} [comma])
      with {| mode := FieldStart; current := [];
              fields := reverse (reverse v) :: F; records := R |}.
    rewrite reverse_involutive.
    destruct (IH v' (v :: F)) as [Hmode Hend]. split; [exact Hmode|].
    rewrite Hend. f_equal. by rewrite (reverse_cons (v' :: vs) v), <- app_assoc.
Qed.

Lemma endRecord_endField r :
  endRecord r
  = {| mode := FieldStart; current := []; fields := [];
       records := reverse (fields (endField r)) :: records (endField r) |}.
Proof. done. Qed.

Lemma read_record v vs R :
  mode (foldl step
          {| mode := FieldStart; current := []; fields := []; records := R |}
          (join (u ",") (quoted <$> (v :: vs)))) = QuoteSeen
  ∧ endRecord (foldl step
                 {| mode := FieldStart; current := []; fields := [];
                    records := R |}
                 (join (u ",") (quoted <$> (v :: vs))))
    = {| mode := FieldStart; current := []; fields := [];
         records := (toString <$> (v :: vs)) :: R |}.
Proof.
  assert (Hq : quoted <$> (v :: vs)
               = (λ x : jsstring, [dquote] ++ escapeQuotes x ++ [dquote])
                   <$> (toString <$> (v :: vs))).
  { by rewrite <- list_fmap_compose. }
  rewrite Hq, fmap_cons.
  destruct (read_line (toString v) (toString <$> vs) [] R) as [Hmode Hend].
  split; [exact Hmode|].
  rewrite endRecord_endField, Hend.
  cbn [Csv.fields Csv.records]. by rewrite app_nil_r, reverse_involutive.
Qed.

Lemma read_records (line : list (option jsval)) lines R :
  line ≠ [] → Forall (λ l, l ≠ []) lines →
  mode (foldl step
          {| mode := FieldStart; current := []; fields := []; records := R |}
          (join [lineFeed]
             ((λ l : list (option jsval), join (u ",") (quoted <$> l)) <$> (line :: lines))))
  = QuoteSeen
  ∧ endRecord (foldl step
                 {| mode := FieldStart; current := []; fields := [];
                    records := R |}
                 (join [lineFeed]
                    ((λ l : list (option jsval), join (u ",") (quoted <$> l)) <$> (line :: lines))))
    = {| mode := FieldStart; current := []; fields := [];
         records := reverse ((λ l : list (option jsval), toString <$> l) <$> (line :: lines)) ++ R |}.
Proof.
  intros Hline Hlines. revert line Hline R.
  induction Hlines as [|line' lines Hline' _ IH]; intros line Hline R.
  - destruct line as [|v vs]; [done|].
    rewrite fmap_cons, fmap_nil.
    change (join [lineFeed] [join (u ",") (quoted <$> v :: vs)])
      with (join (u ",") (quoted <$> v :: vs)).
    destruct (read_record v vs R) as [Hmode Hend]. split; [exact Hmode|].
    by rewrite Hend.
  - destruct line as [|v vs]; [done|].
    rewrite fmap_cons.
    change (join [lineFeed]
              (join (u ",") (quoted <$> v :: vs)
               :: ((λ l : list (option jsval), join (u ",") (quoted <$> l)) <$> line' :: lines)))
      with (join (u ",") (quoted <$> v :: vs) ++ [lineFeed]
            ++ join [lineFeed]
                 ((λ l : list (option jsval), join (u ",") (quoted <$> l)) <$> line' :: lines)).
    rewrite foldl_app, foldl_app.
    destruct (read_record v vs R) as [Hmode Hend].
    assert (Hstep : foldl step
                      (foldl step
                         {| mode := FieldStart; current := []; fields := [];
                            records := R |}
                         (join (u ",") (quoted <$> v :: vs))) [lineFeed]
                    = {| mode := FieldStart; current := []; fields := [];
                         records := (toString <$> (v :: vs)) :: R |}).
    { cbn [foldl]. by rewrite step_lineFeed. }
    rewrite Hstep.
    destruct (IH line' Hline' ((toString <$> (v :: vs)) :: R))
      as [Hmode' Hend'].
    split; [exact Hmode'|]. rewrite Hend'. f_equal.
    rewrite (fmap_cons _ (v :: vs)), reverse_cons.
    by rewrite <- app_assoc.
Qed.

(** X17 (downloadErrorsCSV): the report is produced exactly when some row
    carries the case identifier of a failed result; its text is
    comma-separated text whose first record is the header and whose other
    records are, in grid order, the eight values of the failed rows, read
    back unchanged whatever commas, line feeds and double quotes they
    contain. *)
Theorem error_report_reads_back (r : Render) :
  (downloadErrorsCSV r = None ↔ failedRows r = [])
  ∧ ∀ text, downloadErrorsCSV r = Some text →
      readCsv text
      = Some (reportHeaders :: (reportCells (r_batchResults r) <$> failedRows r)).
Proof.
  unfold downloadErrorsCSV. split.
  - case_bool_decide as Hlen.
    + split; [|done]. intros _. by apply nil_length_inv.
    + split; [done|]. intros Hnil. by rewrite Hnil in Hlen.
  - intros text. destruct (failedRows r) as [|row rows]; [done|].
    rewrite bool_decide_false by done. cbv zeta. intros Htext.
    apply (inj Some) in Htext. subst text.
    assert (Hlines :
              (λ row : CSVRow,
                 join (u ",") (quoted <$> reportValues (r_batchResults r) row))
                <$> (row :: rows)
              = (λ l : list (option jsval), join (u ",") (quoted <$> l))
                  <$> (reportValues (r_batchResults r) row
                       :: (reportValues (r_batchResults r) <$> rows))).
    { rewrite !fmap_cons. f_equal. by rewrite <- list_fmap_compose. }
    rewrite Hlines.
    change (join [10%N]
              (join (u ",") reportHeaders
               :: ((λ l : list (option jsval), join (u ",") (quoted <$> l))
                     <$> (reportValues (r_batchResults r) row
                          :: (reportValues (r_batchResults r) <$> rows)))))
      with (join (u ",") reportHeaders ++ [lineFeed]
            ++ join [lineFeed]
                 ((λ l : list (option jsval), join (u ",") (quoted <$> l))
                    <$> (reportValues (r_batchResults r) row
                         :: (reportValues (r_batchResults r) <$> rows)))).
    unfold readCsv. rewrite foldl_app, foldl_app.
    change (foldl step (foldl step start (join (u ",") reportHeaders)) [lineFeed])
      with {| mode := FieldStart; current := []; fields := [];
              records := [reportHeaders] |}.
    destruct (read_records (reportValues (r_batchResults r) row)
                (reportValues (r_batchResults r) <$> rows) [reportHeaders])
      as [Hmode Hend].
    { done. }
    { apply Forall_fmap, Forall_forall. by intros row' _. }
    rewrite Hmode, Hend. simpl. f_equal.
    rewrite reverse_app, reverse_involutive. simpl. f_equal.
    unfold reportCells. by rewrite <- list_fmap_compose.
Qed.

End ReportFacts.

Lemma error_report_reads_back_witness :
  ∃ text,
    downloadErrorsCSV (render afterFirstRun) = Some text
    ∧ readCsv text
      = Some (reportHeaders
              :: (reportCells (r_batchResults (render afterFirstRun))
                    <$> failedRows (render afterFirstRun))).
Proof.
  assert (Hrun : ∃ text, downloadErrorsCSV (render afterFirstRun) = Some text).
  { eexists. vm_compute. reflexivity. }
  destruct Hrun as [text Hrun]. exists text. split; [exact Hrun|].
  destruct (error_report_reads_back (render afterFirstRun)) as [_ Hread].
  exact (Hread text Hrun).
Defined.

(* ===================================================================== *)
(** ** The submitter: the totals of a run *)
(* ===================================================================== *)

Section SubmitterTotals.
Variable r : Render.
Variable env : Environment.

Lemma networkFailure_counts (batch : list CSVRow) :
  length (filter (λ x, br_success x = true) (networkFailure <$> batch)) = 0%nat
  ∧ length (filter (λ x, br_success x = false) (networkFailure <$> batch))
    = length batch.
Proof.
  induction batch as [|row batch [IH1 IH2]]; [done|].
  rewrite fmap_cons, !filter_cons. simpl. by rewrite IH1, IH2.
Qed.

Lemma submitBatch_counters id tb i c w :
  (submitBatch r env id tb i c w).1
  = {| successCount :=
         successCount c
         + length (filter (λ x, br_success x = true) (batchOutcome r env i));
       failedCount :=
         failedCount c
         + length (filter (λ x, br_success x = false) (batchOutcome r env i)) |}.
Proof.
  unfold submitBatch, batchOutcome, batchRows.
  destruct (postBatch env i _); simpl; [done|].
  match goal with
  | |- context [networkFailure <$> ?b] =>
      destruct (networkFailure_counts b) as [-> ->]
  end.
  by rewrite Nat.add_0_r.
Qed.

Lemma batchLoop_counters id tb ixs c w :
  r_isCancelled r = false →
  (batchLoop r env id tb ixs c w).1
  = {| successCount :=
         successCount c
         + length (filter (λ x, br_success x = true)
                     (mjoin (batchOutcome r env <$> ixs)));
       failedCount :=
         failedCount c
         + length (filter (λ x, br_success x = false)
                     (mjoin (batchOutcome r env <$> ixs))) |}.
Proof.
  intros Hc. induction ixs as [|i ixs IH] using rev_ind.
  - simpl. rewrite !Nat.add_0_r. by destruct c.
  - rewrite (batchLoop_snoc _ _ _ _ _ _ _ _ Hc), submitBatch_counters, IH.
    simpl. rewrite fmap_app, join_app, !filter_app, !length_app. simpl.
    rewrite !app_nil_r. f_equal; lia.
Qed.

Lemma batchLoop_importId id tb ixs c w :
  importId (store (batchLoop r env id tb ixs c w).2) = importId (store w).
Proof.
  revert c w. induction ixs as [|i ixs IH]; intros c w; simpl; [done|].
  destruct (r_isCancelled r); [done|].
  destruct (submitBatch r env id tb i c w) as [c' w'] eqn:Hstep.
  rewrite IH. replace w' with (submitBatch r env id tb i c w).2 by (by rewrite Hstep).
  unfold submitBatch. by destruct (postBatch env i _), (cancelClicked env i).
Qed.

Lemma batchLoop_progress_counts id tb ixs i c w :
  r_isCancelled r = false →
  ∃ p, progress (store (batchLoop r env id tb (ixs ++ [i]) c w).2) = Some p
       ∧ success p = successCount (batchLoop r env id tb (ixs ++ [i]) c w).1
       ∧ failed p = failedCount (batchLoop r env id tb (ixs ++ [i]) c w).1.
Proof.
  intros Hc. rewrite (batchLoop_snoc _ _ _ _ _ _ _ _ Hc).
  destruct (submitBatch_effect r env id tb i (batchLoop r env id tb ixs c w).1
              (batchLoop r env id tb ixs c w).2) as (_ & _ & -> & _).
  eexists. split; [done|]. done.
Qed.

Lemma run_totals (w : World) (id : jsstring) :
  r_isCancelled r = false →
  (0 < length (validRows r))%nat →
  createImport env (filenameOrDefault (r_filename r)) (length (validRows r))
  = Some id →
  let added :=
    mjoin (batchOutcome r env
             <$> seq 0 (ceilDiv (length (validRows r)) BATCH_SIZE)) in
  batchResults (store (startSubmission r env w))
    = batchResults (store w) ++ added
    ∧ last (sent (startSubmission r env w))
      = Some (PatchImport id COMPLETED
                (length (filter (λ x, br_success x = true) added))
                (length (filter (λ x, br_success x = false) added)))
    ∧ (∃ p, progress (store (startSubmission r env w)) = Some p
            ∧ success p = length (filter (λ x, br_success x = true) added)
            ∧ failed p = length (filter (λ x, br_success x = false) added))
    ∧ importId (store (startSubmission r env w)) = Some id
    ∧ isSubmitting (store (startSubmission r env w)) = false.
Proof.
  intros Hc Hn Hcreate.
  destruct (ceilDiv_spec (length (validRows r)) BATCH_SIZE
              ltac:(unfold BATCH_SIZE; lia)) as [Hup [Hpos Hlow]]; [done|].
  cbv zeta.
  unfold startSubmission. rewrite bool_decide_false by lia.
  rewrite Hcreate, Hc.
  match goal with
  | |- context [batchLoop r env id ?tb ?ixs ?c0 ?w0] =>
      pose proof (batchLoop_effect r env id tb ixs c0 w0 Hc) as (Hs & Hb & _);
      pose proof (batchLoop_counters id tb ixs c0 w0 Hc) as Hcount;
      assert (Hp : ∃ p, progress (store (batchLoop r env id tb ixs c0 w0).2) = Some p
                        ∧ success p = successCount (batchLoop r env id tb ixs c0 w0).1
                        ∧ failed p = failedCount (batchLoop r env id tb ixs c0 w0).1);
      [|assert (Hid : importId (store (batchLoop r env id tb ixs c0 w0).2) = Some id);
        [|destruct (batchLoop r env id tb ixs c0 w0) as [c' w'] eqn:E]]
  end.
  { assert (Hseq : seq 0 (ceilDiv (length (validRows r)) BATCH_SIZE)
                   = seq 0 (ceilDiv (length (validRows r)) BATCH_SIZE - 1)
                     ++ [(ceilDiv (length (validRows r)) BATCH_SIZE - 1)%nat]).
    { pose proof (seq_S (ceilDiv (length (validRows r)) BATCH_SIZE - 1) 0) as HS.
      rewrite Nat.add_0_l in HS. rewrite <- HS. f_equal. lia. }
    rewrite Hseq. by apply batchLoop_progress_counts. }
  { by rewrite batchLoop_importId. }
  simpl in *. subst c'. simpl in *.
  split; [by rewrite Hb|]. split.
  - by rewrite last_snoc.
  - split; [exact Hp|]. split; [exact Hid|done].
Qed.

(** X18 (startSubmission): in a run that was not cancelled when it
    started and whose import record was created, the closing request
    reports the import as completed with the number of successful and of
    failed results the run added to the store, the progress shows the same
    two numbers, the store holds the identifier of the import record, and
    the run ends with the submitting flag lowered. *)
Theorem submission_totals (w : World) (id : jsstring) :
  r_isCancelled r = false →
  (0 < length (validRows r))%nat →
  createImport env (filenameOrDefault (r_filename r)) (length (validRows r))
  = Some id →
  ∃ added,
    batchResults (store (startSubmission r env w))
    = batchResults (store w) ++ added
    ∧ last (sent (startSubmission r env w))
      = Some (PatchImport id COMPLETED
                (length (filter (λ x, br_success x = true) added))
                (length (filter (λ x, br_success x = false) added)))
    ∧ (∃ p, progress (store (startSubmission r env w)) = Some p
            ∧ success p = length (filter (λ x, br_success x = true) added)
            ∧ failed p = length (filter (λ x, br_success x = false) added))
    ∧ importId (store (startSubmission r env w)) = Some id
    ∧ isSubmitting (store (startSubmission r env w)) = false.
Proof.
  intros Hc Hn Hcreate.
  exists (mjoin (batchOutcome r env
                   <$> seq 0 (ceilDiv (length (validRows r)) BATCH_SIZE))).
  exact (run_totals w id Hc Hn Hcreate).
Qed.

End SubmitterTotals.

Lemma submission_totals_witness :
  r_isCancelled (render (idleWorld 250)) = false
  ∧ (0 < length (validRows (render (idleWorld 250))))%nat
  ∧ ∃ added,
      batchResults (store (clickSubmit secondBatchLost (idleWorld 250)))
      = batchResults (store (idleWorld 250)) ++ added
      ∧ last (sent (clickSubmit secondBatchLost (idleWorld 250)))
        = Some (PatchImport (u "imp-1") COMPLETED
                  (length (filter (λ x, br_success x = true) added))
                  (length (filter (λ x, br_success x = false) added))).
Proof.
  assert (Hn : length (validRows (render (idleWorld 250))) = 250%nat)
    by (vm_compute; reflexivity).
  assert (Hpos : (0 < length (validRows (render (idleWorld 250))))%nat)
    by (rewrite Hn; lia).
  split; [reflexivity|]. split; [exact Hpos|].
  destruct (submission_totals (render (idleWorld 250)) secondBatchLost
              (idleWorld 250) (u "imp-1") eq_refl Hpos eq_refl)
    as (added & Hresults & Hlast & _).
  exists added. split; [exact Hresults|exact Hlast].
Defined.

Section SubmitterEdges.
Variable r : Render.
Variable env : Environment.

(** X19 (startSubmission): with no valid row the callback does nothing at
    all; and when the import record cannot be created, the run sends the
    creation request and nothing else, keeps results and progress as they
    were, and ends with the submitting flag lowered. *)
Theorem submission_without_import_record (w : World) :
  (length (validRows r) = 0%nat → startSubmission r env w = w)
  ∧ ((0 < length (validRows r))%nat →
     createImport env (filenameOrDefault (r_filename r)) (length (validRows r))
     = None →
     sent (startSubmission r env w)
     = sent w ++ [CreateImport (filenameOrDefault (r_filename r))
                    (length (validRows r))]
     ∧ batchResults (store (startSubmission r env w)) = batchResults (store w)
     ∧ progress (store (startSubmission r env w)) = progress (store w)
     ∧ importId (store (startSubmission r env w)) = importId (store w)
     ∧ rawData (store (startSubmission r env w)) = rawData (store w)
     ∧ isSubmitting (store (startSubmission r env w)) = false
     ∧ isCancelled (startSubmission r env w) = false).
Proof.
  unfold startSubmission. split.
  - intros Hn. by rewrite bool_decide_true.
  - intros Hn Hcreate. rewrite bool_decide_false by lia. by rewrite Hcreate.
Qed.

End SubmitterEdges.

Lemma submission_without_import_record_witness :
  (0 < length (validRows (render (idleWorld 2))))%nat
  ∧ sent (clickSubmit unreachableServer (idleWorld 2))
    = sent (idleWorld 2)
      ++ [CreateImport (filenameOrDefault (r_filename (render (idleWorld 2))))
            (length (validRows (render (idleWorld 2))))]
  ∧ isSubmitting (store (clickSubmit unreachableServer (idleWorld 2))) = false.
Proof.
  assert (Hn : length (validRows (render (idleWorld 2))) = 2%nat)
    by (vm_compute; reflexivity).
  assert (Hpos : (0 < length (validRows (render (idleWorld 2))))%nat)
    by (rewrite Hn; lia).
  split; [exact Hpos|].
  destruct (submission_without_import_record (render (idleWorld 2))
              unreachableServer (idleWorld 2)) as [_ Hfail].
  destruct (Hfail Hpos eq_refl) as (Hsent & _ & _ & _ & _ & Hflag & _).
  split; [exact Hsent|exact Hflag].
Defined.

(* ===================================================================== *)
(** ** The register form and the register schema *)
(* ===================================================================== *)

Section PasswordRule.
Context `{Platform}.

Lemma ahead_cons class c s :
  is_line_terminator c = false →
  ahead class (c :: s) = class c || ahead class s.
Proof. intros Hc. simpl. by rewrite Hc. Qed.

Lemma strong_here_cons c s :
  is_line_terminator c = false →
  strong_here s = true → strong_here (c :: s) = true.
Proof.
  intros Hc. unfold strong_here. rewrite !(ahead_cons _ c s Hc).
  rewrite !andb_true_iff, !orb_true_iff. tauto.
Qed.

Lemma somewhere_strong_here s :
  Forall (λ c, is_line_terminator c = false) s →
  somewhere strong_here s = strong_here s.
Proof.
  induction 1 as [|c s Hc _ IH].
  - done.
  - simpl in *. rewrite IH.
    destruct (strong_here (c :: s)) eqn:Hhere; [done|]. simpl.
    destruct (strong_here s) eqn:Hs; [|done].
    by rewrite (strong_here_cons c s Hc Hs) in Hhere.
Qed.

Lemma validateForm_password fd :
  validateForm fd !! "password"
  = if bool_decide (fd_password fd = [])
    then Some (u "Password is required")
    else if (length (fd_password fd) <? 8)%nat
    then Some (u "Password must be at least 8 characters")
    else if negb (somewhere strong_here (fd_password fd))
    then Some (u "Password must contain uppercase, lowercase, and a number")
    else None.
Proof.
  unfold validateForm.
  repeat case_match;
    repeat (rewrite lookup_insert_eq || rewrite lookup_insert_ne by done);
    by rewrite ?lookup_empty.
Qed.

Lemma password_issues_nil pw :
  password_issues (Some (JStr pw)) = []
  ↔ (8 ≤ length pw)%nat ∧ strong_here pw = true.
Proof.
  unfold password_issues, z_string. cbn [omap list_omap].
  rewrite <- Nat.leb_le. fold (min_length 8 pw).
  destruct (min_length 8 pw), (strong_here pw); simpl; split;
    (done || by intros [? ?]).
Qed.

(** X20 (validateForm, RegisterSchema): a password the register schema
    accepts is accepted by the form; for a password without line
    terminator, as a password field produces them, the form accepts
    exactly the passwords the schema accepts; and a password of several
    lines can pass the form, whose pattern has no anchor, and fail the
    schema. *)
Theorem password_rule_agrees (fd : FormData) :
  (password_issues (Some (JStr (fd_password fd))) = [] →
   validateForm fd !! "password" = None)
  ∧ (Forall (λ c, is_line_terminator c = false) (fd_password fd) →
     validateForm fd !! "password" = None →
     password_issues (Some (JStr (fd_password fd))) = [])
  ∧ validateForm twoLineForm = ∅
  ∧ password_issues (Some (JStr (fd_password twoLineForm)))
    = [u "Password must contain uppercase, lowercase, and number"].
Proof.
  split; [|split; [|split; by vm_compute]];
    rewrite validateForm_password, password_issues_nil.
  - intros [Hlen Hstrong].
    rewrite bool_decide_false
      by (intros Hnil; rewrite Hnil in Hlen; simpl in Hlen; lia).
    assert ((length (fd_password fd) <? 8)%nat = false) as ->
      by (apply Nat.ltb_ge; lia).
    destruct (fd_password fd) as [|c s]; [done|].
    simpl. by rewrite Hstrong.
  - intros Hline. rewrite (somewhere_strong_here _ Hline).
    case_bool_decide; [done|].
    destruct (length (fd_password fd) <? 8)%nat eqn:Hlen; [done|].
    destruct (strong_here (fd_password fd)) eqn:Hstrong; [|done]. intros _.
    apply Nat.ltb_ge in Hlen. split; [lia|done].
Qed.

End PasswordRule.

Lemma password_rule_agrees_witness :
  Forall (λ c, is_line_terminator c = false) (fd_password sampleForm)
  ∧ validateForm sampleForm !! "password" = None
  ∧ @password_issues refPlatform (Some (JStr (fd_password sampleForm))) = [].
Proof.
  assert (Hline : Forall (λ c, is_line_terminator c = false)
                    (fd_password sampleForm)).
  { apply (bool_decide_unpack _). vm_compute. reflexivity. }
  assert (Hform : validateForm sampleForm !! "password" = None).
  { vm_compute. reflexivity. }
  split; [exact Hline|]. split; [exact Hform|].
  destruct (@password_rule_agrees refPlatform sampleForm) as (_ & Hschema & _).
  exact (Hschema Hline Hform).
Defined.

(* ===================================================================== *)
(** ** Title case: the words of a name *)
(* ===================================================================== *)

Section SplitFacts.
Implicit Types (s w cur : jsstring).

Lemma trimStart_trim s : trimStart (trim s) = trim s.
Proof.
  unfold trim, trimEnd.
  destruct (trimStart_suffix (reverse (trimStart s))) as [p Hp].
  assert (Ha : trimStart s
               = reverse (trimStart (reverse (trimStart s))) ++ reverse p).
  { rewrite <- reverse_app, <- Hp. by rewrite reverse_involutive. }
  apply trimStart_id.
  destruct (reverse (trimStart (reverse (trimStart s)))) as [|c t]; [done|].
  pose proof (trimStart_head s) as Hh. rewrite Ha in Hh. exact Hh.
Qed.

Lemma trim_head s :
  match trim s with [] => True | c :: _ => is_ws c = false end.
Proof. rewrite <- trimStart_trim. apply trimStart_head. Qed.

Lemma trim_last s :
  match reverse (trim s) with [] => True | c :: _ => is_ws c = false end.
Proof.
  unfold trim, trimEnd. rewrite reverse_involutive. apply trimStart_head.
Qed.

Lemma trim_id s :
  match s with [] => True | c :: _ => is_ws c = false end →
  match reverse s with [] => True | c :: _ => is_ws c = false end →
  trim s = s.
Proof.
  intros Hhead Hlast. unfold trim, trimEnd.
  rewrite (trimStart_id s Hhead), (trimStart_id (reverse s) Hlast).
  apply reverse_involutive.
Qed.

Lemma split_word w cur rest :
  Forall (λ c, is_ws c = false) w →
  split_ws_from cur false (w ++ rest)
  = split_ws_from (reverse w ++ cur) false rest.
Proof.
  intros Hw. revert cur. induction Hw as [|c w Hc _ IH]; intros cur; [done|].
  simpl. rewrite Hc, IH, reverse_cons, <- app_assoc. done.
Qed.

Lemma split_join (l : list jsstring) (in_ws : bool) :
  l ≠ [] → Forall solid l →
  split_ws_from [] in_ws (join (u " ") l) = l.
Proof.
  intros Hl Hsolid. revert in_ws.
  induction Hsolid as [|w l [Hne Hw] Hsolid IH]; intros in_ws; [done|].
  destruct w as [|c w]; [done|]. apply Forall_cons in Hw as [Hc Hw].
  destruct l as [|w2 l].
  - simpl. rewrite Hc. rewrite <- (app_nil_r w) at 1.
    rewrite (split_word w [c] [] Hw). simpl.
    by rewrite reverse_app, reverse_involutive.
  - change (join (u " ") ((c :: w) :: w2 :: l))
      with (c :: (w ++ 32%N :: join (u " ") (w2 :: l))).
    simpl split_ws_from. rewrite Hc.
    rewrite (split_word w [c] _ Hw). simpl split_ws_from.
    rewrite reverse_app, reverse_involutive. simpl. f_equal.
    by apply IH.
Qed.

Lemma join_head (l : list jsstring) :
  l ≠ [] → Forall solid l →
  match join (u " ") l with [] => False | c :: _ => is_ws c = false end.
Proof.
  intros Hl Hsolid. destruct Hsolid as [|w l [Hne Hw] _]; [done|].
  destruct w as [|c w]; [done|]. apply Forall_cons in Hw as [Hc _].
  by destruct l.
Qed.

Lemma join_last (l : list jsstring) :
  l ≠ [] → Forall solid l →
  match reverse (join (u " ") l) with
  | [] => False
  | c :: _ => is_ws c = false
  end.
Proof.
  intros Hl Hsolid.
  induction Hsolid as [|w l [Hne Hw] Hsolid IH]; [done|].
  destruct l as [|w2 l].
  - simpl. apply Forall_reverse in Hw.
    destruct (reverse w) as [|c t] eqn:Hr.
    + apply (f_equal reverse) in Hr. rewrite reverse_involutive in Hr. done.
    + by apply Forall_cons in Hw as [Hc _].
  - change (join (u " ") (w :: w2 :: l))
      with (w ++ 32%N :: join (u " ") (w2 :: l)).
    rewrite reverse_app, reverse_cons, <- app_assoc.
    specialize (IH ltac:(done)).
    by destruct (reverse (join (u " ") (w2 :: l))).
Qed.

Lemma split_solid cur (in_ws : bool) s :
  Forall (λ c, is_ws c = false) cur →
  (in_ws = false →
   cur ≠ [] ∨ match s with [] => False | c :: _ => is_ws c = false end) →
  match reverse s with [] => cur ≠ [] | c :: _ => is_ws c = false end →
  Forall solid (split_ws_from cur in_ws s).
Proof.
  revert cur in_ws. induction s as [|c s IH]; intros cur in_ws Hcur Hhead Hlast.
  - simpl. repeat constructor.
    + intros Hr. apply (f_equal reverse) in Hr.
      rewrite reverse_involutive in Hr. by apply Hlast.
    + by apply Forall_reverse.
  - simpl. rewrite reverse_cons in Hlast.
    destruct (is_ws c) eqn:Hc.
    + assert (Hrest : match reverse s with
                      | [] => ([] : jsstring) ≠ []
                      | c' :: _ => is_ws c' = false
                      end).
      { destruct (reverse s) as [|c' t]; [|exact Hlast].
        simpl in Hlast. congruence. }
      destruct in_ws.
      * apply IH; [done|done|].
        destruct (reverse s); [done|exact Hrest].
      * constructor.
        -- split; [|by apply Forall_reverse].
           destruct (Hhead eq_refl) as [Hne|Hws]; [|congruence].
           intros Hr. apply (f_equal reverse) in Hr.
           by rewrite reverse_involutive in Hr.
        -- apply IH; [constructor|done|exact Hrest].
    + apply IH.
      * by constructor.
      * intros _. by left.
      * destruct (reverse s) as [|c' t]; [done|exact Hlast].
Qed.

Lemma words_of_trimmed s :
  trim s ≠ [] → Forall solid (split_ws (trim s)).
Proof.
  intros Hne. apply split_solid; [constructor| |].
  - intros _. right. pose proof (trim_head s) as Hh.
    by destruct (trim s).
  - pose proof (trim_last s) as Hl.
    destruct (reverse (trim s)) as [|c t] eqn:Hr; [|exact Hl].
    apply (f_equal reverse) in Hr. by rewrite reverse_involutive in Hr.
Qed.

Lemma split_nonempty cur (in_ws : bool) s : split_ws_from cur in_ws s ≠ [].
Proof.
  revert cur in_ws. induction s as [|c s IH]; intros cur in_ws; simpl; [done|].
  destruct (is_ws c), in_ws; try done; apply IH.
Qed.

End SplitFacts.

Section TitleCase.
Context `{Platform}.

(** X21 (titleCase): for a name that is not blank and whose words are
    capitalised into words, that is, into non-empty strings without white
    space that capitalisation leaves alone, as it does every word of
    ASCII letters, the result of [titleCase] is the capitalised words of
    the name joined by single spaces: splitting it gives those words back,
    it has no white space at either end, and applying [titleCase] to it
    once more changes nothing. *)
Theorem titleCase_normal_form (name : jsstring) :
  trim name ≠ [] →
  Forall (λ word, solid (capitalize word)
                  ∧ capitalize (capitalize word) = capitalize word)
    (split_ws (trim name)) →
  titleCase name = join (u " ") (capitalize <$> split_ws (trim name))
  ∧ Forall solid (split_ws (trim name))
  ∧ split_ws (titleCase name) = capitalize <$> split_ws (trim name)
  ∧ trim (titleCase name) = titleCase name
  ∧ titleCase (titleCase name) = titleCase name.
Proof.
  intros Hname Hwords.
  assert (Hcap : Forall solid (capitalize <$> split_ws (trim name))).
  { apply Forall_fmap. eapply Forall_impl; [exact Hwords|]. by intros w [? _]. }
  assert (Hne : capitalize <$> split_ws (trim name) ≠ []).
  { intros Hnil. apply fmap_nil_inv in Hnil.
    by apply (split_nonempty [] false (trim name)). }
  assert (Htitle : titleCase name
                   = join (u " ") (capitalize <$> split_ws (trim name))) by done.
  assert (Htrim : trim (titleCase name) = titleCase name).
  { rewrite Htitle. apply trim_id.
    - pose proof (join_head _ Hne Hcap) as Hh. by destruct (join _ _).
    - pose proof (join_last _ Hne Hcap) as Hl.
      by destruct (reverse (join _ _)). }
  assert (Hsplit : split_ws (titleCase name)
                   = capitalize <$> split_ws (trim name)).
  { rewrite Htitle. by apply split_join. }
  split; [done|]. split; [by apply words_of_trimmed|]. split; [done|].
  split; [done|].
  unfold titleCase at 1. rewrite Htrim, Hsplit.
  fold (capitalize <$> (capitalize <$> split_ws (trim name))).
  rewrite Htitle. f_equal. rewrite <- list_fmap_compose.
  apply list_fmap_ext. intros i w Hw. simpl.
  rewrite Forall_forall in Hwords.
  apply Hwords, list_elem_of_lookup. by exists i.
Qed.

End TitleCase.

Lemma titleCase_normal_form_witness :
  trim (u "  asha   rao ") ≠ []
  ∧ Forall (λ word, solid (@capitalize refPlatform word)
                    ∧ @capitalize refPlatform (@capitalize refPlatform word)
                      = @capitalize refPlatform word)
      (split_ws (trim (u "  asha   rao ")))
  ∧ @titleCase refPlatform (@titleCase refPlatform (u "  asha   rao "))
    = @titleCase refPlatform (u "  asha   rao ").
Proof.
  assert (Hname : trim (u "  asha   rao ") ≠ []).
  { vm_compute. discriminate. }
  assert (Hwords : Forall (λ word, solid (@capitalize refPlatform word)
                    ∧ @capitalize refPlatform (@capitalize refPlatform word)
                      = @capitalize refPlatform word)
                     (split_ws (trim (u "  asha   rao ")))).
  { apply (bool_decide_unpack _). vm_compute. reflexivity. }
  split; [exact Hname|]. split; [exact Hwords|].
  destruct (@titleCase_normal_form refPlatform (u "  asha   rao ") Hname Hwords)
    as (_ & _ & _ & _ & Hidem).
  exact Hidem.
Defined.

(* ===================================================================== *)
(** ** The submitter: a run started after Cancel, and aligned responses *)
(* ===================================================================== *)

Section SubmitterCancelled.
Variable r : Render.
Variable env : Environment.

(** X22 (startSubmission, cancelSubmission): a run whose callback was
    created while the cancellation flag was up, as the one a click on
    Start triggers right after a click on Cancel, creates an import
    record and closes it at once as failed with no success and no failure,
    without posting any batch and without touching the results; it lowers
    both the cancellation flag and the submitting flag, so that the next
    click starts an ordinary run. *)
Theorem run_after_cancel (w : World) (id : jsstring) :
  r_isCancelled r = true →
  (0 < length (validRows r))%nat →
  createImport env (filenameOrDefault (r_filename r)) (length (validRows r))
  = Some id →
  sent (startSubmission r env w)
  = sent w
    ++ [CreateImport (filenameOrDefault (r_filename r)) (length (validRows r));
        PatchImport id FAILED 0 0]
  ∧ batchResults (store (startSubmission r env w)) = batchResults (store w)
  ∧ progress (store (startSubmission r env w))
    = Some {| total := length (validRows r); processed := 0; success := 0;
              failed := 0; currentBatch := 0;
              totalBatches := ceilDiv (length (validRows r)) BATCH_SIZE |}
  ∧ isCancelled (startSubmission r env w) = false
  ∧ isSubmitting (store (startSubmission r env w)) = false.
Proof.
  intros Hc Hn Hcreate. unfold startSubmission.
  rewrite bool_decide_false by lia. rewrite Hcreate, Hc.
  assert (Hloop : ∀ id tb ixs c w0, batchLoop r env id tb ixs c w0 = (c, w0)).
  { intros id' tb ixs c w0. destruct ixs; simpl; by rewrite ?Hc. }
  rewrite Hloop. simpl. by rewrite <- app_assoc.
Qed.

(** X23 (startSubmission): in a run that was not cancelled when it
    started and whose import record was created, if every response
    carries one result per case posted, the successes and failures
    reported when the run closes add up to the number of valid rows, and
    so do the results added to the store. *)
Theorem aligned_responses_total (w : World) (id : jsstring) :
  r_isCancelled r = false →
  (0 < length (validRows r))%nat →
  createImport env (filenameOrDefault (r_filename r)) (length (validRows r))
  = Some id →
  (∀ i cases results,
     postBatch env i cases = Some results → length results = length cases) →
  ∃ sc fc,
    last (sent (startSubmission r env w)) = Some (PatchImport id COMPLETED sc fc)
    ∧ (sc + fc)%nat = length (validRows r)
    ∧ length (batchResults (store (startSubmission r env w)))
      = (length (batchResults (store w)) + length (validRows r))%nat.
Proof.
  intros Hc Hn Hcreate Haligned.
  pose proof (run_totals r env w id Hc Hn Hcreate) as Htotals.
  cbv zeta in Htotals. destruct Htotals as (Hresults & Hlast & _).
  set (added := mjoin (batchOutcome r env
                         <$> seq 0 (ceilDiv (length (validRows r)) BATCH_SIZE)))
    in *.
  assert (Hlen : length added = length (validRows r)).
  { subst added. rewrite <- (batches_join r) at 2.
    generalize (seq 0 (ceilDiv (length (validRows r)) BATCH_SIZE)).
    intros ixs. induction ixs as [|i ixs IH]; [done|].
    rewrite !fmap_cons. simpl. rewrite !length_app, IH. f_equal.
    unfold batchOutcome.
    destruct (postBatch env i _) as [results|] eqn:Hpost.
    - rewrite (Haligned _ _ _ Hpost). apply length_fmap.
    - apply length_fmap. }
  exists (length (filter (λ x, br_success x = true) added)),
         (length (filter (λ x, br_success x = false) added)).
  split; [exact Hlast|]. split.
  - rewrite <- Hlen.
    pose proof (filter_app_complement (λ x, br_success x = true) added) as Hperm.
    apply Permutation_length in Hperm. rewrite length_app in Hperm.
    rewrite <- Hperm. f_equal.
    f_equal. apply list_filter_iff. intros x. by destruct (br_success x).
  - by rewrite Hresults, length_app, Hlen.
Qed.

End SubmitterCancelled.

Lemma run_after_cancel_witness :
  r_isCancelled (render (cancelSubmission (idleWorld 101))) = true
  ∧ (0 < length (validRows (render (cancelSubmission (idleWorld 101)))))%nat
  ∧ sent (clickSubmit acceptingServer (cancelSubmission (idleWorld 101)))
    = sent (cancelSubmission (idleWorld 101))
      ++ [CreateImport
            (filenameOrDefault
               (r_filename (render (cancelSubmission (idleWorld 101)))))
            (length (validRows (render (cancelSubmission (idleWorld 101)))));
          PatchImport (u "imp-1") FAILED 0 0].
Proof.
  assert (Hn : length (validRows (render (cancelSubmission (idleWorld 101))))
               = 101%nat) by (vm_compute; reflexivity).
  assert (Hpos : (0 < length (validRows
                               (render (cancelSubmission (idleWorld 101)))))%nat)
    by (rewrite Hn; lia).
  split; [reflexivity|]. split; [exact Hpos|].
  destruct (run_after_cancel (render (cancelSubmission (idleWorld 101)))
              acceptingServer (cancelSubmission (idleWorld 101)) (u "imp-1")
              eq_refl Hpos eq_refl) as (Hsent & _).
  exact Hsent.
Defined.

Lemma aligned_responses_total_witness :
  r_isCancelled (render (idleWorld 250)) = false
  ∧ (0 < length (validRows (render (idleWorld 250))))%nat
  ∧ (∀ i cases results,
       postBatch acceptingServer i cases = Some results →
       length results = length cases)
  ∧ ∃ sc fc,
      last (sent (clickSubmit acceptingServer (idleWorld 250)))
      = Some (PatchImport (u "imp-1") COMPLETED sc fc)
      ∧ (sc + fc)%nat = length (validRows (render (idleWorld 250))).
Proof.
  assert (Hn : length (validRows (render (idleWorld 250))) = 250%nat)
    by (vm_compute; reflexivity).
  assert (Hpos : (0 < length (validRows (render (idleWorld 250))))%nat)
    by (rewrite Hn; lia).
  assert (Haligned : ∀ i cases results,
            postBatch acceptingServer i cases = Some results →
            length results = length cases).
  { intros i cases results [= <-]. apply length_fmap. }
  split; [reflexivity|]. split; [exact Hpos|]. split; [exact Haligned|].
  destruct (aligned_responses_total (render (idleWorld 250)) acceptingServer
              (idleWorld 250) (u "imp-1") eq_refl Hpos eq_refl Haligned)
    as (sc & fc & Hlast & Hsum & _).
  exists sc, fc. split; [exact Hlast|exact Hsum].
Defined.

(* ===================================================================== *)
(** ** The batch route: one result per case *)
(* ===================================================================== *)

Section BatchRouteFacts.
Context `{Platform}.
Variable P : Prisma.

Lemma processCase_result userId importId now caseData db :
  br_caseId (processCase P userId importId now caseData db).1.1
  = Some (JStr (pc_caseId caseData))
  ∧ wellFormedResult (processCase P userId importId now caseData db).1.1.
Proof.
  unfold processCase, wellFormedResult.
  destruct (negb _); [by eauto|].
  destruct (case_findUnique P _ db) as [[[|]|m] db1]; try by eauto.
  destruct (case_create P _ db1) as [[id|m] db2]; [|by eauto].
  destruct (caseHistory_create P id userId db2) as [[[]|m] db3]; by eauto.
Qed.

Lemma processCases_results userId importId clock index cases results ids db :
  (processCases P userId importId clock index cases results ids db).1.1
  = results
    ++ (processCases P userId importId clock index cases [] [] db).1.1
  ∧ length (processCases P userId importId clock index cases [] [] db).1.1
    = length cases
  ∧ br_caseId <$> (processCases P userId importId clock index cases [] [] db).1.1
    = (λ c, Some (JStr (pc_caseId c))) <$> cases
  ∧ Forall wellFormedResult
      (processCases P userId importId clock index cases [] [] db).1.1.
Proof.
  revert index results ids db.
  induction cases as [|caseData cases IH]; intros index results ids db.
  - simpl. by rewrite app_nil_r.
  - simpl.
    destruct (processCase_result userId importId (clock index) caseData db)
      as [Hid Hwf].
    destruct (processCase P userId importId (clock index) caseData db)
      as [[result ids1] db1].
    simpl in Hid, Hwf.
    destruct (IH (S index) (results ++ [result]) (ids ++ ids1) db1)
      as (Hacc & _).
    destruct (IH (S index) [result] ids1 db1)
      as (Hacc1 & Hlen & Hids & Hall).
    rewrite Hacc, Hacc1, <- !app_assoc.
    change ([result] ++ ?l) with (result :: l).
    split; [done|]. split; [by rewrite length_cons, Hlen|]. split.
    + by rewrite !fmap_cons, Hid, Hids.
    + by constructor.
Qed.

(** X24 (POST /api/cases/batch): whatever the database answers, a batch
    response holds exactly one result per case of the request, in the
    order of the request, each under the identifier of its case; a success
    carries the identifier of the record created and a failure an error
    message; the summary counts the cases, the successes and the failures,
    and the latter two add up to the first. *)
Theorem batch_response_aligned (session : option jsstring) (body : Body)
  (clock : nat → Z) (db db' : Db P) (results : list BatchResult)
  (total success failed : nat) :
  POST P session body clock db = (Batch results total success failed, db') →
  ∃ cases importId,
    body = BodyValid cases importId
    ∧ length results = length cases
    ∧ br_caseId <$> results = (λ c, Some (JStr (pc_caseId c))) <$> cases
    ∧ Forall wellFormedResult results
    ∧ total = length cases
    ∧ success = length (filter (λ x, br_success x = true) results)
    ∧ failed = length (filter (λ x, br_success x = false) results)
    ∧ (success + failed)%nat = total.
Proof.
  unfold POST. destruct session as [userId|]; [|done].
  destruct body as [| |cases importId]; [done|done|].
  destruct (processCases_results userId importId clock 0 cases [] [] db)
    as (_ & Hlen & Hids & Hall).
  destruct (processCases P userId importId clock 0 cases [] [] db)
    as [[results0 ids] db1].
  simpl in Hlen, Hids, Hall.
  destruct (match or_null importId with
            | Some id => _
            | None => _
            end) as [[[]|m] db2]; [|done].
  destruct (auditLog_create P _ db2) as [[[]|m] db3]; [|done].
  intros [= <- <- <- <- <-]. exists cases, importId.
  do 6 (split; [done|]). split; [done|].
  rewrite <- Hlen.
  pose proof (filter_app_complement (λ x, br_success x = true) results0) as Hperm.
  apply Permutation_length in Hperm. rewrite length_app in Hperm.
  rewrite <- Hperm. f_equal.
  f_equal. apply list_filter_iff. intros x. by destruct (br_success x).
Qed.

End BatchRouteFacts.

Lemma batch_response_aligned_witness :
  ∃ db',
    @POST refPlatform memoryDb (Some (u "user-1")) twiceTheSameCase
      clock_2026_11_01 []
    = (Batch [ {| br_success := true; br_caseId := Some (JStr (u "C-1"));
                  br_error := None; br_id := Some (u "id-C-1") |};
               {| br_success := false; br_caseId := Some (JStr (u "C-1"));
                  br_error := Some (u "Case with ID C-1 already exists");
                  br_id := None |} ] 2 1 1, db')
    ∧ ∃ cases importId,
        twiceTheSameCase = BodyValid cases importId ∧ length cases = 2%nat.
Proof.
  eexists. split; [vm_compute; reflexivity|].
  destruct (@batch_response_aligned refPlatform memoryDb (Some (u "user-1"))
              twiceTheSameCase clock_2026_11_01 [] _ _ _ _ _ eq_refl)
    as (cases & importId & Hbody & Hlen & _).
  exists cases, importId. split; [exact Hbody|]. by rewrite <- Hlen.
Defined.

(* ===================================================================== *)
(** ** The validator: the rows without error *)
(* ===================================================================== *)

Section AcceptanceRule.
Context `{Platform}.

Lemma z_string_two_checks (a b : jsstring → bool) (ma mb : jsstring) s :
  z_string [(a, ma); (b, mb)] (Some (JStr s)) = []
  ↔ a s = true ∧ b s = true.
Proof.
  unfold z_string. cbn [omap list_omap].
  destruct (a s), (b s); simpl; split; (done || by intros [? ?]).
Qed.

Lemma caseId_regex_nonempty s : caseId_regex s = true → min_length 1 s = true.
Proof.
  unfold caseId_regex, min_length. destruct s; [done|]. by intros _.
Qed.

Lemma dob_in_range_is_date now s :
  dob_in_range now s = true → dob_is_date s = true.
Proof.
  unfold dob_in_range, dob_is_date. by destruct (dateParse s).
Qed.

Lemma email_issues_nil e :
  email_issues (or_undefined (Some (JStr e))) = []
  ↔ e = [] ∨ isEmail e = true.
Proof.
  unfold or_undefined, js_or, email_issues. simpl.
  case_bool_decide as He; simpl.
  - split; [by left|done].
  - rewrite bool_decide_false by done.
    destruct (isEmail e); split; try done; [by right|by intros [?|?]].
Qed.

Lemma z_enum_nil values s :
  z_enum values (Some (JStr s)) = [] ↔ s ∈ values.
Proof.
  unfold z_enum, enum_ok. case_bool_decide; split; done.
Qed.

Lemma priority_issues_nil p :
  priority_issues (or_undefined (Some (JStr p))) = []
  ↔ p = [] ∨ p ∈ PriorityEnum.
Proof.
  unfold or_undefined, js_or, priority_issues. simpl.
  case_bool_decide as Hp; simpl.
  - split; [by left|done].
  - rewrite z_enum_nil. split; [by right|by intros [?|?]].
Qed.

Lemma categoryError_nil i row c :
  row !! "category" = Some (JStr c) →
  categoryError i row = [] ↔ c = [] ∨ c ∈ CategoryEnum.
Proof.
  intros Hc. unfold categoryError, enum_ok. rewrite Hc. simpl.
  case_bool_decide as He; simpl; [split; [by left|done]|].
  case_bool_decide as Hin; simpl; split; try done; [by right|by intros [?|?]].
Qed.

Lemma priorityError_nil i row p :
  row !! "priority" = Some (JStr p) →
  priorityError i row = [] ↔ p = [] ∨ p ∈ PriorityEnum.
Proof.
  intros Hp. unfold priorityError, enum_ok. rewrite Hp. simpl.
  case_bool_decide as He; simpl; [split; [by left|done]|].
  case_bool_decide as Hin; simpl; split; try done; [by right|by intros [?|?]].
Qed.

Lemma app_nil_iff {A} (l1 l2 : list A) : l1 ++ l2 = [] ↔ l1 = [] ∧ l2 = [].
Proof.
  split; [apply app_eq_nil|]. by intros [-> ->].
Qed.

Lemma fmap_nil_iff {A B} (f : A → B) (l : list A) : f <$> l = [] ↔ l = [].
Proof. split; [apply fmap_nil_inv|]. by intros ->. Qed.

Lemma fieldErrors_nil now i row case_id applicant_name dob email phone
  category priority :
  row !! "case_id" = Some (JStr case_id) →
  row !! "applicant_name" = Some (JStr applicant_name) →
  row !! "dob" = Some (JStr dob) →
  row !! "email" = Some (JStr email) →
  row !! "phone" = Some (JStr phone) →
  row !! "category" = Some (JStr category) →
  row !! "priority" = Some (JStr priority) →
  fieldErrors now i row = []
  ↔ acceptable now case_id applicant_name dob email category priority.
Proof.
  intros Hid Hname Hdob Hemail Hphone Hcategory Hpriority.
  unfold fieldErrors, schemaErrors, CaseSchema_issues, acceptable.
  rewrite !app_nil_iff, !fmap_nil_iff, !app_nil_iff, !fmap_nil_iff.
  rewrite (categoryError_nil i row category Hcategory),
    (priorityError_nil i row priority Hpriority).
  simpl. rewrite Hid, Hname, Hdob, Hemail, Hphone, Hcategory, Hpriority.
  rewrite !z_string_two_checks, email_issues_nil, priority_issues_nil,
    z_enum_nil.
  unfold min_length, max_length. rewrite !Nat.leb_le.
  split.
  - intros (([_ Hregex] & Hlen & [_ Hrange] & Hmail & _ & Hcat & Hprio) & _).
    done.
  - intros (Hregex & Hlen & Hrange & Hmail & Hcat & Hprio).
    pose proof (caseId_regex_nonempty _ Hregex) as Hne.
    unfold min_length in Hne. apply Nat.leb_le in Hne.
    pose proof (dob_in_range_is_date _ _ Hrange) as Hdate.
    split; [|split; [by right|done]].
    split; [done|]. split; [done|]. split; [done|]. split; [done|].
    split; [|done].
    unfold or_undefined, js_or. by destruct (truthy _).
Qed.

(** X25 (validateData, CaseSchema): a row of the grid whose data fields
    hold strings is free of validation errors exactly when its case
    identifier is made of letters, digits and hyphens, its name has 1 to
    255 code units, its date of birth parses and lies between 1900-01-01
    and the moment of the check, its e-mail is empty or an address, its
    category is one of the three, its priority is empty or one of the
    three, and no earlier row carries its case identifier; the phone plays
    no part. *)
Theorem row_without_error (clock : nat → Z) (rows : list CSVRow) (i : nat)
  (row : CSVRow)
  (case_id applicant_name dob email phone category priority : jsstring) :
  rows !! i = Some row →
  row !! "case_id" = Some (JStr case_id) →
  row !! "applicant_name" = Some (JStr applicant_name) →
  row !! "dob" = Some (JStr dob) →
  row !! "email" = Some (JStr email) →
  row !! "phone" = Some (JStr phone) →
  row !! "category" = Some (JStr category) →
  row !! "priority" = Some (JStr priority) →
  errorsOfRow i (validationErrorsOf clock rows) = []
  ↔ acceptable (clock i) case_id applicant_name dob email category priority
    ∧ firstIndexOf rows (JStr case_id) = Some i.
Proof.
  intros Hrow Hid Hname Hdob Hemail Hphone Hcategory Hpriority.
  rewrite (errorsOfRow_spec clock rows i row Hrow), app_nil_iff.
  rewrite (fieldErrors_nil (clock i) i row _ _ _ _ _ _ _
             Hid Hname Hdob Hemail Hphone Hcategory Hpriority).
  destruct (firstIndexOf_is_Some rows i row (JStr case_id) Hrow Hid)
    as (first & Hfirst & Hle).
  unfold duplicateErrorsAt. rewrite Hid, Hfirst.
  split.
  - intros [Hdup Hok]. split; [done|]. f_equal.
    destruct Hok as (Hregex & _).
    assert (Htruthy : truthy (Some (JStr case_id)) = true).
    { simpl. rewrite bool_decide_false; [done|]. intros ->. done. }
    rewrite Htruthy in Hdup.
    destruct (first <? i)%nat eqn:Hlt; [done|].
    apply Nat.ltb_ge in Hlt. lia.
  - intros [Hok [= ->]]. split; [|done].
    rewrite Nat.ltb_irrefl. by destruct (truthy _).
Qed.

End AcceptanceRule.

Lemma row_without_error_witness :
  duplicatedRows !! 2%nat
  = Some (mkRow "C-1" "Meera Nair" "1979-11-23" noValue noValue "LICENSE" "HIGH")
  ∧ (errorsOfRow 2 (@validationErrorsOf refPlatform clock_2026_11_01 duplicatedRows)
     = []
     ↔ @acceptable refPlatform (clock_2026_11_01 2%nat) (u "C-1") (u "Meera Nair")
         (u "1979-11-23") (u noValue) (u "LICENSE") (u "HIGH")
       ∧ firstIndexOf duplicatedRows (JStr (u "C-1")) = Some 2%nat).
Proof.
  split; [reflexivity|].
  apply (@row_without_error refPlatform clock_2026_11_01 duplicatedRows 2
           (mkRow "C-1" "Meera Nair" "1979-11-23" noValue noValue "LICENSE" "HIGH")
           (u "C-1") (u "Meera Nair") (u "1979-11-23") (u noValue) (u noValue)
           (u "LICENSE") (u "HIGH")); reflexivity.
Defined.
